(** * run_dynamic_epharmacophore.py: control flow of the batch orchestrator

    A shallow embedding of [src/run_dynamic_epharmacophore.py].  The script
    selects the frames to run ([all_maes], [selected_maes]), drives every
    frame through the external stage programs ([process_frame]), batches the
    frames over a worker pool, and finally copies the hypothesis files to the
    collection directory.

    Conventions of the model.
    - Python [int] is [Z]; [str] is [string]; a list is a [list].
    - A directory is a finite map from file names to file contents
      ([gmap string string]); a directory listing whose order matters (the
      result of [glob.glob]) is a list.
    - The external programs (prepwizard, pv_convert.py, generate_glide_grids,
      epharmacophores, jobcontrol) are not part of the script: their exit
      status and the files they leave behind are read from a [World].
    - File names are ASCII ([int] is modelled on ASCII strings).  Floating
      point coordinates are rationals.
    - An external program leaves files in the working directory; it removes
      none.
    - The script's own file-system calls are assumed not to fail for reasons
      of the host (permissions, full disk, a file that goes away while it is
      read); the one call whose success depends on an external program,
      [os.rename] of the prepared structure, is modelled with its
      failure. *)

From Stdlib Require Import ZArith List String Ascii Bool Lia QArith Sorted Permutation.
From stdpp Require Import base gmap strings list fin_maps.

Local Open Scope string_scope.
Local Open Scope Z_scope.

(** ** Python strings *)

Module PyStr.

Definition chars (s : string) : list ascii := list_ascii_of_string s.

Fixpoint is_prefix (p l : list ascii) : bool :=
  match p, l with
  | [], _ => true
  | _ :: _, [] => false
  | a :: p', b :: l' => Ascii.eqb a b && is_prefix p' l'
  end.

(** [s.startswith(p)] *)
Definition starts_with (p s : string) : bool := is_prefix (chars p) (chars s).

(** [s.endswith(suf)] *)
Definition ends_with (suf s : string) : bool :=
  is_prefix (rev (chars suf)) (rev (chars s)).

Fixpoint contains_chars (pat l : list ascii) : bool :=
  is_prefix pat l ||
  match l with
  | [] => false
  | _ :: l' => contains_chars pat l'
  end.

(** [pat in s] *)
Definition contains (pat s : string) : bool := contains_chars (chars pat) (chars s).

Definition is_digit (c : ascii) : bool :=
  let n := nat_of_ascii c in (48 <=? n)%nat && (n <=? 57)%nat.

Definition digit_value (c : ascii) : Z := Z.of_nat (nat_of_ascii c) - 48.

(** C's [isspace] in the C locale, which is what [int] skips around a
    literal: space, \t, \n, \v, \f, \r. *)
Definition is_space (c : ascii) : bool :=
  let n := nat_of_ascii c in (n =? 32)%nat || ((9 <=? n)%nat && (n <=? 13)%nat).

Definition is_underscore (c : ascii) : bool := (nat_of_ascii c =? 95)%nat.

Fixpoint drop_spaces (l : list ascii) : list ascii :=
  match l with
  | c :: l' => if is_space c then drop_spaces l' else l
  | [] => []
  end.

Definition strip (l : list ascii) : list ascii :=
  rev (drop_spaces (rev (drop_spaces l))).

(** The digits of a decimal literal, most significant first.  A single
    underscore may separate two digits (PEP 515); [prev] tells whether the
    previous character was a digit. *)
Fixpoint digits_value (acc : Z) (prev : bool) (l : list ascii) : option Z :=
  match l with
  | [] => if prev then Some acc else None
  | c :: l' =>
      if is_underscore c then
        if prev then digits_value acc false l' else None
      else if is_digit c then digits_value (10 * acc + digit_value c) true l'
      else None
  end.

(** [int(s)] in base 10 for a [str] of ASCII characters: [None] stands
    for [ValueError].  Outside ASCII, CPython also reads the decimal digits
    and the white space of other scripts, which this function does not:
    what is proved with it of a name is proved of an ASCII name.  (Recent
    versions refuse literals of more than 4300 digits, longer than a file
    name can be.) *)
Definition py_int (s : string) : option Z :=
  match strip (chars s) with
  | c :: l =>
      if (nat_of_ascii c =? 45)%nat then Z.opp <$> digits_value 0 false l
      else if (nat_of_ascii c =? 43)%nat then digits_value 0 false l
      else digits_value 0 false (c :: l)
  | [] => None
  end.

(** The index of the last ["."] of a name, if any. *)
Fixpoint last_dot (i : nat) (l : list ascii) : option nat :=
  match l with
  | [] => None
  | c :: l' =>
      match last_dot (S i) l' with
      | Some j => Some j
      | None => if (nat_of_ascii c =? 46)%nat then Some i else None
      end
  end.

(** [os.path.splitext(name)[0]] for a name without directory separator:
    the name up to its last dot, unless only dots stand before that dot. *)
Definition splitext_root (name : string) : string :=
  let l := chars name in
  match last_dot 0 l with
  | Some j =>
      if forallb (fun c => (nat_of_ascii c =? 46)%nat) (firstn j l) then name
      else string_of_list_ascii (firstn j l)
  | None => name
  end.

End PyStr.

Import PyStr.

(** ** Exceptions and results *)

Inductive Exn : Type :=
  | ValueError          (* int() of a stem that is no integer literal *)
  | ZeroDivisionError.  (* a division or modulo by zero *)

Definition Result (A : Type) : Type := Exn + A.

Definition ret {A} (a : A) : Result A := inr a.
Definition raise {A} (e : Exn) : Result A := inl e.

Definition rbind {A B} (c : Result A) (k : A -> Result B) : Result B :=
  match c with
  | inl e => inl e
  | inr a => k a
  end.

Notation "'try!' x '<-' c ';' k" := (rbind c (fun x => k))
  (at level 10, x name, c at level 100, k at level 200).

Fixpoint map_result {A B} (f : A -> Result B) (l : list A) : Result (list B) :=
  match l with
  | [] => ret []
  | a :: l' => try! b <- f a ; try! bs <- map_result f l' ; ret (b :: bs)
  end.

Fixpoint filter_result {A} (f : A -> Result bool) (l : list A) : Result (list A) :=
  match l with
  | [] => ret []
  | a :: l' =>
      try! b <- f a ; try! r <- filter_result f l' ; ret (if b : bool then a :: r else r)
  end.

(** ** Frame selection (lines 73-78) *)

(** [glob.glob(os.path.join(dir, "*" + ext))], given the names in [dir] in
    the order the operating system lists them: the names that end in [ext];
    a name that starts with a dot is never matched by a pattern that does
    not. *)
Definition glob_ext (ext : string) (names : list string) : list string :=
  List.filter (fun n => ends_with ext n && negb (starts_with "." n)) names.

(** [int(os.path.splitext(os.path.basename(x))[0])]; [x] is
    [os.path.join(INPUT_DIR, name)], whose basename is [name]. *)
Definition frame_index (name : string) : Result Z :=
  match py_int (splitext_root name) with
  | Some i => ret i
  | None => raise ValueError
  end.

(** [sorted(l, key=...)] on the decorated list: insertion keeps the order of
    equal keys, as Python's stable sort does.  [before a b] tells whether an
    element of key [a] already in place stays ahead of a new one of key
    [b]. *)
Fixpoint insert_by {A} (before : Z -> Z -> bool) (x : Z * A) (l : list (Z * A)) : list (Z * A) :=
  match l with
  | [] => [x]
  | y :: l' => if before (fst y) (fst x) then y :: insert_by before x l' else x :: y :: l'
  end.

Definition sort_by {A} (before : Z -> Z -> bool) (l : list (Z * A)) : list (Z * A) :=
  List.fold_right (insert_by before) [] l.

Definition decorate {A} (key : A -> Result Z) (l : list A) : Result (list (Z * A)) :=
  map_result (fun a => try! k <- key a ; ret (k, a)) l.

(** Line 73. *)
Definition all_maes (input_names : list string) : Result (list string) :=
  try! d <- decorate frame_index (glob_ext ".mae" input_names) ;
  ret (List.map snd (sort_by Z.ltb d)).

(** The condition of the comprehension of line 74: a chained comparison,
    then [and], which evaluates the modulo only for an index in range. *)
Definition in_selection (START_IDX END_IDX STEP : Z) (f : string) : Result bool :=
  try! i <- frame_index f ;
  if (START_IDX <=? i) && (i <=? END_IDX) then
    try! j <- frame_index f ;
    if STEP =? 0 then raise ZeroDivisionError
    else ret ((j - START_IDX) mod STEP =? 0)
  else ret false.

(** Line 74. *)
Definition selected_maes (START_IDX END_IDX STEP : Z) (maes : list string) : Result (list string) :=
  filter_result (in_selection START_IDX END_IDX STEP) maes.

(** ** The world outside the script *)

(** A directory: file name to file content. *)
Abbreviation Dir := (gmap string string).

(** The external programs [nice_run] starts.  [pv_convert.py] is run in two
    modes, which are two commands here. *)
Inductive Cmd : Type :=
  | prepwizard
  | pv_convert_split_ligand
  | pv_convert_split_receptor
  | glide_gridgen
  | epharmacophores.

(** The stages of the pipeline, in their fixed order. *)
Inductive Stage : Type :=
  | Prepare
  | Split
  | GeometryDerive
  | GridGenerate
  | HypothesisGenerate.

Definition stage_rank (s : Stage) : nat :=
  match s with
  | Prepare => 0
  | Split => 1
  | GeometryDerive => 2
  | GridGenerate => 3
  | HypothesisGenerate => 4
  end.

Record Atom : Type := { atom_x : Q; atom_y : Q; atom_z : Q }.

(** An entry of the working directory as [glob] and [os.path.getmtime] see
    it. *)
Record ZipEntry : Type := { zname : string; zmtime : Z; zdata : string }.

(** What the script cannot decide: the behaviour of the external programs
    and of the job backend, per frame (named by its [base_index]). *)
Record World : Type := {
  (** exit status of the program run for the frame *)
  exit_status : string -> Cmd -> Z;
  (** the files the program leaves in the working directory *)
  outputs : string -> Cmd -> Dir;
  (** [next(StructureReader(f))] on a file of the given content: the atoms
      of its first structure, [None] when the reader raises *)
  read_structure : string -> option (list Atom);
  (** the working directory as the frame's [k]-th scan for grid archives
      finds it; the job backend deposits archives on its own schedule *)
  zips_seen : string -> nat -> list ZipEntry;
  (** the rendering [f"{x:.2f}"] *)
  fmt2 : Q -> string;
  (** content of the files of the input directory *)
  input_data : string -> string
}.

(** The file system when the script starts. *)
Record Host : Type := {
  schrodinger_isdir : bool;          (* os.path.isdir(SCHRODINGER) *)
  input_names : list string;         (* the entries of INPUT_DIR, as listed *)
  PROCESSED_DIR : Dir;
  HYPOTHESIS_DIR : Dir
}.

(** The command line (lines 33-44). *)
Record Config : Type := {
  START_IDX : Z;
  END_IDX : Z;
  STEP : Z;
  USER_NCORES : Z;
  BATCH_SIZE : Z
}.

(** ** One frame (lines 80-173) *)

(** An argument of a command line: text, or the name of a file of the
    working directory, or the name of the job the program is to run. *)
Inductive Arg : Type :=
  | Lit (s : string)
  | File (p : string)
  | Job (p : string).

(** What a frame's pipeline does, in order. *)
Inductive Event : Type :=
  | ECopyIn (src dst : string)            (* shutil.copy from INPUT_DIR *)
  | ERun (c : Cmd) (argv : list Arg)      (* nice_run *)
  | ERename (src dst : string)            (* os.rename *)
  | ERemove (files : list string)         (* rm -f, through the shell *)
  | EReadStructure (p : string)           (* StructureReader *)
  | EWriteCsv (p : string)                (* csv.DictWriter *)
  | EPoll (scans : nat) (found : string)  (* the polling loop, when it ends *)
  | ECopy (src dst : string).             (* shutil.copy inside the directory *)

Definition stage_of_cmd (c : Cmd) : Stage :=
  match c with
  | prepwizard => Prepare
  | pv_convert_split_ligand | pv_convert_split_receptor => Split
  | glide_gridgen => GridGenerate
  | epharmacophores => HypothesisGenerate
  end.

Definition stage_of_event (e : Event) : Stage :=
  match e with
  | ECopyIn _ _ | ERename _ _ | ERemove _ => Prepare
  | ERun c _ => stage_of_cmd c
  | EReadStructure _ => GeometryDerive
  | EWriteCsv _ | EPoll _ _ | ECopy _ _ => GridGenerate
  end.

Definition arg_paths (a : Arg) : list string :=
  match a with
  | Lit _ => []
  | File p | Job p => [p]
  end.

(** The names of the working directory an event reads, matches or
    writes. *)
Definition event_paths (e : Event) : list string :=
  match e with
  | ECopyIn _ dst => [dst]
  | ERun _ argv => List.concat (List.map arg_paths argv)
  | ERename src dst => [src; dst]
  | ERemove files => files
  | EReadStructure p => [p]
  | EWriteCsv p => [p]
  | EPoll _ found => [found]
  | ECopy src dst => [src; dst]
  end.

(** Exceptions inside [process_frame]. *)
Inductive FrameExn : Type :=
  | CalledProcessError   (* nice_run: non-zero exit status *)
  | FileNotFoundError    (* os.rename, StructureReader: no such file *)
  | ReaderError          (* StructureReader, next: no structure to read *)
  | ZeroDivision.        (* the mean of no coordinates *)

(** How a frame's pipeline ends. *)
Inductive Status : Type :=
  | Done                      (* the end of process_frame is reached *)
  | Failed (s : Stage)        (* an except clause returned *)
  | Crashed (e : FrameExn)    (* an exception left process_frame *)
  | Hung.                     (* still polling when the fuel ran out *)

Record PState : Type := { trace : list Event; cwd : Dir }.

(** Why a block of the pipeline stops early: an exception, the [return]
    of the except clause of a stage, or a polling loop that the fuel did
    not see the end of. *)
Inductive Stop : Type :=
  | Raise (e : FrameExn)
  | Return (st : Stage)
  | OutOfFuel.

(** The pipeline monad: the trace and the working directory are threaded,
    an exception or a [return] ends the run. *)
Definition Pipe (A : Type) : Type := PState -> PState * (Stop + A).

Definition pret {A} (a : A) : Pipe A := fun s => (s, inr a).

Definition pbind {A B} (c : Pipe A) (k : A -> Pipe B) : Pipe B :=
  fun s =>
    match c s with
    | (s', inl stop) => (s', inl stop)
    | (s', inr a) => k a s'
    end.

Notation "'do!' x '<-' c ';' k" := (pbind c (fun x => k))
  (at level 10, x name, c at level 100, k at level 200).
Notation "c ';;' k" := (pbind c (fun _ => k))
  (at level 100, k at level 200, right associativity).

Definition praise {A} (e : FrameExn) : Pipe A := fun s => (s, inl (Raise e)).

Definition emit (e : Event) : Pipe unit :=
  fun s => ({| trace := trace s ++ [e]; cwd := cwd s |}, inr tt).

Definition get_cwd : Pipe Dir := fun s => (s, inr (cwd s)).

Definition modify_cwd (f : Dir -> Dir) : Pipe unit :=
  fun s => ({| trace := trace s; cwd := f (cwd s) |}, inr tt).

(** [try: body except <handles>: print(...); return] in stage [st]. *)
Definition try_except {A} (handles : FrameExn -> bool) (st : Stage) (body : Pipe A) : Pipe A :=
  fun s =>
    match body s with
    | (s', inl (Raise e)) =>
        if handles e then (s', inl (Return st)) else (s', inl (Raise e))
    | r => r
    end.

(** [except subprocess.CalledProcessError] *)
Definition except_CalledProcessError (e : FrameExn) : bool :=
  match e with
  | CalledProcessError => true
  | _ => false
  end.

(** [except Exception] *)
Definition except_Exception (e : FrameExn) : bool := true.

(** Lines 80-81: the program runs (under [nice -n 10], which the events
    do not repeat), leaves its files, and [check=True] raises on a non-zero
    exit status. *)
Definition nice_run (w : World) (base_index : string) (c : Cmd) (argv : list Arg) : Pipe unit :=
  emit (ERun c argv) ;;
  modify_cwd (fun d => outputs w base_index c ∪ d) ;;
  if exit_status w base_index c =? 0 then pret tt else praise CalledProcessError.

(** [os.rename(src, dst)] *)
Definition os_rename (src dst : string) : Pipe unit :=
  emit (ERename src dst) ;;
  do! d <- get_cwd ;
  match d !! src with
  | Some data => modify_cwd (fun d => <[dst := data]> (delete src d))
  | None => praise FileNotFoundError
  end.

(** [subprocess.run("rm -f a b c", shell=True)], line 100: no [check],
    nothing is raised.  The line is not quoted: [files] are the words the
    shell makes of it when the stem of the frame is a run of digits.  For a
    stem with a blank in it the shell cuts the words elsewhere, and for one
    that starts with a minus sign [rm] takes them for options and removes
    nothing; what depends on the files removed is stated for stems of
    digits. *)
Definition shell_rm (files : list string) : Pipe unit :=
  emit (ERemove files) ;;
  modify_cwd (fun d => List.fold_right delete d files).

Definition sumQ (l : list Q) : Q := List.fold_right Qplus 0%Q l.

(** [sum(xs)/len(xs)] *)
Definition mean (xs : list Q) : Pipe Q :=
  match xs with
  | [] => praise ZeroDivision
  | _ => pret (sumQ xs / inject_Z (Z.of_nat (length xs)))%Q
  end.

(** Lines 117-122. *)
Definition ligand_center (w : World) (lig : string) : Pipe string :=
  emit (EReadStructure lig) ;;
  do! d <- get_cwd ;
  match d !! lig with
  | None => praise FileNotFoundError
  | Some data =>
      match read_structure w data with
      | None => praise ReaderError
      | Some atoms =>
          do! mx <- mean (List.map atom_x atoms) ;
          do! my <- mean (List.map atom_y atoms) ;
          do! mz <- mean (List.map atom_z atoms) ;
          pret (fmt2 w mx +:+ "," +:+ fmt2 w my +:+ "," +:+ fmt2 w mz)
      end
  end.

Definition dquote : string := String (ascii_of_nat 34) EmptyString.
Definition crlf : string := String (ascii_of_nat 13) (String (ascii_of_nat 10) EmptyString).

(** A field of a [csv] row in the default dialect: quoted when it holds
    the delimiter, the quote character or a line break, a quote inside
    being doubled. *)
Definition csv_special (c : ascii) : bool :=
  let n := nat_of_ascii c in
  (n =? 44)%nat || (n =? 34)%nat || (n =? 13)%nat || (n =? 10)%nat.

Fixpoint csv_escape (s : string) : string :=
  match s with
  | EmptyString => EmptyString
  | String c s' =>
      if (nat_of_ascii c =? 34)%nat then String c (String c (csv_escape s'))
      else String c (csv_escape s')
  end.

Definition csv_field (s : string) : string :=
  if existsb csv_special (chars s) then dquote +:+ csv_escape s +:+ dquote else s.

(** Lines 129-132: the header and the one row. *)
Definition grid_input_csv (rec center : string) : string :=
  "rec_file,cent_coor,hbond_cons,lig_asl,res_asl" +:+ crlf +:+
  csv_field rec +:+ "," +:+ csv_field center +:+ ",,," +:+ crlf.

Definition write_csv (csv_file rec center : string) : Pipe unit :=
  emit (EWriteCsv csv_file) ;;
  modify_cwd (fun d => <[csv_file := grid_input_csv rec center]> d).

(** [glob.glob("*.zip")] on a listing with modification times. *)
Definition glob_zip (listing : list ZipEntry) : list ZipEntry :=
  List.filter (fun e => ends_with ".zip" (zname e) && negb (starts_with "." (zname e))) listing.

(** Line 144: [sorted(..., key=os.path.getmtime, reverse=True)]; a reversed
    sort keeps the order of equal keys too. *)
Definition newest_first (zips : list ZipEntry) : list ZipEntry :=
  List.map snd (sort_by Z.gtb (List.map (fun e => (zmtime e, e)) zips)).

(** Lines 144-148: one scan. *)
Definition scan_zips (listing : list ZipEntry) : option ZipEntry :=
  List.find (fun e => contains "gridgen" (zname e)) (newest_first (glob_zip listing)).

(** The seconds [time.sleep] is given on line 149. *)
Definition POLL_DELAY : Z := 2.

(** Lines 142-149: [k] scans were done before; each scan is followed by
    one sleep, also the one that finds the archive.  The result is the
    number of scans and the archive; [None] when [fuel] scans found
    nothing. *)
Fixpoint wait_for_zip (listing : nat -> list ZipEntry) (k fuel : nat) : option (nat * ZipEntry) :=
  match fuel with
  | O => None
  | S fuel' =>
      match scan_zips (listing k) with
      | Some z => Some (S k, z)
      | None => wait_for_zip listing (S k) fuel'
      end
  end.

Definition seconds_slept (scans : nat) : Z := POLL_DELAY * Z.of_nat scans.

(** Lines 142-149 for a frame.  Every scan takes its listing from
    [zips_seen]: what [glob] returns at that time, whoever put the archives
    there.  [os.path.getmtime] of a listed name and the [shutil.copy] of the
    archive found (line 151) are taken to succeed: no archive goes away
    between its listing and its copy. *)
Definition poll_gridzip (w : World) (fuel : nat) (base_index : string) : Pipe ZipEntry :=
  match wait_for_zip (zips_seen w base_index) 0 fuel with
  | Some (n, z) => emit (EPoll n (zname z)) ;; pret z
  | None => fun s => (s, inl OutOfFuel)
  end.

(** The body of [process_frame], lines 84-173. *)
Definition frame_pipeline (w : World) (fuel : nat) (mae : string) : Pipe unit :=
  let base_index := splitext_root mae in
  let work_mae := base_index +:+ ".mae" in
  emit (ECopyIn mae work_mae) ;;
  modify_cwd (fun d => <[work_mae := input_data w mae]> d) ;;
  let temp_out := base_index +:+ "_pH7.4_prepared.mae" in
  let final_out := base_index +:+ "_prepared.mae" in
  try_except except_CalledProcessError Prepare (
    nice_run w base_index prepwizard
      [File work_mae; File temp_out; Lit "-NOJOBID"; Lit "-noimpref"; Lit "-noepik";
       Lit "-propka_pH"; Lit "7.4"; Lit "-keepfarwat"] ;;
    os_rename temp_out final_out ;;
    shell_rm [base_index +:+ "-protassign.log"; base_index +:+ "-protassign.mae";
              base_index +:+ "-protassign-out.mae"]) ;;
  let lig := base_index +:+ "_prepared-out_lig.mae" in
  let rec := base_index +:+ "_prepared-out_recep.mae" in
  try_except except_CalledProcessError Split (
    nice_run w base_index pv_convert_split_ligand
      [Lit "pv_convert.py"; Lit "-mode"; Lit "split_ligand"; File final_out; Lit "-o"; File lig] ;;
    nice_run w base_index pv_convert_split_receptor
      [Lit "pv_convert.py"; Lit "-mode"; Lit "split_receptor"; File final_out; Lit "-o"; File rec]) ;;
  do! center <- try_except except_Exception GeometryDerive (ligand_center w lig) ;
  let csv_file := base_index +:+ "_grid_input.csv" in
  write_csv csv_file rec center ;;
  try_except except_CalledProcessError GridGenerate (
    nice_run w base_index glide_gridgen [File csv_file]) ;;
  do! actual_zip <- poll_gridzip w fuel base_index ;
  let gridzip := base_index +:+ "_grid.zip" in
  emit (ECopy (zname actual_zip) gridzip) ;;
  modify_cwd (fun d => <[gridzip := zdata actual_zip]> d) ;;
  let hypo_prefix := base_index +:+ "_hypo" in
  try_except except_CalledProcessError HypothesisGenerate (
    nice_run w base_index epharmacophores
      [Lit "-WAIT"; Lit "-rec_file"; File rec; Lit "-lig_file"; File lig;
       Lit ("-site_center=" +:+ center); Lit "-in_place";
       Lit "-fd"; Lit ""; Lit "-f"; Lit "7"; Lit "-site_dist"; Lit "2.0";
       Lit "-pair_dist"; Lit "4.0"; Lit "-xvol"; Lit "-scale"; Lit "0.5";
       Lit "-buff"; Lit "2.0"; Lit "-limit"; Lit "5.0";
       Lit "-HOST"; Lit "localhost:1"; Lit "-j"; Job hypo_prefix]).

Record FrameResult : Type := { fr_trace : list Event; fr_status : Status }.

Definition status_of (r : Stop + unit) : Status :=
  match r with
  | inr _ => Done
  | inl (Return st) => Failed st
  | inl (Raise e) => Crashed e
  | inl OutOfFuel => Hung
  end.

(** [process_frame(mae_path)] in working directory [d]: what it did, how
    it ended, and the working directory afterwards. *)
Definition process_frame (w : World) (fuel : nat) (mae : string) (d : Dir) : FrameResult * Dir :=
  let '(s, r) := frame_pipeline w fuel mae {| trace := []; cwd := d |} in
  ({| fr_trace := trace s; fr_status := status_of r |}, cwd s).

(** A frame has reached a terminal state when its pipeline ran to the end
    or one of its except clauses returned. *)
Definition terminal (s : Status) : bool :=
  match s with
  | Done | Failed _ => true
  | Crashed _ | Hung => false
  end.

(** ** Batches (lines 178-196) *)

(** [len(range(start, stop, step))] for [step <> 0]. *)
Definition range_length (start stop step : Z) : Z :=
  if (0 <? step) && (start <? stop) then 1 + (stop - 1 - start) / step
  else if (step <? 0) && (stop <? start) then 1 + (start - 1 - stop) / (- step)
  else 0.

(** [range(start, stop, step)]; a zero step is a [ValueError]. *)
Definition py_range (start stop step : Z) : Result (list Z) :=
  if step =? 0 then raise ValueError
  else ret (List.map (fun k => start + Z.of_nat k * step)
                     (List.seq 0 (Z.to_nat (range_length start stop step)))).

(** A slice bound as Python clamps it: a negative one counts from the
    end. *)
Definition slice_bound (len i : Z) : Z :=
  if i <? 0 then Z.max 0 (i + len) else Z.min i len.

(** [l[lo:hi]] *)
Definition py_slice {A} (l : list A) (lo hi : Z) : list A :=
  let len := Z.of_nat (length l) in
  let lo' := slice_bound len lo in
  let hi' := slice_bound len hi in
  firstn (Z.to_nat (hi' - lo')) (skipn (Z.to_nat lo') l).

(** Line 178: [ceil(len(selected_maes) / BATCH_SIZE)].  The quotient is a
    float and its ceiling is only printed (the loop of line 180 counts its
    batches itself, in integers); what the line does to the run is to raise
    when the batch size is zero.  (A quotient too large for a float would
    need more than [2^1023] selected files.) *)
Definition total_batches (n BATCH_SIZE : Z) : Result unit :=
  if BATCH_SIZE =? 0 then raise ZeroDivisionError else ret tt.

(** The batches the loop of line 180 goes through, in order. *)
Definition batches_of {A} (BATCH_SIZE : Z) (selected : list A) : Result (list (list A)) :=
  try! starts <- py_range 0 (Z.of_nat (length selected)) BATCH_SIZE ;
  ret (List.map (fun batch_start => py_slice selected batch_start (batch_start + BATCH_SIZE)) starts).

(** Line 184: the width of the pool of a batch. *)
Definition pool_width (USER_NCORES : Z) (batch_len : nat) : Z :=
  Z.min (Z.max 1 (USER_NCORES / 2)) (Z.of_nat batch_len).

(** What the script does at the top level, in order. *)
Inductive RunEvent : Type :=
  | PoolCreated (processes : Z)                (* Pool(processes=...) *)
  | FrameRan (mae : string) (r : FrameResult)  (* one item of pool.map *)
  | Cleanup                                    (* jobcontrol -delete finished *)
  | Collected (name : string).                 (* shutil.copy of a hypothesis *)

(** [pool.map(process_frame, batch)], line 185, as far as the script gets
    to see it.  The frames are taken in list order, the working directory
    going from one frame to the next, which is the schedule of a pool of one
    worker.  [map] hands the list of results back only when every frame has
    returned.  A frame that raises, or that is left polling, is the last one
    of the result: from then on [map] does not return (it raises in the
    parent what the worker raised, or it blocks), and what the pool still
    does with the frames behind that one depends on its chunks and on its
    other workers (the rest of the chunk of a frame that raised is dropped,
    a worker that polls takes no further frame); the script sees none of
    it. *)
Fixpoint pool_map (w : World) (fuel : nat) (batch : list string) (d : Dir)
  : list (string * FrameResult) * Dir :=
  match batch with
  | [] => ([], d)
  | mae :: rest =>
      let '(r, d1) := process_frame w fuel mae d in
      if terminal (fr_status r) then
        let '(rs, d2) := pool_map w fuel rest d1 in
        ((mae, r) :: rs, d2)
      else ([(mae, r)], d1)
  end.

Definition all_terminal (rs : list (string * FrameResult)) : bool :=
  forallb (fun r => terminal (fr_status (snd r))) rs.

(** The loop of lines 180-196.  [pool.map] returns only when every frame
    of the batch has reached a terminal state: it blocks while a worker
    polls, and raises what a worker raised, which nothing catches.  [None]
    stands for a run that does not get past one of its batches: no later
    batch is started and nothing is collected. *)
Fixpoint run_batches (w : World) (fuel : nat) (USER_NCORES : Z) (batches : list (list string))
    (d : Dir) : option (list RunEvent * Dir) :=
  match batches with
  | [] => Some ([], d)
  | batch :: rest =>
      let '(rs, d1) := pool_map w fuel batch d in
      if all_terminal rs then
        match run_batches w fuel USER_NCORES rest d1 with
        | Some (log, d2) =>
            Some (PoolCreated (pool_width USER_NCORES (length batch))
                    :: List.map (fun r => FrameRan (fst r) (snd r)) rs ++ Cleanup :: log, d2)
        | None => None
        end
      else None
  end.

(** ** Collection (lines 201-202) *)

(** [glob.glob(os.path.join(PROCESSED_DIR, "*.phypo"))] *)
Definition phypo_files (proc : Dir) : list (string * string) :=
  List.filter (fun f => ends_with ".phypo" (fst f) && negb (starts_with "." (fst f)))
              (map_to_list proc).

(** Each hypothesis file is copied into the collection under its own
    name. *)
Definition collect (proc hyp : Dir) : Dir :=
  List.fold_left (fun h f => <[fst f := snd f]> h) (phypo_files proc) hyp.

(** ** The script *)

Inductive ExitReason : Type :=
  | SchrodingerNotFound    (* line 61 *)
  | NoFramesInRange.       (* line 77 *)

Inductive Outcome : Type :=
  | Exit1 (why : ExitReason)                    (* sys.exit(1) *)
  | Uncaught (e : Exn)                          (* a traceback before the first batch *)
  | Stuck                                       (* a batch is never left, or left by an exception *)
  | Completed (log : list RunEvent) (proc hyp : Dir).

Definition select_frames (cfg : Config) (h : Host) : Result (list string) :=
  try! maes <- all_maes (input_names h) ;
  selected_maes (START_IDX cfg) (END_IDX cfg) (STEP cfg) maes.

Definition main (cfg : Config) (h : Host) (w : World) (fuel : nat) : Outcome :=
  if negb (schrodinger_isdir h) then Exit1 SchrodingerNotFound
  else
    match select_frames cfg h with
    | inl e => Uncaught e
    | inr [] => Exit1 NoFramesInRange
    | inr selected =>
        match (try! _ <- total_batches (Z.of_nat (length selected)) (BATCH_SIZE cfg) ;
               batches_of (BATCH_SIZE cfg) selected) with
        | inl e => Uncaught e
        | inr batches =>
            match run_batches w fuel (USER_NCORES cfg) batches (PROCESSED_DIR h) with
            | None => Stuck
            | Some (log, proc) =>
                Completed (log ++ List.map (fun f => Collected (fst f)) (phypo_files proc))
                          proc (collect proc (HYPOTHESIS_DIR h))
            end
        end
    end.

(** ** The command line and the installation (lines 28-68) *)

(** [int(x)] of a float: the fraction is dropped, towards zero. *)
Definition int_of_float (x : Q) : Z := Z.quot (Qnum x) (Z.pos (Qden x)).

(** Lines 28-30.  [cpu_count] is [os.cpu_count()], [None] when the count
    cannot be determined; [x or 4] takes [4] for [None] and for [0].  The
    product with [0.75] is exact in floating point for every count below
    [2^51]. *)
Definition get_default_cores (cpu_count : option Z) : Z :=
  let total_cores :=
    match cpu_count with
    | Some n => if n =? 0 then 4 else n
    | None => 4
    end in
  Z.max 1 (int_of_float (inject_Z total_cores * (3 # 4))).

(** The options as they stand on the command line, after [type=int]:
    [--start] and [--end] are required, the others may be left out. *)
Record Args : Type := {
  args_start : Z;
  args_end : Z;
  args_step : option Z;
  args_ncores : option Z;
  args_batch : option Z
}.

(** Lines 33-44: an option that is left out has its default. *)
Definition config_of_args (cpu_count : option Z) (a : Args) : Config :=
  {| START_IDX := args_start a;
     END_IDX := args_end a;
     STEP := default 1 (args_step a);
     USER_NCORES := default (get_default_cores cpu_count) (args_ncores a);
     BATCH_SIZE := default (get_default_cores cpu_count) (args_batch a) |}.

(** Paths are POSIX paths: the separator is the slash. *)
Definition is_slash (c : ascii) : bool := (nat_of_ascii c =? 47)%nat.

(** One step of [os.path.join]: a component that starts with the
    separator replaces what was joined so far; otherwise it is appended,
    after a separator unless the path is empty or ends with one. *)
Definition join_step (path b : string) : string :=
  if starts_with "/" b then b
  else if String.eqb path "" || ends_with "/" path then path +:+ b
  else path +:+ "/" +:+ b.

(** [os.path.join(a, *p)] *)
Definition os_path_join (a : string) (p : list string) : string :=
  List.fold_left join_step p a.

(** What follows the last separator of a path. *)
Fixpoint after_last_slash (l : list ascii) : list ascii :=
  match l with
  | [] => []
  | c :: l' =>
      if existsb is_slash l' then after_last_slash l'
      else if is_slash c then l' else c :: l'
  end.

(** [os.path.basename(p)] *)
Definition os_path_basename (p : string) : string :=
  string_of_list_ascii (after_last_slash (chars p)).

(** Lines 50-53, from [BASE_DIR = os.getcwd()]: the paths of the
    directories ([PROCESSED_DIR] and [HYPOTHESIS_DIR] of a [Host] are what
    the two directories hold). *)
Definition ANALYSIS_DIR (BASE_DIR : string) : string :=
  os_path_join BASE_DIR ["DYNOPHORE_ANALYSIS"].
Definition INPUT_DIR (BASE_DIR : string) : string :=
  os_path_join BASE_DIR ["input_mae_files"].
Definition PROCESSED_DIR_path (BASE_DIR : string) : string :=
  os_path_join (ANALYSIS_DIR BASE_DIR) ["PROCESSED_FILES"].
Definition HYPOTHESIS_DIR_path (BASE_DIR : string) : string :=
  os_path_join (ANALYSIS_DIR BASE_DIR) ["saved_HYPOTHESIS"].

(** [environ.get(k) or rest]: a variable that is not set and one that is
    set to the empty string both give way to [rest]. *)
Definition get_or (environ : gmap string string) (k rest : string) : string :=
  match environ !! k with
  | Some (String c v) => String c v
  | _ => rest
  end.

(** Line 59. *)
Definition SCHRODINGER (environ : gmap string string) : string :=
  get_or environ "SCHRODINGER18" (get_or environ "SCHRODINGER18_4" "/opt/schrodinger2018-4").

(** Lines 64-68: the file a command is started from. *)
Definition program_path (root : string) (c : Cmd) : string :=
  match c with
  | prepwizard => os_path_join root ["utilities"; "prepwizard"]
  | pv_convert_split_ligand | pv_convert_split_receptor => os_path_join root ["run"]
  | glide_gridgen => os_path_join root ["utilities"; "generate_glide_grids"]
  | epharmacophores => os_path_join root ["utilities"; "epharmacophores"]
  end.

(** Line 193. *)
Definition jobcontrol_path (root : string) : string := os_path_join root ["jobcontrol"].

(** * The vocabulary of the properties *)

(** [ordered before a b]: in a list sorted with [before], an element of
    key [a] may stand ahead of one of key [b]. *)
Definition ordered (before : Z -> Z -> bool) (a b : Z) : Prop := before b a = false.

Definition key_ordered {A} (before : Z -> Z -> bool) (x y : Z * A) : Prop :=
  ordered before (fst x) (fst y).

(** The integer a file name stands for ([0] when it stands for none). *)
Definition index_of (name : string) : Z :=
  match frame_index name with
  | inr i => i
  | inl _ => 0
  end.

(** The test of line 74 on an index. *)
Definition selects (START END STEP i : Z) : bool :=
  (START <=? i) && (i <=? END) && ((i - START) mod STEP =? 0).

(** The events of a run that reached the end; a run that stopped at an
    exit or at a top-level exception has none. *)
Definition run_log (o : Outcome) : list RunEvent :=
  match o with
  | Completed log _ _ => log
  | _ => []
  end.

(** A candidate of the scan: a [*.zip] name that contains [gridgen]. *)
Definition candidate (e : ZipEntry) : bool :=
  ends_with ".zip" (zname e) && negb (starts_with "." (zname e)) &&
  contains "gridgen" (zname e).

(** The names [glob] matches against [*.phypo]. *)
Definition is_phypo (name : string) : bool :=
  ends_with ".phypo" name && negb (starts_with "." name).

(** The [k]-th run of [b] consecutive elements. *)
Definition chunk {A} (b : nat) (l : list A) (k : nat) : list A :=
  firstn b (skipn (k * b) l).

(** The number of batches of [n] frames by [b]: [ceil(n / b)]. *)
Definition batch_count (n b : nat) : nat := ((n + b - 1) / b)%nat.

(** The frames of the log, grouped by the cleanup that follows them. *)
Fixpoint log_batches (cur : list string) (log : list RunEvent) : list (list string) :=
  match log with
  | [] => []
  | FrameRan mae _ :: log' => log_batches (cur ++ [mae]) log'
  | Cleanup :: log' => cur :: log_batches [] log'
  | _ :: log' => log_batches cur log'
  end.

Definition is_cleanup (e : RunEvent) : bool :=
  match e with
  | Cleanup => true
  | _ => false
  end.

(** How often the cleanup was invoked. *)
Definition cleanups (log : list RunEvent) : nat := length (List.filter is_cleanup log).

(** The widths of the pools, in the order of their creation. *)
Fixpoint pools (log : list RunEvent) : list Z :=
  match log with
  | [] => []
  | PoolCreated p :: log' => p :: pools log'
  | _ :: log' => pools log'
  end.

(** The frames that were run, with their results, in order. *)
Fixpoint frame_runs (log : list RunEvent) : list (string * FrameResult) :=
  match log with
  | [] => []
  | FrameRan mae r :: log' => (mae, r) :: frame_runs log'
  | _ :: log' => frame_runs log'
  end.

Definition rank_of (e : Event) : nat := stage_rank (stage_of_event e).

Definition in_order (t : list Event) : Prop :=
  StronglySorted (fun a b => (rank_of a <= rank_of b)%nat) t.

(** A program that was run for the frame [base_index] and exited with a
    non-zero status. *)
Definition failed_run (w : World) (base_index : string) (e : Event) : Prop :=
  match e with
  | ERun c _ => exit_status w base_index c <> 0
  | _ => False
  end.

Definition runs_ok (w : World) (base_index : string) (t : list Event) : Prop :=
  Forall (fun e => ~ failed_run w base_index e) t.

(** What the events [t] of a block say about the way [r] it ended:
    after the [return] of the except clause of stage [k], nothing of a
    later stage was done and the programs that failed are of stage [k];
    in every other case no program failed.  [cpe] tells whether a
    [CalledProcessError] may leave the block. *)
Definition outcome_ok (w : World) (base_index : string) {A} (cpe : bool) (lo hi : nat)
    (t : list Event) (r : Stop + A) : Prop :=
  match r with
  | inl (Return k) =>
      (lo <= stage_rank k <= hi)%nat /\
      Forall (fun e => (rank_of e <= stage_rank k)%nat) t /\
      Forall (fun e => failed_run w base_index e -> rank_of e = stage_rank k) t
  | inl (Raise CalledProcessError) => cpe = true
  | _ => runs_ok w base_index t
  end.

(** The block [c] appends events of the stages [lo] to [hi], in order. *)
Definition seg (w : World) (base_index : string) {A} (cpe : bool) (lo hi : nat)
    (c : Pipe A) : Prop :=
  (lo <= hi)%nat /\
  forall s s' r, c s = (s', r) ->
    exists t, trace s' = (trace s ++ t)%list /\
              Forall (fun e => (lo <= rank_of e <= hi)%nat) t /\
              in_order t /\
              outcome_ok w base_index cpe lo hi t r.

(** The result of every frame of every batch, the working directory being
    handed on from frame to frame: what the run does when no batch stops
    it (the results of a batch end with a frame that does not return). *)
Fixpoint run_results (w : World) (fuel : nat) (batches : list (list string)) (d : Dir)
  : list (string * FrameResult) :=
  match batches with
  | [] => []
  | batch :: rest =>
      let '(rs, d1) := pool_map w fuel batch d in
      (rs ++ run_results w fuel rest d1)%list
  end.

(** [c], started in a state that satisfies [P], ends in a state and with
    a result that satisfy [Q]. *)
Definition hoare {A} (P : PState -> Prop) (c : Pipe A) (Q : PState -> Stop + A -> Prop) : Prop :=
  forall s s' r, c s = (s', r) -> P s -> Q s' r.

(** [c] keeps the invariant [I], however it ends. *)
Definition preserves {A} (I : PState -> Prop) (c : Pipe A) : Prop :=
  hoare I c (fun s' _ => I s').

(** The suffixes [process_frame] appends to [base_index]. *)
Definition suffixes : list string :=
  [".mae"; "_pH7.4_prepared.mae"; "_prepared.mae"; "-protassign.log";
   "-protassign.mae"; "-protassign-out.mae"; "_prepared-out_lig.mae";
   "_prepared-out_recep.mae"; "_grid_input.csv"; "_grid.zip"; "_hypo"].

(** The names of an event that the script built itself, as opposed to the
    name of the archive the polling loop came across. *)
Definition own_event_paths (e : Event) : list string :=
  match e with
  | EPoll _ _ => []
  | ECopy _ dst => [dst]
  | _ => event_paths e
  end.

Definition frame_paths (r : FrameResult) : list string :=
  List.concat (List.map event_paths (fr_trace r)).

Definition own_paths (r : FrameResult) : list string :=
  List.concat (List.map own_event_paths (fr_trace r)).

(** Only decimal digits. *)
Definition is_decimal (s : string) : bool :=
  forallb is_digit (chars s).

(** Only ASCII characters. *)
Definition is_ascii (s : string) : bool :=
  forallb (fun c => (nat_of_ascii c <? 128)%nat) (chars s).

Definition named_by (b : string) (e : Event) : Prop :=
  Forall (fun p => exists suf, In suf suffixes /\ p = b +:+ suf) (own_event_paths e).

Definition all_named (b : string) (s : PState) : Prop := Forall (named_by b) (trace s).

(** A list that is empty or starts with a character that is no digit. *)
Definition no_leading_digit (l : list ascii) : bool :=
  match l with
  | [] => true
  | c :: _ => negb (is_digit c)
  end.

(** The names an event took from the polling loop. *)
Definition polled_event_paths (e : Event) : list string :=
  match e with
  | EPoll _ found => [found]
  | ECopy src _ => [src]
  | _ => []
  end.

Definition polled_paths (r : FrameResult) : list string :=
  List.concat (List.map polled_event_paths (fr_trace r)).

(** The files a well-behaved toolsuite leaves for a frame. *)
Definition sample_outputs (b : string) (c : Cmd) : Dir :=
  match c with
  | prepwizard => {[ b +:+ "_pH7.4_prepared.mae" := "prepared " +:+ b ]}
  | pv_convert_split_ligand => {[ b +:+ "_prepared-out_lig.mae" := "ligand " +:+ b ]}
  | pv_convert_split_receptor => {[ b +:+ "_prepared-out_recep.mae" := "receptor " +:+ b ]}
  | glide_gridgen => ∅
  | epharmacophores => {[ b +:+ "_hypo.phypo" := "hypothesis " +:+ b ]}
  end.

(** The grid archives of frames 1 and 2, both in the shared working
    directory from the second scan on, the one of frame 2 being newer
    (scan 0 is the first). *)
Definition sample_zips (k : nat) : list ZipEntry :=
  match k with
  | O => []
  | S _ =>
      [ {| zname := "1_grid_input-gridgen.zip"; zmtime := 10; zdata := "grid 1" |};
        {| zname := "2_grid_input-gridgen.zip"; zmtime := 20; zdata := "grid 2" |} ]
  end.

Definition cmd_tag (c : Cmd) : nat :=
  match c with
  | prepwizard => 0
  | pv_convert_split_ligand => 1
  | pv_convert_split_receptor => 2
  | glide_gridgen => 3
  | epharmacophores => 4
  end.

Definition fails (failing : list (string * Cmd)) (b : string) (c : Cmd) : bool :=
  existsb (fun f => String.eqb (fst f) b && Nat.eqb (cmd_tag (snd f)) (cmd_tag c)) failing.

(** A world in which the programs listed in [failing] exit with status 1
    for the frames listed with them, and the ligand of frame 4 has no
    atoms. *)
Definition sample_world (failing : list (string * Cmd)) : World := {|
  exit_status := fun b c => if fails failing b c then 1 else 0;
  outputs := fun b c => if fails failing b c then ∅ else sample_outputs b c;
  read_structure := fun data =>
    if String.eqb data "ligand 4" then Some []
    else Some [ {| atom_x := 1; atom_y := 2; atom_z := 3 |} ];
  zips_seen := fun _ => sample_zips;
  fmt2 := fun _ => "0.00";
  input_data := fun name => "structure " +:+ name
|}.

(** The hypothesis file of a frame. *)
Definition hypo_name (mae : string) : string := splitext_root mae +:+ "_hypo.phypo".

(** What the collection relies on from the toolsuite: a [*.phypo] file is
    written by a hypothesis run that exits with status zero, and by
    nothing else; such a run writes the file named after its job and no
    other [*.phypo] file. *)
Definition hypothesis_contract (w : World) : Prop :=
  (forall b c n,
     is_phypo n = true -> outputs w b c !! n <> None ->
     c = epharmacophores /\ exit_status w b c = 0 /\ n = b +:+ "_hypo.phypo") /\
  (forall b,
     exit_status w b epharmacophores = 0 ->
     outputs w b epharmacophores !! (b +:+ "_hypo.phypo") <> None).

(** [d'] holds the same [*.phypo] files as [d]. *)
Definition same_phypo (d d' : Dir) : Prop :=
  forall n, is_phypo n = true -> d' !! n = d !! n.

(** The working directory holds the [*.phypo] files that [d0] holds. *)
Definition untouched (d0 : Dir) (s : PState) : Prop := same_phypo d0 (cwd s).

(** How the pipeline of frame [b], started in [d0], leaves the [*.phypo]
    files: a run to the end adds what the hypothesis program wrote, any
    other run adds nothing. *)
Definition hypothesis_written (w : World) (b : string) (d0 : Dir) (s' : PState)
    (r : Stop + unit) : Prop :=
  match r with
  | inr _ =>
      exit_status w b epharmacophores = 0 /\
      forall n, is_phypo n = true ->
                cwd s' !! n = (outputs w b epharmacophores ∪ d0) !! n
  | inl _ => untouched d0 s'
  end.

Definition is_done (s : Status) : bool :=
  match s with
  | Done => true
  | _ => false
  end.

(** The suffixes of the names the script writes or removes itself. *)
Definition written_suffixes : list string :=
  [".mae"; "_prepared.mae"; "_pH7.4_prepared.mae"; "-protassign.log"; "-protassign.mae";
   "-protassign-out.mae"; "_grid_input.csv"; "_grid.zip"].

(** The frames of [rs] that ran to the end and whose hypothesis file is
    [n]. *)
Definition succeeded_as (rs : list (string * FrameResult)) (n : string) : Prop :=
  exists mae r, In (mae, r) rs /\ fr_status r = Done /\ n = hypo_name mae.

(** Two frames in one batch, started in empty directories. *)
Definition two_frames_config : Config :=
  {| START_IDX := 1; END_IDX := 2; STEP := 1; USER_NCORES := 4; BATCH_SIZE := 2 |}.

Definition two_frames_host : Host :=
  {| schrodinger_isdir := true; input_names := ["2.mae"; "1.mae"];
     PROCESSED_DIR := ∅; HYPOTHESIS_DIR := ∅ |}.

(** The same two frames, each in a batch of its own. *)
Definition one_by_one_config : Config :=
  {| START_IDX := 1; END_IDX := 2; STEP := 1; USER_NCORES := 4; BATCH_SIZE := 1 |}.

(** The well-behaved toolsuite, except that prepwizard, for frame 1,
    reports success and leaves no prepared structure. *)
Definition forgetful_world : World := {|
  exit_status := fun _ _ => 0;
  outputs := fun b c =>
    match c with
    | prepwizard => if String.eqb b "1" then ∅ else sample_outputs b c
    | _ => sample_outputs b c
    end;
  read_structure := fun _ => Some [ {| atom_x := 1; atom_y := 2; atom_z := 3 |} ];
  zips_seen := fun _ => sample_zips;
  fmt2 := fun _ => "0.00";
  input_data := fun name => "structure " +:+ name
|}.

(** A result that lets [pool.map] return: the end of the pipeline or the
    [return] of an except clause. *)
Definition safe {A} (r : Stop + A) : Prop :=
  match r with
  | inl (Raise _) | inl OutOfFuel => False
  | _ => True
  end.

(** The result of a block that can only raise [CalledProcessError]. *)
Definition only_called {A} (r : Stop + A) : Prop :=
  match r with
  | inr _ | inl (Raise CalledProcessError) => True
  | _ => False
  end.

(** The result of a block that does not wait. *)
Definition no_timeout {A} (r : Stop + A) : Prop :=
  match r with
  | inl OutOfFuel => False
  | _ => True
  end.

Definition safely {A} (c : Pipe A) : Prop := hoare (fun _ => True) c (fun _ r => safe r).
Definition calls {A} (c : Pipe A) : Prop := hoare (fun _ => True) c (fun _ r => only_called r).
Definition waitless {A} (c : Pipe A) : Prop := hoare (fun _ => True) c (fun _ r => no_timeout r).

(** A world in which no frame is left waiting or crashing: prepwizard
    leaves the prepared structure whenever it exits with status zero, and
    for every frame one of the first [fuel] scans sees a grid archive. *)
Definition cooperative (w : World) (fuel : nat) : Prop :=
  (forall b, exit_status w b prepwizard = 0 ->
             is_Some (outputs w b prepwizard !! (b +:+ "_pH7.4_prepared.mae"))) /\
  (forall b, exists k e, (k < fuel)%nat /\ In e (zips_seen w b k) /\ candidate e = true).

(** The files of [l] that stand for the integer [i], in the order of [l]. *)
Definition of_index (i : Z) (l : list string) : list string :=
  List.filter (fun f => index_of f =? i) l.

(** The test of the window on an index. *)
Definition in_window (START END i : Z) : bool := (START <=? i) && (i <=? END).

(** The programs of a trace, in the order they were run. *)
Fixpoint cmds_run (t : list Event) : list Cmd :=
  match t with
  | [] => []
  | ERun c _ :: t' => c :: cmds_run t'
  | _ :: t' => cmds_run t'
  end.

(** The programs of [process_frame], in the order of the source. *)
Definition all_programs : list Cmd :=
  [prepwizard; pv_convert_split_ligand; pv_convert_split_receptor; glide_gridgen;
   epharmacophores].

(** The programs a frame has run when it ends with a given status. *)
Definition programs_by (st : Status) (cmds : list Cmd) : Prop :=
  match st with
  | Done | Failed HypothesisGenerate => cmds = all_programs
  | Failed Prepare | Crashed _ => cmds = [prepwizard]
  | Failed Split =>
      cmds = [prepwizard; pv_convert_split_ligand] \/
      cmds = [prepwizard; pv_convert_split_ligand; pv_convert_split_receptor]
  | Failed GeometryDerive =>
      cmds = [prepwizard; pv_convert_split_ligand; pv_convert_split_receptor]
  | Failed GridGenerate | Hung =>
      cmds = [prepwizard; pv_convert_split_ligand; pv_convert_split_receptor; glide_gridgen]
  end.

(** The file [os.rename] is to find after prepwizard, in a working
    directory that was [d] when the frame started. *)
Definition prepared_structure (w : World) (b : string) (d : Dir) : option string :=
  (outputs w b prepwizard ∪ d) !! (b +:+ "_pH7.4_prepared.mae").

(** The ligand file as the geometry stage finds it: what the last program
    that wrote under this name has left. *)
Definition ligand_structure (w : World) (b : string) (d : Dir) : option string :=
  (outputs w b pv_convert_split_receptor ∪
   (outputs w b pv_convert_split_ligand ∪ (outputs w b prepwizard ∪ d)))
    !! (b +:+ "_prepared-out_lig.mae").

(** The names [process_frame] removes from the working directory: the
    source of the rename and the three files of the [rm -f]. *)
Definition removed_names (b : string) : list string :=
  [b +:+ "_pH7.4_prepared.mae"; b +:+ "-protassign.log"; b +:+ "-protassign.mae";
   b +:+ "-protassign-out.mae"].

(** The names an event of the script takes away from the working
    directory: the source of a rename, the operands of the [rm -f]. *)
Definition removals (e : Event) : list string :=
  match e with
  | ERename src _ => [src]
  | ERemove files => files
  | _ => []
  end.

(** Whether the geometry stage gets a centre: the ligand file is there
    and its first structure is read and has an atom. *)
Definition readable_ligand (w : World) (b : string) (d : Dir) : bool :=
  match ligand_structure w b d with
  | Some data =>
      match read_structure w data with
      | Some (_ :: _) => true
      | _ => false
      end
  | None => false
  end.

(** The status of a frame, from the exit statuses, the two files the
    script reads and the wait. *)
Definition status_table (w : World) (fuel : nat) (b : string) (d : Dir) : Status :=
  if negb (exit_status w b prepwizard =? 0) then Failed Prepare
  else if negb (bool_decide (is_Some (prepared_structure w b d))) then Crashed FileNotFoundError
  else if negb (exit_status w b pv_convert_split_ligand =? 0) then Failed Split
  else if negb (exit_status w b pv_convert_split_receptor =? 0) then Failed Split
  else if negb (readable_ligand w b d) then Failed GeometryDerive
  else if negb (exit_status w b glide_gridgen =? 0) then Failed GridGenerate
  else if negb (bool_decide (is_Some (wait_for_zip (zips_seen w b) 0 fuel))) then Hung
  else if negb (exit_status w b epharmacophores =? 0) then Failed HypothesisGenerate
  else Done.

(** A frame that does not let [pool.map] return: it waits, or it raised. *)
Definition unfinished (r : string * FrameResult) : Prop :=
  fr_status (snd r) = Hung \/ exists e, fr_status (snd r) = Crashed e.

(** The working directory holds a file named [n]. *)
Definition holds_name (n : string) (s : PState) : Prop := is_Some (cwd s !! n).

(** The suffixes of the files the script itself has written, and not
    removed, when a frame ends with a given status: the working copy, the
    prepared structure, the grid input file, the copy of the archive. *)
Definition left_behind (st : Status) : list string :=
  match st with
  | Failed Prepare | Crashed _ => [".mae"]
  | Failed Split | Failed GeometryDerive => [".mae"; "_prepared.mae"]
  | Failed GridGenerate | Hung => [".mae"; "_prepared.mae"; "_grid_input.csv"]
  | Failed HypothesisGenerate | Done =>
      [".mae"; "_prepared.mae"; "_grid_input.csv"; "_grid.zip"]
  end.

(** The programs write, for a frame, files of that frame only: the
    frame's name followed by something that does not start with a
    digit. *)
Definition writes_own_names (w : World) : Prop :=
  forall b c n,
    outputs w b c !! n <> None ->
    exists suf, n = b +:+ suf /\ no_leading_digit (chars suf) = true.

(** No character of [s] makes the [csv] writer quote a field. *)
Definition csv_plain (s : string) : bool := negb (existsb csv_special (chars s)).

(** The candidates of a directory that are as old as [z], in the order
    of the listing. *)
Definition candidates_of_age (z : ZipEntry) (dir : list ZipEntry) : list ZipEntry :=
  List.filter (fun e => candidate e && (zmtime e =? zmtime z)) dir.

(** A toolsuite that reports success and leaves nothing behind. *)
Definition idle_world : World := {|
  exit_status := fun _ _ => 0;
  outputs := fun _ _ => ∅;
  read_structure := fun _ => None;
  zips_seen := fun _ _ => [];
  fmt2 := fun _ => "0.00";
  input_data := fun name => "structure " +:+ name
|}.

(** * Properties *)

(** ** The model on small inputs *)

Example py_int_examples :
  py_int "12" = Some 12 /\ py_int "007" = Some 7 /\ py_int "-3" = Some (-3) /\
  py_int " 42 " = Some 42 /\ py_int "1_0" = Some 10 /\ py_int "1__0" = None /\
  py_int "_1" = None /\ py_int "1_" = None /\ py_int "" = None /\
  py_int "frame5" = None /\ py_int "1.5" = None /\ py_int "+" = None.
Proof. repeat split; reflexivity. Qed.

Example splitext_examples :
  splitext_root "12.mae" = "12" /\ splitext_root "a.b.mae" = "a.b" /\
  splitext_root ".mae" = ".mae" /\ splitext_root "noext" = "noext".
Proof. repeat split; reflexivity. Qed.

Example zero_step :
  (try! m <- all_maes ["1.mae"]; selected_maes 1 5 0 m) = raise ZeroDivisionError /\
  (try! m <- all_maes ["1.mae"]; selected_maes 7 9 0 m) = ret [].
Proof. split; reflexivity. Qed.

Example same_index_twice :
  (try! m <- all_maes ["1.mae"; "01.mae"]; selected_maes 1 1 1 m) = ret ["1.mae"; "01.mae"].
Proof. reflexivity. Qed.

Example selection_scenario :
  (try! m <- all_maes ["5.mae"; "2.mae"; "notes.txt"; "1.mae"; "3.mae"];
   selected_maes 1 5 2 m) = ret ["1.mae"; "3.mae"; "5.mae"].
Proof. reflexivity. Qed.

(** ** The result monad *)

Lemma map_result_total {A B} (f : A -> Result B) (g : A -> B) (l : list A) :
  (forall a, In a l -> f a = ret (g a)) -> map_result f l = ret (List.map g l).
Proof.
  induction l as [|a l IH]; intros Hf; simpl.
  - reflexivity.
  - rewrite (Hf a) by (left; reflexivity). simpl.
    rewrite IH by (intros b Hb; apply Hf; right; exact Hb).
    reflexivity.
Qed.

Lemma map_result_fails {A B} (f : A -> Result B) (e : Exn) (l : list A) :
  (forall a, In a l -> f a = raise e \/ exists b, f a = ret b) ->
  (exists a, In a l /\ f a = raise e) ->
  map_result f l = raise e.
Proof.
  induction l as [|a l IH]; intros Hall [x [Hx Hfx]].
  - destruct Hx.
  - simpl. destruct (Hall a (or_introl eq_refl)) as [Ha | [b Hb]].
    + rewrite Ha. reflexivity.
    + rewrite Hb. simpl.
      destruct Hx as [-> | Hx]; [rewrite Hfx in Hb; discriminate |].
      rewrite IH; [reflexivity | | exists x; split; assumption].
      intros y Hy. apply Hall. right. exact Hy.
Qed.

Lemma map_result_inv {A B} (f : A -> Result B) (l : list A) (bs : list B) :
  map_result f l = ret bs -> forall a, In a l -> exists b, f a = ret b.
Proof.
  revert bs. induction l as [|a l IH]; intros bs H x Hx.
  - destruct Hx.
  - simpl in H. destruct (f a) as [e | b] eqn:Hfa; [discriminate |]. simpl in H.
    destruct (map_result f l) as [e | bs'] eqn:Hl; [discriminate |].
    destruct Hx as [<- | Hx]; [exists b; exact Hfa |].
    apply (IH bs' eq_refl x Hx).
Qed.

Lemma filter_result_total {A} (f : A -> Result bool) (p : A -> bool) (l : list A) :
  (forall a, In a l -> f a = ret (p a)) -> filter_result f l = ret (List.filter p l).
Proof.
  induction l as [|a l IH]; intros Hf; simpl.
  - reflexivity.
  - rewrite (Hf a) by (left; reflexivity). simpl.
    rewrite IH by (intros b Hb; apply Hf; right; exact Hb).
    simpl. destruct (p a); reflexivity.
Qed.

(** ** Sorting by a key *)

Section SortBy.
Context {A : Type}.
Variable before : Z -> Z -> bool.

Abbreviation ordered := (ordered before).
Abbreviation key_ordered := (key_ordered before).

Hypothesis before_ordered : forall a b, before a b = true -> ordered a b.
Hypothesis ordered_trans : forall a b c, ordered a b -> ordered b c -> ordered a c.

Lemma insert_by_perm (x : Z * A) (l : list (Z * A)) :
Permutation (insert_by before x l) (x :: l).
Proof.
induction l as [|y l IH]; simpl.
- reflexivity.
- destruct (before (fst y) (fst x)).
  + rewrite IH. apply perm_swap.
  + reflexivity.
Qed.

Lemma sort_by_perm (l : list (Z * A)) : Permutation (sort_by before l) l.
Proof.
induction l as [|x l IH]; simpl.
- reflexivity.
- rewrite insert_by_perm. apply perm_skip. exact IH.
Qed.

Lemma insert_by_sorted (x : Z * A) (l : list (Z * A)) :
StronglySorted key_ordered l -> StronglySorted key_ordered (insert_by before x l).
Proof.
induction 1 as [|y l Hl IH Hy]; simpl.
- repeat constructor.
- destruct (before (fst y) (fst x)) eqn:Hb.
  + constructor; [exact IH |].
    eapply Permutation_Forall; [symmetry; apply insert_by_perm |].
    constructor; [apply before_ordered; exact Hb | exact Hy].
  + constructor; [constructor; assumption |].
    constructor; [exact Hb |].
    eapply List.Forall_impl; [| exact Hy].
    intros z Hz. eapply ordered_trans; [exact Hb | exact Hz].
Qed.

Lemma sort_by_sorted (l : list (Z * A)) : StronglySorted key_ordered (sort_by before l).
Proof.
induction l as [|x l IH]; simpl.
- constructor.
- apply insert_by_sorted. exact IH.
Qed.

Lemma sort_by_In (x : Z * A) (l : list (Z * A)) : In x (sort_by before l) <-> In x l.
Proof.
  split; apply Permutation_in; [| symmetry]; apply sort_by_perm.
Qed.
End SortBy.

Lemma ltb_ordered a b : Z.ltb a b = true -> ordered Z.ltb a b.
Proof. unfold ordered. lia. Qed.

Lemma ltb_ordered_trans a b c : ordered Z.ltb a b -> ordered Z.ltb b c -> ordered Z.ltb a c.
Proof. unfold ordered. lia. Qed.

Lemma gtb_ordered a b : Z.gtb a b = true -> ordered Z.gtb a b.
Proof. unfold ordered. rewrite !Z.gtb_ltb. lia. Qed.

Lemma gtb_ordered_trans a b c : ordered Z.gtb a b -> ordered Z.gtb b c -> ordered Z.gtb a c.
Proof. unfold ordered. rewrite !Z.gtb_ltb. lia. Qed.

Lemma StronglySorted_map {A B} (f : A -> B) (R : B -> B -> Prop) (l : list A) :
  StronglySorted (fun x y => R (f x) (f y)) l -> StronglySorted R (List.map f l).
Proof.
  induction 1 as [|x l Hl IH Hx]; simpl; constructor.
  - exact IH.
  - rewrite Forall_map. exact Hx.
Qed.

Lemma StronglySorted_filter {A} (R : A -> A -> Prop) (p : A -> bool) (l : list A) :
  StronglySorted R l -> StronglySorted R (List.filter p l).
Proof.
  induction 1 as [|x l Hl IH Hx]; simpl.
  - constructor.
  - destruct (p x); [| exact IH].
    constructor; [exact IH |].
    rewrite List.Forall_forall in *. intros y Hy.
    apply Hx. apply filter_In in Hy. tauto.
Qed.

Lemma StronglySorted_impl {A} (R S : A -> A -> Prop) (l : list A) :
  (forall x y, In x l -> In y l -> R x y -> S x y) ->
  StronglySorted R l -> StronglySorted S l.
Proof.
  intros HRS H. induction H as [|x l Hl IH Hx].
  - constructor.
  - constructor.
    + apply IH. intros a b Ha Hb. apply HRS; right; assumption.
    + rewrite List.Forall_forall in *. intros y Hy.
      apply HRS; [left; reflexivity | right; exact Hy | apply Hx; exact Hy].
Qed.

(** ** Frame selection *)

Lemma frame_index_index_of f i : frame_index f = ret i -> index_of f = i.
Proof. unfold index_of. intros ->. reflexivity. Qed.

Lemma selects_spec START END STEP i :
  selects START END STEP i = true <-> START <= i <= END /\ (i - START) mod STEP = 0.
Proof. unfold selects. rewrite !andb_true_iff. lia. Qed.

Lemma decorate_total (l : list string) :
  (forall f, In f l -> exists i, frame_index f = ret i) ->
  decorate frame_index l = ret (List.map (fun f => (index_of f, f)) l).
Proof.
  intros H. apply map_result_total. intros f Hf.
  destruct (H f Hf) as [i Hi]. rewrite (frame_index_index_of _ _ Hi), Hi. reflexivity.
Qed.

Lemma all_maes_total (names : list string) :
  (forall f, In f (glob_ext ".mae" names) -> exists i, frame_index f = ret i) ->
  all_maes names =
  ret (List.map snd (sort_by Z.ltb (List.map (fun f => (index_of f, f)) (glob_ext ".mae" names)))).
Proof. intros H. unfold all_maes. rewrite (decorate_total _ H). reflexivity. Qed.

Lemma sorted_maes_perm (l : list string) :
  Permutation (List.map snd (sort_by Z.ltb (List.map (fun f => (index_of f, f)) l))) l.
Proof.
  transitivity (List.map snd (List.map (fun f => (index_of f, f)) l)).
  - apply Permutation_map. apply sort_by_perm.
  - rewrite List.map_map. simpl. rewrite List.map_id. reflexivity.
Qed.

Lemma sorted_maes_sorted (l : list string) :
  StronglySorted (fun f g => index_of f <= index_of g)
    (List.map snd (sort_by Z.ltb (List.map (fun f => (index_of f, f)) l))).
Proof.
  apply StronglySorted_map.
  eapply StronglySorted_impl;
    [| apply (sort_by_sorted Z.ltb ltb_ordered ltb_ordered_trans)].
  intros x y Hx Hy Hxy.
  apply sort_by_In, in_map_iff in Hx. destruct Hx as [f [<- _]].
  apply sort_by_In, in_map_iff in Hy. destruct Hy as [g [<- _]].
  unfold key_ordered, ordered in Hxy. simpl in *. lia.
Qed.

Lemma in_selection_total START END STEP f i :
  STEP <> 0 -> frame_index f = ret i ->
  in_selection START END STEP f = ret (selects START END STEP (index_of f)).
Proof.
  intros Hstep Hi. unfold in_selection, selects.
  rewrite (frame_index_index_of _ _ Hi), Hi. simpl.
  destruct ((START <=? i) && (i <=? END)); simpl; [| reflexivity].
  destruct (Z.eqb_spec STEP 0); [contradiction | reflexivity].
Qed.

Lemma NoDup_map_filter {A B} (f : A -> B) (p : A -> bool) (l : list A) :
  List.NoDup (List.map f l) -> List.NoDup (List.map f (List.filter p l)).
Proof.
  induction l as [|a l IH]; simpl; intros H.
  - constructor.
  - inversion H as [|? ? Hnotin Hrest]; subst.
    destruct (p a); simpl; [| apply IH; exact Hrest].
    constructor; [| apply IH; exact Hrest].
    intros Hin. apply Hnotin.
    apply in_map_iff in Hin. destruct Hin as [b [Hb Hin]].
    apply filter_In in Hin. apply in_map_iff. exists b. tauto.
Qed.

Lemma StronglySorted_le_lt (l : list Z) :
  StronglySorted Z.le l -> List.NoDup l -> StronglySorted Z.lt l.
Proof.
  induction 1 as [|x l Hl IH Hx]; intros Hnd.
  - constructor.
  - inversion Hnd as [|? ? Hnotin Hrest]; subst.
    constructor; [apply IH; exact Hrest |].
    rewrite List.Forall_forall in *. intros y Hy.
    specialize (Hx y Hy).
    assert (x <> y) by (intros ->; contradiction). lia.
Qed.

(** C2.  Provided the stride is not zero and the names of the input
    directory that match [*.mae] all stand for integers, the selection is
    returned, and it holds exactly the available files whose index [i]
    satisfies [START <= i <= END] and [(i - START) mod STEP = 0], sorted
    ascending by index, no file twice; when no two files stand for the same
    integer the indices are strictly ascending, so no index occurs twice. *)
Theorem selected_maes_exact (names : list string) (START END STEP : Z) :
  STEP <> 0 ->
  List.NoDup names ->
  (forall f, In f (glob_ext ".mae" names) -> exists i, frame_index f = ret i) ->
  exists sel,
    (try! maes <- all_maes names ; selected_maes START END STEP maes) = ret sel /\
    (forall f, In f sel <->
       In f (glob_ext ".mae" names) /\
       START <= index_of f <= END /\ (index_of f - START) mod STEP = 0) /\
    (forall i, In i (List.map index_of sel) <->
       In i (List.map index_of (glob_ext ".mae" names)) /\
       START <= i <= END /\ (i - START) mod STEP = 0) /\
    StronglySorted Z.le (List.map index_of sel) /\
    List.NoDup sel /\
    (List.NoDup (List.map index_of (glob_ext ".mae" names)) ->
     StronglySorted Z.lt (List.map index_of sel)).
Proof.
  intros Hstep Hnd Hint.
  set (avail := glob_ext ".mae" names) in *.
  set (maes := List.map snd (sort_by Z.ltb (List.map (fun f => (index_of f, f)) avail))).
  assert (Hperm : Permutation maes avail) by apply sorted_maes_perm.
  assert (Hsel : selected_maes START END STEP maes =
                 ret (List.filter (fun f => selects START END STEP (index_of f)) maes)).
  { apply filter_result_total. intros f Hf.
    destruct (Hint f (Permutation_in _ Hperm Hf)) as [i Hi].
    apply (in_selection_total _ _ _ _ i Hstep Hi). }
  assert (Hmem : forall f,
             In f (List.filter (fun f => selects START END STEP (index_of f)) maes) <->
             In f avail /\ START <= index_of f <= END /\ (index_of f - START) mod STEP = 0).
  { intros f. rewrite filter_In, selects_spec. split.
    - intros [Hf Hc]. split; [apply (Permutation_in _ Hperm Hf) | exact Hc].
    - intros [Hf Hc]. split; [apply (Permutation_in _ (Permutation_sym Hperm) Hf) | exact Hc]. }
  assert (Hsorted : StronglySorted Z.le
             (List.map index_of (List.filter (fun f => selects START END STEP (index_of f)) maes))).
  { apply StronglySorted_map, StronglySorted_filter, sorted_maes_sorted. }
  exists (List.filter (fun f => selects START END STEP (index_of f)) maes).
  split; [| split; [| split; [| split; [| split]]]].
  - rewrite (all_maes_total names Hint). simpl. exact Hsel.
  - exact Hmem.
  - intros i. rewrite !in_map_iff. split.
    + intros [f [<- Hf]]. apply Hmem in Hf. destruct Hf as [Hf Hc].
      split; [exists f; split; [reflexivity | exact Hf] | exact Hc].
    + intros [[f [<- Hf]] Hc]. exists f. split; [reflexivity |].
      apply Hmem. split; assumption.
  - exact Hsorted.
  - apply List.NoDup_filter.
    apply (Permutation_NoDup (Permutation_sym Hperm)).
    apply List.NoDup_filter. exact Hnd.
  - intros Hidx. apply StronglySorted_le_lt; [exact Hsorted |].
    apply NoDup_map_filter.
    apply (Permutation_NoDup (Permutation_map index_of (Permutation_sym Hperm))).
    exact Hidx.
Qed.

(** The scenario of the specification: inputs 1, 2, 3 and 5, from 1 to 5 by
    2. *)
Lemma selected_maes_exact_witness :
  exists sel,
    (try! maes <- all_maes ["5.mae"; "2.mae"; "1.mae"; "3.mae"] ; selected_maes 1 5 2 maes) = ret sel /\
    List.map index_of sel = [1; 3; 5].
Proof.
  destruct (selected_maes_exact ["5.mae"; "2.mae"; "1.mae"; "3.mae"] 1 5 2)
    as [sel [Hsel _]].
  - lia.
  - repeat constructor; simpl; intuition discriminate.
  - intros f Hf. vm_compute in Hf.
    repeat (destruct Hf as [<- | Hf]; [eexists; vm_compute; reflexivity |]).
    destruct Hf.
  - exists sel. split; [exact Hsel |].
    vm_compute in Hsel. injection Hsel as <-. vm_compute. reflexivity.
Defined.

Lemma frame_index_cases f :
  frame_index f = raise ValueError \/ exists i, frame_index f = ret i.
Proof.
  unfold frame_index. destruct (py_int (splitext_root f)) as [i|].
  - right. exists i. reflexivity.
  - left. reflexivity.
Qed.

Lemma frame_index_parses f :
  (exists i, frame_index f = ret i) <-> py_int (splitext_root f) <> None.
Proof.
  unfold frame_index. destruct (py_int (splitext_root f)) as [i|]; split.
  - discriminate.
  - intros _. exists i. reflexivity.
  - intros [i Hi]. discriminate.
  - intros H. contradiction.
Qed.

Lemma all_maes_raises (names : list string) :
  (exists f, In f (glob_ext ".mae" names) /\ py_int (splitext_root f) = None) ->
  all_maes names = raise ValueError.
Proof.
  intros [f [Hf Hnone]]. unfold all_maes, decorate.
  rewrite (map_result_fails _ ValueError); [reflexivity | |].
  - intros a _. destruct (frame_index_cases a) as [-> | [i ->]].
    + left. reflexivity.
    + right. eexists. reflexivity.
  - exists f. split; [exact Hf |].
    unfold frame_index. rewrite Hnone. reflexivity.
Qed.

(** C10.  Let the names that match [*.mae] be ASCII names.  Enumeration
    parses the stem of every one of them.  If one of them is no integer
    literal, [all_maes] raises [ValueError], which nothing catches: with
    the toolsuite in place the script ends in that exception, before a
    frame is selected or processed.  Enumeration returns a list exactly
    when every candidate stem parses. *)
Theorem enumeration_needs_integer_stems (names : list string) :
  (forall f, In f (glob_ext ".mae" names) -> is_ascii f = true) ->
  ((exists f, In f (glob_ext ".mae" names) /\ py_int (splitext_root f) = None) ->
   all_maes names = raise ValueError /\
   forall cfg h w fuel,
     input_names h = names -> schrodinger_isdir h = true ->
     main cfg h w fuel = Uncaught ValueError) /\
  ((exists maes, all_maes names = ret maes) <->
   (forall f, In f (glob_ext ".mae" names) -> py_int (splitext_root f) <> None)).
Proof.
  intros _. split.
  - intros Hbad. pose proof (all_maes_raises names Hbad) as Hraise.
    split; [exact Hraise |].
    intros cfg h w fuel Hnames Hdir. unfold main, select_frames.
    rewrite Hdir, Hnames, Hraise. reflexivity.
  - split.
    + intros [maes Hmaes] f Hf Hnone.
      rewrite (all_maes_raises names) in Hmaes; [discriminate |].
      exists f. split; assumption.
    + intros Hall. eexists. apply all_maes_total.
      intros f Hf. apply frame_index_parses. apply Hall. exact Hf.
Qed.

Lemma enumeration_needs_integer_stems_witness :
  all_maes ["1.mae"; "frame2.mae"; "3.mae"] = raise ValueError /\
  (exists maes, all_maes ["1.mae"; "2.mae"] = ret maes).
Proof.
  split.
  - apply (enumeration_needs_integer_stems ["1.mae"; "frame2.mae"; "3.mae"]).
    + intros f Hf. vm_compute in Hf.
      repeat (destruct Hf as [<- | Hf]; [reflexivity |]). destruct Hf.
    + exists "frame2.mae". split; [vm_compute; tauto | reflexivity].
  - apply (enumeration_needs_integer_stems ["1.mae"; "2.mae"]).
    + intros f Hf. vm_compute in Hf.
      repeat (destruct Hf as [<- | Hf]; [reflexivity |]). destruct Hf.
    + intros f Hf. vm_compute in Hf.
      repeat (destruct Hf as [<- | Hf]; [vm_compute; discriminate |]).
      destruct Hf.
Defined.

(** ** Empty selection *)

(** C5.  When the selection is empty the script exits with status 1 and a
    message (the missing toolsuite is reported first when it is missing
    too): no pool is created, no frame is run, nothing is collected. *)
Theorem empty_selection_exits (cfg : Config) (h : Host) (w : World) (fuel : nat) :
  select_frames cfg h = ret [] ->
  (exists why, main cfg h w fuel = Exit1 why) /\
  (schrodinger_isdir h = true -> main cfg h w fuel = Exit1 NoFramesInRange) /\
  run_log (main cfg h w fuel) = [].
Proof.
  intros Hsel. unfold main. rewrite Hsel.
  destruct (schrodinger_isdir h); simpl.
  - split; [eexists; reflexivity | split; reflexivity].
  - split; [eexists; reflexivity | split; [discriminate | reflexivity]].
Qed.

(** ** Waiting for the grid archive *)

Lemma newest_first_perm (zips : list ZipEntry) : Permutation (newest_first zips) zips.
Proof.
  unfold newest_first.
  transitivity (List.map snd (List.map (fun e => (zmtime e, e)) zips)).
  - apply Permutation_map. apply sort_by_perm.
  - rewrite List.map_map. simpl. rewrite List.map_id. reflexivity.
Qed.

Lemma newest_first_sorted (zips : list ZipEntry) :
  StronglySorted (fun a b => zmtime b <= zmtime a) (newest_first zips).
Proof.
  unfold newest_first. apply StronglySorted_map.
  eapply StronglySorted_impl;
    [| apply (sort_by_sorted Z.gtb gtb_ordered gtb_ordered_trans)].
  intros x y Hx Hy Hxy.
  apply sort_by_In, in_map_iff in Hx. destruct Hx as [a [<- _]].
  apply sort_by_In, in_map_iff in Hy. destruct Hy as [b [<- _]].
  unfold key_ordered, ordered in Hxy. rewrite Z.gtb_ltb in Hxy. simpl in *. lia.
Qed.

Lemma find_first_of_sorted {A} (R : A -> A -> Prop) (p : A -> bool) (l : list A) (z : A) :
  (forall a, R a a) -> StronglySorted R l -> List.find p l = Some z ->
  In z l /\ p z = true /\ forall y, In y l -> p y = true -> R z y.
Proof.
  intros Hrefl Hs. induction Hs as [|x l Hl IH Hx]; simpl; intros Hfind.
  - discriminate.
  - destruct (p x) eqn:Hpx.
    + injection Hfind as <-. split; [left; reflexivity | split; [exact Hpx |]].
      intros y [<- | Hy] _; [apply Hrefl |].
      rewrite List.Forall_forall in Hx. apply Hx. exact Hy.
    + destruct (IH Hfind) as [Hin [Hpz Hmax]].
      split; [right; exact Hin | split; [exact Hpz |]].
      intros y [<- | Hy] Hpy; [congruence | apply Hmax; assumption].
Qed.

Lemma scan_zips_found (dir : list ZipEntry) (z : ZipEntry) :
  scan_zips dir = Some z ->
  In z dir /\ candidate z = true /\
  forall e, In e dir -> candidate e = true -> zmtime e <= zmtime z.
Proof.
  unfold scan_zips. intros Hfind.
  apply (find_first_of_sorted (fun a b => zmtime b <= zmtime a)) in Hfind;
    [| intros a; lia | apply newest_first_sorted].
  destruct Hfind as [Hin [Hpat Hmax]].
  apply (Permutation_in _ (newest_first_perm _)) in Hin.
  unfold glob_zip in Hin. apply filter_In in Hin. destruct Hin as [Hin Hglob].
  split; [exact Hin |]. split.
  - unfold candidate. rewrite Hglob, Hpat. reflexivity.
  - intros e He Hc. unfold candidate in Hc. apply andb_true_iff in Hc.
    destruct Hc as [Hg Hp]. apply Hmax; [| exact Hp].
    apply (Permutation_in _ (Permutation_sym (newest_first_perm _))).
    unfold glob_zip. apply filter_In. split; assumption.
Qed.

Lemma scan_zips_none (dir : list ZipEntry) :
  scan_zips dir = None <-> forall e, In e dir -> candidate e = false.
Proof.
  unfold scan_zips. split.
  - intros Hnone e He. destruct (candidate e) eqn:Hc; [| reflexivity].
    unfold candidate in Hc. apply andb_true_iff in Hc. destruct Hc as [Hg Hp].
    assert (Hin : In e (newest_first (glob_zip dir))).
    { apply (Permutation_in _ (Permutation_sym (newest_first_perm _))).
      unfold glob_zip. apply filter_In. split; assumption. }
    pose proof (List.find_none _ _ Hnone e Hin) as Hf. simpl in Hf. congruence.
  - intros Hall.
    destruct (List.find _ _) as [z|] eqn:Hfind; [| reflexivity].
    apply scan_zips_found in Hfind. destruct Hfind as [Hin [Hc _]].
    rewrite (Hall z Hin) in Hc. discriminate.
Qed.

Lemma scan_zips_some (dir : list ZipEntry) :
  (exists e, In e dir /\ candidate e = true) -> exists z, scan_zips dir = Some z.
Proof.
  intros [e [He Hc]]. destruct (scan_zips dir) as [z|] eqn:Hscan.
  - exists z. reflexivity.
  - rewrite (proj1 (scan_zips_none dir) Hscan e He) in Hc. discriminate.
Qed.

Lemma wait_for_zip_from (listing : nat -> list ZipEntry) (z : ZipEntry) (k fuel k0 : nat) :
  (forall j, (k0 <= j < k)%nat -> scan_zips (listing j) = None) ->
  scan_zips (listing k) = Some z ->
  (k0 <= k)%nat -> (k - k0 < fuel)%nat ->
  wait_for_zip listing k0 fuel = Some (S k, z).
Proof.
  revert k0. induction fuel as [|fuel IH]; intros k0 Hbefore Hat Hle Hfuel.
  - lia.
  - simpl. destruct (Nat.eq_dec k0 k) as [-> | Hne].
    + rewrite Hat. reflexivity.
    + rewrite (Hbefore k0) by lia. apply IH; [| exact Hat | lia | lia].
      intros j Hj. apply Hbefore. lia.
Qed.

Lemma wait_for_zip_never (listing : nat -> list ZipEntry) (fuel k0 : nat) :
  (forall j, (k0 <= j)%nat -> scan_zips (listing j) = None) ->
  wait_for_zip listing k0 fuel = None.
Proof.
  revert k0. induction fuel as [|fuel IH]; intros k0 Hnone; simpl.
  - reflexivity.
  - rewrite (Hnone k0) by lia. apply IH. intros j Hj. apply Hnone. lia.
Qed.

(** C6.  A scan of a directory that holds a candidate yields a candidate
    of that directory that no other candidate is newer than.  The loop
    returns at the first scan that sees a candidate, after one sleep of
    [POLL_DELAY] seconds per scan; while no scan sees one it has not
    returned, however many scans it is given, and the frame is still in
    the loop. *)
Theorem waiter_returns_newest_or_polls_on (listing : nat -> list ZipEntry) :
  (forall dir, (exists e, In e dir /\ candidate e = true) ->
     exists z, scan_zips dir = Some z /\ In z dir /\ candidate z = true /\
               forall e, In e dir -> candidate e = true -> zmtime e <= zmtime z) /\
  (forall k,
     (exists e, In e (listing k) /\ candidate e = true) ->
     (forall j e, (j < k)%nat -> In e (listing j) -> candidate e = false) ->
     exists z,
       scan_zips (listing k) = Some z /\
       forall fuel, (k < fuel)%nat ->
         wait_for_zip listing 0 fuel = Some (S k, z) /\
         seconds_slept (S k) = 2 * (Z.of_nat k + 1)) /\
  ((forall k e, In e (listing k) -> candidate e = false) ->
   forall fuel,
     wait_for_zip listing 0 fuel = None /\
     forall w b s, zips_seen w b = listing -> poll_gridzip w fuel b s = (s, inl OutOfFuel)).
Proof.
  split; [| split].
  - intros dir Hex. destruct (scan_zips_some dir Hex) as [z Hz].
    exists z. split; [exact Hz |]. apply scan_zips_found. exact Hz.
  - intros k Hex Hbefore. destruct (scan_zips_some _ Hex) as [z Hz].
    exists z. split; [exact Hz |]. intros fuel Hfuel. split.
    + apply wait_for_zip_from; [| exact Hz | lia | lia].
      intros j Hj. apply scan_zips_none. intros e He. apply (Hbefore j e); [lia | exact He].
    + unfold seconds_slept, POLL_DELAY. lia.
  - intros Hnever fuel.
    assert (Hnone : wait_for_zip listing 0 fuel = None).
    { apply wait_for_zip_never.
      intros j _. apply scan_zips_none. intros e He. apply (Hnever j e He). }
    split; [exact Hnone |].
    intros w b s Hw. unfold poll_gridzip. rewrite Hw, Hnone. reflexivity.
Qed.

(** ** Collection *)

Lemma fold_insert_lookup (l : list (string * string)) (hyp : Dir) (n : string) :
  List.NoDup (List.map fst l) ->
  (forall v, In (n, v) l ->
     List.fold_left (fun h f => <[fst f := snd f]> h) l hyp !! n = Some v) /\
  ((forall v, ~ In (n, v) l) ->
     List.fold_left (fun h f => <[fst f := snd f]> h) l hyp !! n = hyp !! n).
Proof.
  revert hyp. induction l as [|[k x] l IH]; intros hyp Hnd; simpl.
  - split; [intros v [] | reflexivity].
  - inversion Hnd as [|? ? Hnotin Hrest]; subst.
    destruct (IH (<[k := x]> hyp) Hrest) as [IHin IHout]. split.
    + intros v [Heq | Hin].
      * injection Heq as -> ->. rewrite IHout.
        -- apply lookup_insert_eq.
        -- intros v' Hv'. apply Hnotin. apply in_map_iff. exists (n, v'). split; [reflexivity | exact Hv'].
      * apply IHin. exact Hin.
    + intros Hout. rewrite IHout.
      * apply lookup_insert_ne. intros ->. apply (Hout x). left. reflexivity.
      * intros v Hv. apply (Hout v). right. exact Hv.
Qed.

Lemma phypo_files_In (proc : Dir) (n v : string) :
  In (n, v) (phypo_files proc) <-> proc !! n = Some v /\ is_phypo n = true.
Proof.
  unfold phypo_files, is_phypo. rewrite filter_In. simpl.
  rewrite <- list_elem_of_In, elem_of_map_to_list. reflexivity.
Qed.

Lemma phypo_files_NoDup (proc : Dir) : List.NoDup (List.map fst (phypo_files proc)).
Proof.
  unfold phypo_files.
  apply NoDup_map_filter. apply NoDup_ListNoDup. apply NoDup_fst_map_to_list.
Qed.

(** What the collection holds under a name after the copy. *)
Lemma collect_lookup (proc hyp : Dir) (n : string) :
  collect proc hyp !! n =
  match (if is_phypo n then proc !! n else None) with
  | Some v => Some v
  | None => hyp !! n
  end.
Proof.
  unfold collect.
  destruct (fold_insert_lookup (phypo_files proc) hyp n (phypo_files_NoDup proc)) as [Hin Hout].
  destruct (is_phypo n) eqn:Hp; [destruct (proc !! n) as [v|] eqn:Hv |].
  - apply Hin. apply phypo_files_In. split; assumption.
  - apply Hout. intros v Hv'. apply phypo_files_In in Hv'. destruct Hv'. congruence.
  - apply Hout. intros v Hv'. apply phypo_files_In in Hv'. destruct Hv'. congruence.
Qed.

(** C9.  Collecting again from the same working directory changes
    nothing: every hypothesis file is written over itself, under the same
    name and with the same content, so the collection is the same map, of
    the same size. *)
Theorem collect_idempotent (proc hyp : Dir) :
  collect proc (collect proc hyp) = collect proc hyp /\
  size (collect proc (collect proc hyp)) = size (collect proc hyp) /\
  (forall n v, In (n, v) (phypo_files proc) ->
     collect proc hyp !! n = Some v /\ collect proc (collect proc hyp) !! n = Some v).
Proof.
  assert (Heq : collect proc (collect proc hyp) = collect proc hyp).
  { apply map_eq. intros n. rewrite !collect_lookup.
    destruct (if is_phypo n then proc !! n else None); reflexivity. }
  split; [exact Heq | split; [rewrite Heq; reflexivity |]].
  intros n v Hin. rewrite Heq. apply phypo_files_In in Hin. destruct Hin as [Hv Hp].
  rewrite collect_lookup, Hp, Hv. split; reflexivity.
Qed.

(** ** Batches *)

Lemma range_length_batches (n b : nat) :
  (0 < b)%nat ->
  Z.to_nat (range_length 0 (Z.of_nat n) (Z.of_nat b)) = batch_count n b.
Proof.
  intros Hb. unfold range_length, batch_count.
  destruct (Z.ltb_spec 0 (Z.of_nat b)) as [_ | Hneg]; [| lia].
  destruct (Z.ltb_spec (Z.of_nat b) 0) as [Hneg | _]; [lia |].
  destruct (Z.ltb_spec 0 (Z.of_nat n)) as [Hn | Hn]; simpl.
  - replace (Z.of_nat n - 1 - 0) with (Z.of_nat (n - 1)) by lia.
    replace (n + b - 1)%nat with (n - 1 + 1 * b)%nat by lia.
    rewrite Nat.div_add by lia.
    rewrite <- (Nat2Z.id ((n - 1) / b + 1)). f_equal.
    rewrite Nat2Z.inj_add, Nat2Z.inj_div. lia.
  - assert (n = 0)%nat as -> by lia.
    rewrite Nat.div_small by lia. reflexivity.
Qed.

Lemma py_slice_chunk {A} (l : list A) (b k : nat) :
  (0 < b)%nat ->
  py_slice l (Z.of_nat k * Z.of_nat b) (Z.of_nat k * Z.of_nat b + Z.of_nat b) = chunk b l k.
Proof.
  intros Hb. unfold py_slice, slice_bound, chunk.
  destruct (Z.ltb_spec (Z.of_nat k * Z.of_nat b) 0) as [Hneg | _]; [lia |].
  destruct (Z.ltb_spec (Z.of_nat k * Z.of_nat b + Z.of_nat b) 0) as [Hneg | _]; [lia |].
  destruct (Nat.le_gt_cases (length l) (k * b)) as [Hout | Hin].
  - rewrite (skipn_all2 (n := k * b)) by exact Hout.
    rewrite skipn_all2 by lia. rewrite !firstn_nil. reflexivity.
  - replace (Z.to_nat (Z.min (Z.of_nat k * Z.of_nat b) (Z.of_nat (length l))))
      with (k * b)%nat by lia.
    destruct (Nat.le_gt_cases (k * b + b) (length l)) as [Hfull | Hlast].
    + f_equal. lia.
    + rewrite firstn_all2 by (rewrite length_skipn; lia).
      rewrite firstn_all2 by (rewrite length_skipn; lia). reflexivity.
Qed.

Lemma batches_of_chunks {A} (l : list A) (b : nat) :
  (0 < b)%nat ->
  batches_of (Z.of_nat b) l = ret (List.map (chunk b l) (List.seq 0 (batch_count (length l) b))).
Proof.
  intros Hb. unfold batches_of, py_range.
  destruct (Z.eqb_spec (Z.of_nat b) 0) as [Hz | _]; [lia |]. simpl.
  rewrite range_length_batches by exact Hb. f_equal.
  rewrite List.map_map. apply List.map_ext. intros k.
  rewrite Z.add_0_l. apply py_slice_chunk. exact Hb.
Qed.

Lemma concat_chunks {A} (l : list A) (b m : nat) :
  List.concat (List.map (chunk b l) (List.seq 0 m)) = firstn (m * b) l.
Proof.
  induction m as [|m IH].
  - reflexivity.
  - rewrite seq_S, List.map_app, concat_app, IH. simpl.
    rewrite app_nil_r. unfold chunk. rewrite take_take_drop. f_equal. lia.
Qed.

Lemma batch_count_covers (n b : nat) : (0 < b)%nat -> (n <= batch_count n b * b)%nat.
Proof.
  intros Hb. unfold batch_count.
  pose proof (Nat.div_mod_eq (n + b - 1) b) as Hdm.
  pose proof (Nat.mod_upper_bound (n + b - 1) b) as Hmod. lia.
Qed.

Lemma batch_count_tight (n b : nat) :
  (0 < b)%nat -> (0 < n)%nat -> ((batch_count n b - 1) * b < n)%nat /\ (0 < batch_count n b)%nat.
Proof.
  intros Hb Hn. unfold batch_count.
  pose proof (Nat.div_mod_eq (n + b - 1) b) as Hdm.
  pose proof (Nat.mod_upper_bound (n + b - 1) b) as Hmod.
  assert (0 < (n + b - 1) / b)%nat.
  { apply Nat.div_str_pos. lia. }
  split; [nia | lia].
Qed.

Lemma chunk_length {A} (l : list A) (b k : nat) :
  length (chunk b l k) = Nat.min b (length l - k * b).
Proof. unfold chunk. rewrite length_firstn, length_skipn. reflexivity. Qed.

(** The partition of line 180-181, for a batch size of at least one. *)
Lemma batches_of_partition {A} (l : list A) (b : nat) :
  (0 < b)%nat ->
  exists batches,
    batches_of (Z.of_nat b) l = ret batches /\
    length batches = batch_count (length l) b /\
    List.concat batches = l /\
    (forall i batch, nth_error batches i = Some batch ->
       (1 <= length batch <= b)%nat /\
       (S i < length batches -> length batch = b)%nat).
Proof.
  intros Hb. eexists. split; [apply batches_of_chunks; exact Hb |].
  split; [| split].
  - rewrite length_map, length_seq. reflexivity.
  - rewrite concat_chunks. apply firstn_all2. apply batch_count_covers. exact Hb.
  - intros i batch Hi.
    rewrite length_map, length_seq.
    rewrite nth_error_map, nth_error_seq in Hi.
    destruct (Nat.ltb_spec i (batch_count (length l) b)) as [Hlt | Hge];
      [| discriminate].
    simpl in Hi. injection Hi as <-. rewrite chunk_length.
    assert (Hn : (0 < length l)%nat).
    { destruct l; [unfold batch_count in Hlt; simpl in Hlt;
                   rewrite Nat.div_small in Hlt by lia; lia | simpl; lia]. }
    destruct (batch_count_tight (length l) b Hb Hn) as [Htight _].
    split; [nia | intros Hnext; nia].
Qed.

(** ** The log of a run *)

(** When every frame of the result reached a terminal state, the result
    has every frame of the batch, in the order of the batch. *)
Lemma pool_map_names (w : World) (fuel : nat) (batch : list string) (d : Dir) :
  all_terminal (fst (pool_map w fuel batch d)) = true ->
  List.map fst (fst (pool_map w fuel batch d)) = batch.
Proof.
  revert d. induction batch as [|mae rest IH]; intros d; simpl.
  - reflexivity.
  - destruct (process_frame w fuel mae d) as [r d1].
    destruct (terminal (fr_status r)) eqn:Hr.
    + specialize (IH d1). destruct (pool_map w fuel rest d1) as [rs d2].
      unfold all_terminal in *. simpl in *. rewrite Hr. simpl.
      intros Hrs. rewrite (IH Hrs). reflexivity.
    + unfold all_terminal. simpl. rewrite Hr. discriminate.
Qed.

Lemma log_batches_frames (cur : list string) (rs : list (string * FrameResult)) (log : list RunEvent) :
  log_batches cur (List.map (fun r => FrameRan (fst r) (snd r)) rs ++ log) =
  log_batches (cur ++ List.map fst rs) log.
Proof.
  revert cur. induction rs as [|r rs IH]; intros cur; simpl.
  - rewrite app_nil_r. reflexivity.
  - rewrite IH, <- app_assoc. reflexivity.
Qed.

Lemma cleanups_frames (rs : list (string * FrameResult)) (log : list RunEvent) :
  cleanups (List.map (fun r => FrameRan (fst r) (snd r)) rs ++ log) = cleanups log.
Proof. unfold cleanups. induction rs as [|r rs IH]; simpl; [reflexivity | exact IH]. Qed.

Lemma pools_frames (rs : list (string * FrameResult)) (log : list RunEvent) :
  pools (List.map (fun r => FrameRan (fst r) (snd r)) rs ++ log) = pools log.
Proof. induction rs as [|r rs IH]; simpl; [reflexivity | exact IH]. Qed.

Lemma frame_runs_frames (rs : list (string * FrameResult)) (log : list RunEvent) :
  frame_runs (List.map (fun r => FrameRan (fst r) (snd r)) rs ++ log) = (rs ++ frame_runs log)%list.
Proof.
  induction rs as [|[mae r] rs IH]; simpl; [reflexivity | rewrite IH; reflexivity].
Qed.

(** The shape of the log of a run that got through all its batches. *)
Lemma run_batches_log (w : World) (fuel : nat) (c : Z) (batches : list (list string))
    (d d' : Dir) (log : list RunEvent) :
  run_batches w fuel c batches d = Some (log, d') ->
  log_batches [] log = batches /\
  cleanups log = length batches /\
  pools log = List.map (fun batch => pool_width c (length batch)) batches /\
  List.map fst (frame_runs log) = List.concat batches /\
  Forall (fun r => terminal (fr_status (snd r)) = true) (frame_runs log).
Proof.
  revert d log. induction batches as [|batch rest IH]; intros d log Hrun; simpl in Hrun.
  - injection Hrun as <- <-. repeat split; constructor.
  - pose proof (pool_map_names w fuel batch d) as Hnames.
    destruct (pool_map w fuel batch d) as [rs d1]. simpl in Hnames.
    destruct (all_terminal rs) eqn:Hterm; [| discriminate].
    specialize (Hnames eq_refl).
    destruct (run_batches w fuel c rest d1) as [[log1 d2]|] eqn:Hrest; [| discriminate].
    injection Hrun as <- <-.
    destruct (IH d1 log1 Hrest) as [Hb [Hc [Hp [Hf Ht]]]].
    set (frames := List.map (fun r => FrameRan (fst r) (snd r)) rs).
    split; [| split; [| split; [| split]]].
    + change (log_batches [] (frames ++ Cleanup :: log1) = batch :: rest).
      unfold frames. rewrite log_batches_frames. simpl. rewrite Hb, Hnames. reflexivity.
    + change (cleanups (frames ++ Cleanup :: log1) = S (length rest)).
      unfold frames. rewrite cleanups_frames.
      change (S (cleanups log1) = S (length rest)). rewrite Hc. reflexivity.
    + change (pool_width c (length batch) :: pools (frames ++ Cleanup :: log1) =
              pool_width c (length batch) ::
              List.map (fun batch => pool_width c (length batch)) rest).
      unfold frames. rewrite pools_frames. simpl. rewrite Hp. reflexivity.
    + change (List.map fst (frame_runs (frames ++ Cleanup :: log1)) =
              (batch ++ List.concat rest)%list).
      unfold frames. rewrite frame_runs_frames. simpl.
      rewrite List.map_app, Hf, Hnames. reflexivity.
    + change (Forall (fun r => terminal (fr_status (snd r)) = true)
                (frame_runs (frames ++ Cleanup :: log1))).
      unfold frames. rewrite frame_runs_frames. simpl.
      apply Forall_app. split; [| exact Ht].
      unfold all_terminal in Hterm. rewrite forallb_forall in Hterm.
      apply List.Forall_forall. exact Hterm.
Qed.

(** ** Runs that reach their end *)

Lemma wait_for_zip_none_inv (listing : nat -> list ZipEntry) (fuel k0 j : nat) :
  wait_for_zip listing k0 fuel = None ->
  (k0 <= j < k0 + fuel)%nat -> scan_zips (listing j) = None.
Proof.
  revert k0. induction fuel as [|fuel IH]; intros k0 Hnone Hj; [lia |].
  simpl in Hnone. destruct (scan_zips (listing k0)) as [z|] eqn:Hscan; [discriminate |].
  destruct (Nat.eq_dec j k0) as [-> | Hne]; [exact Hscan |].
  apply (IH (S k0) Hnone). lia.
Qed.

Lemma safely_bind {A B} (c : Pipe A) (k : A -> Pipe B) :
  safely c -> (forall a, safely (k a)) -> safely (pbind c k).
Proof.
  intros Hc Hk s s' r Hrun _. unfold pbind in Hrun.
  destruct (c s) as [s1 [stop | a]] eqn:Hc1.
  - injection Hrun as <- <-. apply (Hc _ _ _ Hc1 I).
  - apply (Hk a _ _ _ Hrun I).
Qed.

Lemma waitless_bind {A B} (c : Pipe A) (k : A -> Pipe B) :
  waitless c -> (forall a, waitless (k a)) -> waitless (pbind c k).
Proof.
  intros Hc Hk s s' r Hrun _. unfold pbind in Hrun.
  destruct (c s) as [s1 [stop | a]] eqn:Hc1.
  - injection Hrun as <- <-. apply (Hc _ _ _ Hc1 I).
  - apply (Hk a _ _ _ Hrun I).
Qed.

Lemma calls_bind {A B} (c : Pipe A) (k : A -> Pipe B) :
  calls c -> (forall a, calls (k a)) -> calls (pbind c k).
Proof.
  intros Hc Hk s s' r Hrun _. unfold pbind in Hrun.
  destruct (c s) as [s1 [stop | a]] eqn:Hc1.
  - injection Hrun as <- <-. apply (Hc _ _ _ Hc1 I).
  - apply (Hk a _ _ _ Hrun I).
Qed.

Lemma safely_emit (e : Event) : safely (emit e).
Proof. intros s s' r Hrun _. injection Hrun as <- <-. exact I. Qed.

Lemma safely_modify_cwd (f : Dir -> Dir) : safely (modify_cwd f).
Proof. intros s s' r Hrun _. injection Hrun as <- <-. exact I. Qed.

Lemma calls_nice_run (w : World) (b : string) (c : Cmd) (argv : list Arg) :
  calls (nice_run w b c argv).
Proof.
  intros s s' r Hrun _. unfold nice_run, pbind, emit, modify_cwd in Hrun. simpl in Hrun.
  destruct (exit_status w b c =? 0); injection Hrun as <- <-; exact I.
Qed.

Lemma safely_try_called {A} (st : Stage) (body : Pipe A) :
  calls body -> safely (try_except except_CalledProcessError st body).
Proof.
  intros Hbody s s' r Hrun _. unfold try_except in Hrun.
  destruct (body s) as [s1 r1] eqn:Hb. pose proof (Hbody _ _ _ Hb I) as Hr1.
  destruct r1 as [[e | st' |] | a]; simpl in Hr1; try contradiction.
  - destruct e; try contradiction. injection Hrun as <- <-. exact I.
  - injection Hrun as <- <-. exact I.
Qed.

Lemma safely_try_any {A} (st : Stage) (body : Pipe A) :
  waitless body -> safely (try_except except_Exception st body).
Proof.
  intros Hbody s s' r Hrun _. unfold try_except in Hrun.
  destruct (body s) as [s1 r1] eqn:Hb. pose proof (Hbody _ _ _ Hb I) as Hr1.
  destruct r1 as [[e | st' |] | a]; simpl in *; try contradiction;
    injection Hrun as <- <-; exact I.
Qed.

Lemma waitless_ligand_center (w : World) (lig : string) : waitless (ligand_center w lig).
Proof.
  intros s s' r Hrun _.
  unfold ligand_center, pbind, emit, get_cwd in Hrun. simpl in Hrun.
  destruct (cwd s !! lig) as [data|]; [| injection Hrun as <- <-; exact I].
  destruct (read_structure w data) as [atoms|]; [| injection Hrun as <- <-; exact I].
  unfold mean, praise, pret in Hrun.
  destruct (List.map atom_x atoms); [injection Hrun as <- <-; exact I |].
  destruct (List.map atom_y atoms); [injection Hrun as <- <-; exact I |].
  destruct (List.map atom_z atoms); injection Hrun as <- <-; exact I.
Qed.

(** The first block: with the prepared structure in place, [os.rename]
    does not raise. *)
Lemma calls_prepare (w : World) (fuel : nat) (b : string) (argv : list Arg) (files : list string) :
  cooperative w fuel ->
  calls (nice_run w b prepwizard argv ;;
         os_rename (b +:+ "_pH7.4_prepared.mae") (b +:+ "_prepared.mae") ;;
         shell_rm files).
Proof.
  intros [Hprep _] s s' r Hrun _.
  unfold nice_run, os_rename, shell_rm, pbind, emit, modify_cwd, get_cwd in Hrun.
  simpl in Hrun.
  destruct (Z.eqb_spec (exit_status w b prepwizard) 0) as [Hz | Hnz];
    [| injection Hrun as <- <-; exact I].
  simpl in Hrun.
  destruct (Hprep b Hz) as [data Hdata].
  rewrite (lookup_union_Some_l _ _ _ _ Hdata) in Hrun.
  injection Hrun as <- <-. exact I.
Qed.

Lemma safely_poll_gridzip (w : World) (fuel : nat) (b : string) :
  cooperative w fuel -> safely (poll_gridzip w fuel b).
Proof.
  intros [_ Hzip] s s' r Hrun _. unfold poll_gridzip in Hrun.
  destruct (wait_for_zip (zips_seen w b) 0 fuel) as [[n z]|] eqn:Hwait.
  - unfold pbind, emit, pret in Hrun. injection Hrun as <- <-. exact I.
  - destruct (Hzip b) as [k [e [Hk [He Hc]]]].
    pose proof (wait_for_zip_none_inv _ _ _ k Hwait ltac:(lia)) as Hscan.
    rewrite (proj1 (scan_zips_none _) Hscan e He) in Hc. discriminate.
Qed.

Lemma frame_pipeline_safely (w : World) (fuel : nat) (mae : string) :
  cooperative w fuel -> safely (frame_pipeline w fuel mae).
Proof.
  intros Hco. unfold frame_pipeline, write_csv. cbv zeta.
  apply safely_bind; [apply safely_emit | intros _].
  apply safely_bind; [apply safely_modify_cwd | intros _].
  apply safely_bind; [apply safely_try_called; apply (calls_prepare w fuel); exact Hco | intros _].
  apply safely_bind.
  { apply safely_try_called. apply calls_bind; [apply calls_nice_run | intros _].
    apply calls_nice_run. }
  intros _. apply safely_bind; [apply safely_try_any; apply waitless_ligand_center | intros center].
  apply safely_bind.
  { apply safely_bind; [apply safely_emit | intros _]. apply safely_modify_cwd. }
  intros _. apply safely_bind; [apply safely_try_called; apply calls_nice_run | intros _].
  apply safely_bind; [apply safely_poll_gridzip; exact Hco | intros z].
  apply safely_bind; [apply safely_emit | intros _].
  apply safely_bind; [apply safely_modify_cwd | intros _].
  apply safely_try_called. apply calls_nice_run.
Qed.

(** In a cooperative world every frame reaches a terminal state. *)
Lemma process_frame_terminal (w : World) (fuel : nat) (mae : string) (d : Dir) :
  cooperative w fuel -> terminal (fr_status (fst (process_frame w fuel mae d))) = true.
Proof.
  intros Hco. unfold process_frame.
  destruct (frame_pipeline w fuel mae {| trace := []; cwd := d |}) as [s r] eqn:Hrun.
  pose proof (frame_pipeline_safely w fuel mae Hco _ _ _ Hrun I) as Hsafe.
  simpl. destruct r as [[e | st |] | []]; simpl in *; try contradiction; reflexivity.
Qed.

Lemma pool_map_terminal (w : World) (fuel : nat) (batch : list string) (d : Dir) :
  cooperative w fuel -> all_terminal (fst (pool_map w fuel batch d)) = true.
Proof.
  intros Hco. revert d. induction batch as [|mae rest IH]; intros d; simpl.
  - reflexivity.
  - pose proof (process_frame_terminal w fuel mae d Hco) as Hmae.
    destruct (process_frame w fuel mae d) as [r d1]. simpl in Hmae. rewrite Hmae.
    specialize (IH d1). destruct (pool_map w fuel rest d1) as [rs d2].
    simpl in *. unfold all_terminal in *. simpl. rewrite Hmae, IH. reflexivity.
Qed.

(** In a cooperative world the loop over the batches reaches its end. *)
Lemma run_batches_completes (w : World) (fuel : nat) (c : Z) (batches : list (list string))
    (d : Dir) :
  cooperative w fuel -> exists log d', run_batches w fuel c batches d = Some (log, d').
Proof.
  intros Hco. revert d. induction batches as [|batch rest IH]; intros d; simpl.
  - eexists. eexists. reflexivity.
  - pose proof (pool_map_terminal w fuel batch d Hco) as Hterm.
    destruct (pool_map w fuel batch d) as [rs d1]. simpl in Hterm. rewrite Hterm.
    destruct (IH d1) as [log [d' ->]]. eexists. eexists. reflexivity.
Qed.

Lemma sample_world_cooperative (failing : list (string * Cmd)) :
  cooperative (sample_world failing) 2.
Proof.
  split.
  - intros b Hexit. simpl in *.
    destruct (fails failing b prepwizard); [discriminate |].
    simpl. rewrite lookup_singleton_eq. eexists. reflexivity.
  - intros b. exists 1%nat. eexists. split; [lia |].
    split; [left; reflexivity | reflexivity].
Qed.

(** C3.  For a batch size of at least one and a non-empty selection the
    loop goes through [ceil(n / b)] batches, which are consecutive runs of
    the selection: each of [b] frames, except that the last may be shorter
    (but not empty); line 178, which prints a count of its own, does not
    raise.  When the run gets through all its batches, the frames
    were run batch by batch in this order and the cleanup was invoked once
    after each batch, [ceil(n / b)] times in all; in a cooperative world
    the run does get through all its batches. *)
Theorem batch_schedule (b : Z) (selected : list string) :
  1 <= b -> selected <> [] ->
  exists batches,
    batches_of b selected = ret batches /\
    Z.of_nat (length batches) = (Z.of_nat (length selected) + b - 1) / b /\
    total_batches (Z.of_nat (length selected)) b = ret tt /\
    List.concat batches = selected /\
    (forall i batch, nth_error batches i = Some batch ->
       1 <= Z.of_nat (length batch) <= b /\
       ((S i < length batches)%nat -> Z.of_nat (length batch) = b)) /\
    (forall w fuel c d log d',
       run_batches w fuel c batches d = Some (log, d') ->
       log_batches [] log = batches /\
       List.map fst (frame_runs log) = selected /\
       cleanups log = length batches) /\
    (forall w fuel c d,
       cooperative w fuel ->
       exists log d',
         run_batches w fuel c batches d = Some (log, d') /\
         log_batches [] log = batches /\
         cleanups log = length batches).
Proof.
  intros Hb Hsel.
  assert (Hpos : (0 < Z.to_nat b)%nat) by lia.
  destruct (batches_of_partition selected (Z.to_nat b) Hpos)
    as [batches [Hbatches [Hlen [Hconcat Hsizes]]]].
  rewrite Z2Nat.id in Hbatches by lia.
  assert (Hcount : Z.of_nat (length batches) = (Z.of_nat (length selected) + b - 1) / b).
  { rewrite Hlen. unfold batch_count. rewrite Nat2Z.inj_div. f_equal; lia. }
  exists batches. split; [exact Hbatches |].
  split; [exact Hcount |]. split; [| split; [exact Hconcat | split; [| split]]].
  - unfold total_batches. destruct (Z.eqb_spec b 0) as [Hz | _]; [lia | reflexivity].
  - intros i batch Hi. destruct (Hsizes i batch Hi) as [Hrange Hfull].
    split; [lia | intros Hnext; specialize (Hfull Hnext); lia].
  - intros w fuel c d log d' Hrun.
    destruct (run_batches_log _ _ _ _ _ _ _ Hrun) as [Hlog [Hclean [_ [Hframes _]]]].
    rewrite Hframes, Hconcat. repeat split; assumption.
  - intros w fuel c d Hco.
    destruct (run_batches_completes w fuel c batches d Hco) as [log [d' Hrun]].
    destruct (run_batches_log _ _ _ _ _ _ _ Hrun) as [Hlog [Hclean _]].
    exists log, d'. repeat split; assumption.
Qed.

(** C4.  The pool of a batch of [s] frames, for a core count [c]: half
    the cores, at least one worker, never more workers than frames.  Every
    pool of a run has this width. *)
Theorem pool_width_exact (c : Z) (s : nat) :
  0 < c -> (0 < s)%nat ->
  pool_width c s = Z.min (Z.max 1 (c / 2)) (Z.of_nat s) /\
  1 <= pool_width c s <= Z.of_nat s /\
  pool_width c s <= Z.max 1 (c / 2) /\
  (2 <= c -> 2 * pool_width c s <= c) /\
  (forall w fuel batches d log d',
     run_batches w fuel c batches d = Some (log, d') ->
     pools log = List.map (fun batch => Z.min (Z.max 1 (c / 2)) (Z.of_nat (length batch))) batches).
Proof.
  intros Hc Hs. unfold pool_width.
  split; [reflexivity |]. split; [lia |]. split; [lia |]. split.
  - intros Hc2. pose proof (Z.div_mod c 2 ltac:(lia)) as Hdm.
    pose proof (Z.mod_pos_bound c 2 ltac:(lia)) as Hr. lia.
  - intros w fuel batches d log d' Hrun.
    apply (run_batches_log _ _ _ _ _ _ _ Hrun).
Qed.

(** ** The stages of one frame *)

Lemma stage_rank_inj (a b : Stage) : stage_rank a = stage_rank b -> a = b.
Proof. destruct a, b; simpl; intros H; try reflexivity; discriminate. Qed.

Lemma in_order_app (t1 t2 : list Event) (m : nat) :
  in_order t1 -> in_order t2 ->
  Forall (fun e => (rank_of e <= m)%nat) t1 ->
  Forall (fun e => (m <= rank_of e)%nat) t2 ->
  in_order (t1 ++ t2).
Proof.
  unfold in_order. intros H1 H2 Hle Hge.
  induction H1 as [|x t1 Ht1 IH Hx]; simpl.
  - exact H2.
  - inversion Hle as [|? ? Hxm Hrest]; subst.
    constructor; [apply IH; exact Hrest |].
    apply Forall_app. split; [exact Hx |].
    eapply List.Forall_impl; [| exact Hge]. simpl. intros e He. lia.
Qed.

Section StageLogic.
Variable w : World.
Variable base_index : string.

Abbreviation failed_run := (failed_run w base_index).
Abbreviation runs_ok := (runs_ok w base_index).
Abbreviation outcome_ok := (outcome_ok w base_index).
Abbreviation seg := (seg w base_index).

Lemma seg_silent {A} (cpe : bool) (lo hi : nat) (c : Pipe A) :
(lo <= hi)%nat ->
(forall s, exists a d, c s = ({| trace := trace s; cwd := d |}, inr a)) ->
seg cpe lo hi c.
Proof.
intros Hle Hc. split; [exact Hle |]. intros s s' r Hrun.
destruct (Hc s) as [a [d Heq]]. rewrite Heq in Hrun. injection Hrun as <- <-.
exists []. simpl. rewrite app_nil_r.
repeat split; try constructor.
Qed.

Lemma seg_pret {A} (cpe : bool) (lo hi : nat) (a : A) :
(lo <= hi)%nat -> seg cpe lo hi (pret a).
Proof.
intros Hle. apply seg_silent; [exact Hle |].
intros [t d]. exists a, d. reflexivity.
Qed.

Lemma seg_get_cwd (cpe : bool) (lo hi : nat) : (lo <= hi)%nat -> seg cpe lo hi get_cwd.
Proof.
intros Hle. apply seg_silent; [exact Hle |].
intros [t d]. exists d, d. reflexivity.
Qed.

Lemma seg_modify_cwd (cpe : bool) (lo hi : nat) (f : Dir -> Dir) :
(lo <= hi)%nat -> seg cpe lo hi (modify_cwd f).
Proof.
intros Hle. apply seg_silent; [exact Hle |].
intros [t d]. exists tt, (f d). reflexivity.
Qed.

Lemma seg_praise {A} (cpe : bool) (lo hi : nat) (e : FrameExn) :
(lo <= hi)%nat -> (e = CalledProcessError -> cpe = true) ->
seg cpe lo hi (praise e : Pipe A).
Proof.
intros Hle He. split; [exact Hle |]. intros s s' r Hrun.
injection Hrun as <- <-. exists []. rewrite app_nil_r.
split; [reflexivity | split; [constructor | split; [constructor |]]].
destruct e; simpl; try constructor. apply He. reflexivity.
Qed.

Lemma seg_emit (cpe : bool) (lo hi : nat) (e : Event) :
(lo <= rank_of e <= hi)%nat -> ~ failed_run e -> seg cpe lo hi (emit e).
Proof.
intros Hle He. split; [lia |]. intros s s' r Hrun.
injection Hrun as <- <-. exists [e]. simpl.
split; [reflexivity |].
split; [constructor; [exact Hle | constructor] |].
split; [repeat constructor |].
constructor; [exact He | constructor].
Qed.

Lemma outcome_ok_weaken {A} (cpe cpe' : bool) (lo lo' hi hi' : nat) (t : list Event)
  (r : Stop + A) :
(lo' <= lo)%nat -> (hi <= hi')%nat -> (cpe = true -> cpe' = true) ->
outcome_ok cpe lo hi t r -> outcome_ok cpe' lo' hi' t r.
Proof.
intros Hlo Hhi Hcpe. destruct r as [[e | st |] | a]; simpl; try tauto.
- destruct e; tauto.
- intros [Hk Hrest]. split; [lia | exact Hrest].
Qed.

Lemma seg_weaken {A} (cpe cpe' : bool) (lo lo' hi hi' : nat) (c : Pipe A) :
(lo' <= lo)%nat -> (hi <= hi')%nat -> (cpe = true -> cpe' = true) ->
seg cpe lo hi c -> seg cpe' lo' hi' c.
Proof.
intros Hlo Hhi Hcpe [Hle Hc]. split; [lia |]. intros s s' r Hrun.
destruct (Hc s s' r Hrun) as [t [Ht [Hb [Ho Hout]]]].
exists t. split; [exact Ht |]. split.
- eapply List.Forall_impl; [| exact Hb]. simpl. intros e He. lia.
- split; [exact Ho |]. eapply outcome_ok_weaken; eassumption.
Qed.

Lemma seg_bind {A B} (cpe : bool) (lo mid hi : nat) (c : Pipe A) (k : A -> Pipe B) :
  (mid <= hi)%nat ->
  seg cpe lo mid c -> (forall a, seg cpe mid hi (k a)) -> seg cpe lo hi (pbind c k).
Proof.
  intros Hle2 [Hle1 Hc] Hk.
  split; [lia |]. intros s s' r Hrun. unfold pbind in Hrun.
  destruct (c s) as [s1 [stop | a]] eqn:Hc1.
  - injection Hrun as <- <-.
    destruct (Hc _ _ _ Hc1) as [t [Ht [Hb [Ho Hout]]]].
    exists t. split; [exact Ht |]. split.
    + eapply List.Forall_impl; [| exact Hb]. simpl. intros e He. lia.
    + split; [exact Ho |].
      apply (outcome_ok_weaken cpe cpe lo lo mid hi t (inl stop : Stop + A));
        [lia | lia | tauto |].
      exact Hout.
  - destruct (Hc _ _ _ Hc1) as [t1 [Ht1 [Hb1 [Ho1 Hout1]]]].
    destruct (Hk a) as [_ Hka].
    destruct (Hka _ _ _ Hrun) as [t2 [Ht2 [Hb2 [Ho2 Hout2]]]].
    exists (t1 ++ t2)%list. split; [rewrite Ht2, Ht1, app_assoc; reflexivity |].
    split.
    + apply Forall_app. split.
      * eapply List.Forall_impl; [| exact Hb1]. simpl. intros e He. lia.
      * eapply List.Forall_impl; [| exact Hb2]. simpl. intros e He. lia.
    + split.
      * apply (in_order_app t1 t2 mid Ho1 Ho2).
        -- eapply List.Forall_impl; [| exact Hb1]. simpl. intros e He. lia.
        -- eapply List.Forall_impl; [| exact Hb2]. simpl. intros e He. lia.
      * simpl in Hout1.
        destruct r as [[e | st |] | b]; simpl in *.
        -- destruct e; try exact Hout2; apply Forall_app; split; assumption.
        -- destruct Hout2 as [Hk2 [Hle2' Hfail2]].
           split; [lia |]. split.
           ++ apply Forall_app. split; [| exact Hle2'].
              eapply List.Forall_impl; [| exact Hb1]. simpl. intros e He. lia.
           ++ apply Forall_app. split; [| exact Hfail2].
              eapply List.Forall_impl; [| exact Hout1]. simpl. intros e He Hf. contradiction.
        -- apply Forall_app. split; assumption.
        -- apply Forall_app. split; assumption.
Qed.
End StageLogic.

Section StageRules.
Variable w : World.
Variable base_index : string.

Abbreviation seg := (seg w base_index).

Lemma seg_try_called {A} (st : Stage) (body : Pipe A) :
seg true (stage_rank st) (stage_rank st) body ->
seg false (stage_rank st) (stage_rank st) (try_except except_CalledProcessError st body).
Proof.
intros [Hle Hbody]. split; [exact Hle |]. intros s s' r Hrun.
unfold try_except in Hrun. destruct (body s) as [s1 r1] eqn:Hb.
destruct (Hbody _ _ _ Hb) as [t [Ht [Hbound [Ho Hout]]]].
exists t.
destruct r1 as [[e | st' |] | a].
- destruct e; simpl in Hrun; injection Hrun as <- <-;
    (split; [exact Ht | split; [exact Hbound | split; [exact Ho |]]]);
    try exact Hout.
  simpl. split; [lia |]. split.
  + eapply List.Forall_impl; [| exact Hbound]. simpl. intros e He. lia.
  + eapply List.Forall_impl; [| exact Hbound]. simpl. intros e He _. lia.
- injection Hrun as <- <-.
  split; [exact Ht | split; [exact Hbound | split; [exact Ho | exact Hout]]].
- injection Hrun as <- <-.
  split; [exact Ht | split; [exact Hbound | split; [exact Ho | exact Hout]]].
- injection Hrun as <- <-.
  split; [exact Ht | split; [exact Hbound | split; [exact Ho | exact Hout]]].
Qed.

Lemma seg_try_any {A} (cpe : bool) (st : Stage) (body : Pipe A) :
seg cpe (stage_rank st) (stage_rank st) body ->
seg false (stage_rank st) (stage_rank st) (try_except except_Exception st body).
Proof.
intros [Hle Hbody]. split; [exact Hle |]. intros s s' r Hrun.
unfold try_except in Hrun. destruct (body s) as [s1 r1] eqn:Hb.
destruct (Hbody _ _ _ Hb) as [t [Ht [Hbound [Ho Hout]]]].
exists t.
destruct r1 as [[e | st' |] | a].
- simpl in Hrun. injection Hrun as <- <-.
  split; [exact Ht | split; [exact Hbound | split; [exact Ho |]]].
  simpl. split; [lia |]. split.
  + eapply List.Forall_impl; [| exact Hbound]. simpl. intros e' He. lia.
  + eapply List.Forall_impl; [| exact Hbound]. simpl. intros e' He _. lia.
- injection Hrun as <- <-.
  split; [exact Ht | split; [exact Hbound | split; [exact Ho | exact Hout]]].
- injection Hrun as <- <-.
  split; [exact Ht | split; [exact Hbound | split; [exact Ho | exact Hout]]].
- injection Hrun as <- <-.
  split; [exact Ht | split; [exact Hbound | split; [exact Ho | exact Hout]]].
Qed.

Lemma seg_nice_run (lo hi : nat) (c : Cmd) (argv : list Arg) :
(lo <= stage_rank (stage_of_cmd c) <= hi)%nat ->
seg true lo hi (nice_run w base_index c argv).
Proof.
intros Hle. split; [lia |]. intros s s' r Hrun.
unfold nice_run, pbind, emit, modify_cwd in Hrun. simpl in Hrun.
exists [ERun c argv].
destruct (Z.eqb_spec (exit_status w base_index c) 0) as [Hz | Hnz];
  injection Hrun as <- <-; simpl.
- split; [reflexivity |]. split; [constructor; [exact Hle | constructor] |].
  split; [repeat constructor |].
  constructor; [| constructor]. simpl. intros Hf. contradiction.
- split; [reflexivity |]. split; [constructor; [exact Hle | constructor] |].
  split; [repeat constructor | reflexivity].
Qed.

Ltac seg_next mid :=
apply (seg_bind w base_index _ _ mid); [lia | | intros ?].

Lemma seg_os_rename (cpe : bool) (src dst : string) : seg cpe 0 0 (os_rename src dst).
Proof.
unfold os_rename. seg_next 0%nat.
- apply seg_emit; [unfold rank_of; simpl; lia | simpl; tauto].
- seg_next 0%nat; [apply seg_get_cwd; lia |].
  destruct (_ !! src).
  + apply seg_modify_cwd. lia.
  + apply seg_praise; [lia | discriminate].
Qed.

Lemma seg_shell_rm (cpe : bool) (files : list string) : seg cpe 0 0 (shell_rm files).
Proof.
unfold shell_rm. seg_next 0%nat.
- apply seg_emit; [unfold rank_of; simpl; lia | simpl; tauto].
- apply seg_modify_cwd. lia.
Qed.

Lemma seg_mean (cpe : bool) (lo hi : nat) (xs : list Q) :
(lo <= hi)%nat -> seg cpe lo hi (mean xs).
Proof.
intros Hle. destruct xs; simpl.
- apply seg_praise; [exact Hle | discriminate].
- apply seg_pret. exact Hle.
Qed.

Lemma seg_ligand_center (cpe : bool) (lig : string) : seg cpe 2 2 (ligand_center w lig).
Proof.
unfold ligand_center. seg_next 2%nat.
- apply seg_emit; [unfold rank_of; simpl; lia | simpl; tauto].
- seg_next 2%nat; [apply seg_get_cwd; lia |].
  destruct (_ !! lig) as [data|]; [| apply seg_praise; [lia | discriminate]].
  destruct (read_structure w data) as [atoms|]; [| apply seg_praise; [lia | discriminate]].
  seg_next 2%nat; [apply seg_mean; lia |].
  seg_next 2%nat; [apply seg_mean; lia |].
  seg_next 2%nat; [apply seg_mean; lia |].
  apply seg_pret. lia.
Qed.

Lemma seg_write_csv (cpe : bool) (csv_file rec center : string) :
seg cpe 3 3 (write_csv csv_file rec center).
Proof.
unfold write_csv. seg_next 3%nat.
- apply seg_emit; [unfold rank_of; simpl; lia | simpl; tauto].
- apply seg_modify_cwd. lia.
Qed.

Lemma seg_poll_gridzip (cpe : bool) (fuel : nat) : seg cpe 3 3 (poll_gridzip w fuel base_index).
Proof.
  unfold poll_gridzip.
  destruct (wait_for_zip (zips_seen w base_index) 0 fuel) as [[n z]|].
  - seg_next 3%nat.
    + apply seg_emit; [unfold rank_of; simpl; lia | simpl; tauto].
    + apply seg_pret. lia.
  - split; [lia |]. intros s s' r Hrun. injection Hrun as <- <-.
    exists []. rewrite app_nil_r. repeat split; constructor.
Qed.
End StageRules.

Ltac seg_seq w b mid :=
  apply (seg_bind w b _ _ mid); [simpl; lia | | intros ?].

Ltac seg_block w b st :=
  apply (seg_weaken w b false false (stage_rank st) _ (stage_rank st) _);
  [simpl; lia | simpl; lia | tauto |].

Ltac seg_run w b := apply seg_nice_run; simpl; lia.

(** The whole pipeline of a frame goes through the stages in order. *)
Lemma frame_pipeline_seg (w : World) (fuel : nat) (mae : string) :
  seg w (splitext_root mae) false 0 4 (frame_pipeline w fuel mae).
Proof.
  unfold frame_pipeline. cbv zeta.
  set (b := splitext_root mae).
  seg_seq w b 0%nat.
  { apply seg_emit; [unfold rank_of; simpl; lia | simpl; tauto]. }
  seg_seq w b 0%nat.
  { apply seg_modify_cwd. lia. }
  seg_seq w b 0%nat.
  { apply (seg_try_called w b Prepare).
    seg_seq w b 0%nat; [seg_run w b |].
    seg_seq w b 0%nat; [apply seg_os_rename |].
    apply seg_shell_rm. }
  seg_seq w b 1%nat.
  { seg_block w b Split. apply (seg_try_called w b Split).
    seg_seq w b 1%nat; [seg_run w b |]. seg_run w b. }
  seg_seq w b 2%nat.
  { seg_block w b GeometryDerive.
    apply (seg_try_any w b false GeometryDerive). apply seg_ligand_center. }
  seg_seq w b 3%nat.
  { apply (seg_weaken w b false false 3 _ 3 _); [lia | lia | tauto |].
    apply seg_write_csv. }
  seg_seq w b 3%nat.
  { apply (seg_try_called w b GridGenerate). seg_run w b. }
  seg_seq w b 3%nat.
  { apply seg_poll_gridzip. }
  seg_seq w b 3%nat.
  { apply seg_emit; [unfold rank_of; simpl; lia | simpl; tauto]. }
  seg_seq w b 3%nat.
  { apply seg_modify_cwd. lia. }
  seg_block w b HypothesisGenerate.
  apply (seg_try_called w b HypothesisGenerate). seg_run w b.
Qed.

(** What [process_frame] guarantees about its trace. *)
Lemma process_frame_stages (w : World) (fuel : nat) (mae : string) (d : Dir) :
  let r := fst (process_frame w fuel mae d) in
  in_order (fr_trace r) /\
  (forall k, fr_status r = Failed k ->
     Forall (fun e => (rank_of e <= stage_rank k)%nat) (fr_trace r) /\
     Forall (fun e => failed_run w (splitext_root mae) e -> stage_of_event e = k) (fr_trace r)) /\
  ((exists e, In e (fr_trace r) /\ failed_run w (splitext_root mae) e) ->
   exists k, fr_status r = Failed k).
Proof.
  unfold process_frame.
  destruct (frame_pipeline w fuel mae {| trace := []; cwd := d |}) as [s r] eqn:Hrun.
  destruct (frame_pipeline_seg w fuel mae) as [_ Hseg].
  destruct (Hseg _ _ _ Hrun) as [t [Ht [Hb [Ho Hout]]]].
  simpl in Ht. subst t. simpl.
  split; [exact Ho |]. split.
  - intros k Hk. destruct r as [[e | st |] | []]; simpl in Hk; try discriminate.
    injection Hk as ->. simpl in Hout. destruct Hout as [_ [Hle Hfail]].
    split; [exact Hle |].
    eapply List.Forall_impl; [| exact Hfail]. simpl.
    intros e He Hf. apply stage_rank_inj. apply He. exact Hf.
  - intros [e [He Hf]].
    destruct r as [[x | st |] | []]; simpl in *; unfold runs_ok in *.
    + destruct x; try discriminate;
        rewrite List.Forall_forall in Hout; destruct (Hout e He Hf).
    + eexists. reflexivity.
    + rewrite List.Forall_forall in Hout. destruct (Hout e He Hf).
    + rewrite List.Forall_forall in Hout. destruct (Hout e He Hf).
Qed.

(** ** Failures and the other frames *)

Lemma run_batches_total (w : World) (fuel : nat) (c : Z) (batches : list (list string)) (d : Dir) :
  Forall (fun r => terminal (fr_status (snd r)) = true) (run_results w fuel batches d) ->
  exists log d',
    run_batches w fuel c batches d = Some (log, d') /\
    frame_runs log = run_results w fuel batches d.
Proof.
  revert d. induction batches as [|batch rest IH]; intros d Hterm; simpl in *.
  - exists [], d. split; reflexivity.
  - destruct (pool_map w fuel batch d) as [rs d1].
    apply Forall_app in Hterm. destruct Hterm as [Hrs Hrest].
    assert (Hall : all_terminal rs = true).
    { unfold all_terminal. apply forallb_forall.
      rewrite List.Forall_forall in Hrs. exact Hrs. }
    rewrite Hall. destruct (IH d1 Hrest) as [log [d' [Hrun Hlog]]].
    rewrite Hrun. eexists. exists d'. split; [reflexivity |].
    simpl. rewrite frame_runs_frames. simpl. rewrite Hlog. reflexivity.
Qed.

(** C1.  A failure that no except clause catches is not contained.
    Frames 1 and 2 are run in a batch each.  For frame 1 prepwizard exits
    with status zero and leaves no prepared structure: [os.rename]
    (line 98) raises [FileNotFoundError] inside the [try] of the first
    stage, whose except clause (line 101) catches [CalledProcessError]
    only.  The exception leaves [process_frame] after the one program of
    frame 1, [pool.map] raises it in the first batch, and the script ends
    there: frame 2 is never started, although it runs to the end in the
    directory that frame 1 left.  When prepwizard fails with a non-zero
    exit status instead, the except clause returns and frame 2 is run. *)
Theorem uncaught_rename_stops_the_run :
  fr_status (fst (process_frame forgetful_world 2 "1.mae" ∅)) = Crashed FileNotFoundError /\
  cmds_run (fr_trace (fst (process_frame forgetful_world 2 "1.mae" ∅))) = [prepwizard] /\
  fr_status (fst (process_frame forgetful_world 2 "2.mae"
                    (snd (process_frame forgetful_world 2 "1.mae" ∅)))) = Done /\
  select_frames one_by_one_config two_frames_host = ret ["1.mae"; "2.mae"] /\
  batches_of (BATCH_SIZE one_by_one_config) ["1.mae"; "2.mae"] = ret [["1.mae"]; ["2.mae"]] /\
  run_batches forgetful_world 2 (USER_NCORES one_by_one_config) [["1.mae"]; ["2.mae"]] ∅ = None /\
  main one_by_one_config two_frames_host forgetful_world 2 = Stuck /\
  List.map (fun r => (fst r, fr_status (snd r)))
    (frame_runs (run_log (main one_by_one_config two_frames_host
                               (sample_world [("1", prepwizard)]) 2)))
  = [("1.mae", Failed Prepare); ("2.mae", Done)].
Proof. repeat split; vm_compute; reflexivity. Qed.

(** ** Invariants of the pipeline state *)

Section Invariants.
Variable I : PState -> Prop.

Lemma preserves_pret {A} (a : A) : preserves I (pret a).
Proof. intros s s' r Hrun Hs. injection Hrun as <- <-. exact Hs. Qed.

Lemma preserves_praise {A} (e : FrameExn) : preserves I (praise e : Pipe A).
Proof. intros s s' r Hrun Hs. injection Hrun as <- <-. exact Hs. Qed.

Lemma preserves_get_cwd : preserves I get_cwd.
Proof. intros s s' r Hrun Hs. injection Hrun as <- <-. exact Hs. Qed.

Lemma preserves_emit (e : Event) :
(forall s, I s -> I {| trace := trace s ++ [e]; cwd := cwd s |}) -> preserves I (emit e).
Proof. intros He s s' r Hrun Hs. injection Hrun as <- <-. apply He. exact Hs. Qed.

Lemma preserves_modify_cwd (f : Dir -> Dir) :
(forall s, I s -> I {| trace := trace s; cwd := f (cwd s) |}) -> preserves I (modify_cwd f).
Proof. intros Hf s s' r Hrun Hs. injection Hrun as <- <-. apply Hf. exact Hs. Qed.

Lemma preserves_bind {A B} (c : Pipe A) (k : A -> Pipe B) :
preserves I c -> (forall a, preserves I (k a)) -> preserves I (pbind c k).
Proof.
intros Hc Hk s s' r Hrun Hs. unfold pbind in Hrun.
destruct (c s) as [s1 [stop | a]] eqn:Hc1.
- injection Hrun as <- <-. apply (Hc _ _ _ Hc1 Hs).
- apply (Hk a _ _ _ Hrun). apply (Hc _ _ _ Hc1 Hs).
Qed.

Lemma preserves_try_except {A} (h : FrameExn -> bool) (st : Stage) (body : Pipe A) :
preserves I body -> preserves I (try_except h st body).
Proof.
intros Hbody s s' r Hrun Hs. unfold try_except in Hrun.
destruct (body s) as [s1 r1] eqn:Hb. pose proof (Hbody _ _ _ Hb Hs) as Hs1.
destruct r1 as [[e | st' |] | a]; [destruct (h e) | | |]; injection Hrun as <- <-; exact Hs1.
Qed.

(** When [c] keeps the invariant and the invariant is enough for [Q]
    after an early stop, the rest of the block decides [Q]. *)
Lemma hoare_bind_inv {A B} (c : Pipe A) (k : A -> Pipe B) (Q : PState -> Stop + B -> Prop) :
  preserves I c ->
  (forall s stop, I s -> Q s (inl stop)) ->
  (forall a, hoare I (k a) Q) ->
  hoare I (pbind c k) Q.
Proof.
  intros Hc Hstop Hk s s' r Hrun Hs. unfold pbind in Hrun.
  destruct (c s) as [s1 [stop | a]] eqn:Hc1.
  - injection Hrun as <- <-. apply Hstop. apply (Hc _ _ _ Hc1 Hs).
  - apply (Hk a _ _ _ Hrun). apply (Hc _ _ _ Hc1 Hs).
Qed.
End Invariants.

(** ** The names a frame builds from its own name *)

Ltac named_event :=
  intros ? ?; apply Forall_app; split; [assumption |];
  constructor; [| constructor];
  unfold named_by; simpl;
  repeat (constructor; [eexists; split; [| reflexivity]; simpl; tauto |]);
  constructor.

Ltac keep_step :=
  first
    [ apply preserves_bind; [| intros ?]
    | apply preserves_try_except
    | apply preserves_pret
    | apply preserves_praise
    | apply preserves_get_cwd
    | apply preserves_modify_cwd; intros ? ?; assumption
    | apply preserves_emit; named_event ].

Lemma frame_pipeline_named (w : World) (fuel : nat) (mae : string) :
  preserves (all_named (splitext_root mae)) (frame_pipeline w fuel mae).
Proof.
  unfold frame_pipeline, nice_run, os_rename, shell_rm, write_csv. cbv zeta.
  set (b := splitext_root mae).
  repeat keep_step.
  - destruct (exit_status w b prepwizard =? 0); repeat keep_step.
  - destruct (_ !! _); repeat keep_step.
  - destruct (exit_status w b pv_convert_split_ligand =? 0); repeat keep_step.
  - destruct (exit_status w b pv_convert_split_receptor =? 0); repeat keep_step.
  - unfold ligand_center. repeat keep_step.
    destruct (_ !! _); repeat keep_step.
    destruct (read_structure w _); repeat keep_step;
      unfold mean;
      repeat match goal with
             | |- preserves _ (match ?l with [] => _ | _ :: _ => _ end) => destruct l
             end; repeat keep_step.
  - destruct (exit_status w b glide_gridgen =? 0); repeat keep_step.
  - unfold poll_gridzip. destruct (wait_for_zip _ _ _) as [[n z]|]; repeat keep_step.
    intros s s' r Hrun Hs. injection Hrun as <- <-. exact Hs.
  - destruct (exit_status w b epharmacophores =? 0); repeat keep_step.
Qed.

Lemma chars_append (s t : string) : chars (s +:+ t) = (chars s ++ chars t)%list.
Proof.
  unfold chars. induction s as [|c s IH]; simpl; [reflexivity | rewrite IH; reflexivity].
Qed.

Lemma chars_inj (s t : string) : chars s = chars t -> s = t.
Proof.
  unfold chars. intros H.
  rewrite <- (string_of_list_ascii_of_string s), <- (string_of_list_ascii_of_string t), H.
  reflexivity.
Qed.

Lemma digits_prefix_unique (l1 l2 a b : list ascii) :
  forallb is_digit l1 = true -> forallb is_digit l2 = true ->
  no_leading_digit a = true -> no_leading_digit b = true ->
  (l1 ++ a = l2 ++ b)%list -> l1 = l2.
Proof.
  revert l2. induction l1 as [|c l1 IH]; intros l2 H1 H2 Ha Hb Heq.
  - destruct l2 as [|c' l2]; [reflexivity |].
    simpl in *. subst a. simpl in Ha.
    apply andb_true_iff in H2. destruct H2 as [Hc' _].
    rewrite Hc' in Ha. discriminate.
  - destruct l2 as [|c' l2].
    + simpl in *. subst b. simpl in Hb.
      apply andb_true_iff in H1. destruct H1 as [Hc _].
      rewrite Hc in Hb. discriminate.
    + simpl in *. injection Heq as -> Heq.
      apply andb_true_iff in H1. destruct H1 as [_ H1].
      apply andb_true_iff in H2. destruct H2 as [_ H2].
      f_equal. apply (IH l2 H1 H2 Ha Hb Heq).
Qed.

Lemma suffixes_no_leading_digit (suf : string) :
  In suf suffixes -> no_leading_digit (chars suf) = true.
Proof.
  intros Hin. simpl in Hin.
  repeat (destruct Hin as [<- | Hin]; [reflexivity |]). destruct Hin.
Qed.

Lemma named_paths_disjoint (b1 b2 suf1 suf2 : string) :
  is_decimal b1 = true -> is_decimal b2 = true ->
  In suf1 suffixes -> In suf2 suffixes ->
  b1 +:+ suf1 = b2 +:+ suf2 -> b1 = b2.
Proof.
  intros H1 H2 Hs1 Hs2 Heq. apply chars_inj.
  apply (digits_prefix_unique _ _ (chars suf1) (chars suf2) H1 H2).
  - apply suffixes_no_leading_digit. exact Hs1.
  - apply suffixes_no_leading_digit. exact Hs2.
  - rewrite <- !chars_append, Heq. reflexivity.
Qed.

Lemma own_paths_named (w : World) (fuel : nat) (mae : string) (d : Dir) (p : string) :
  In p (own_paths (fst (process_frame w fuel mae d))) ->
  exists suf, In suf suffixes /\ p = splitext_root mae +:+ suf.
Proof.
  unfold own_paths, process_frame.
  destruct (frame_pipeline w fuel mae {| trace := []; cwd := d |}) as [s r] eqn:Hrun.
  pose proof (frame_pipeline_named w fuel mae _ _ _ Hrun) as Hnamed.
  simpl. intros Hin. apply in_concat in Hin. destruct Hin as [ps [Hps Hp]].
  apply in_map_iff in Hps. destruct Hps as [e [<- He]].
  assert (Hall : all_named (splitext_root mae) s) by (apply Hnamed; constructor).
  unfold all_named in Hall. rewrite List.Forall_forall in Hall.
  specialize (Hall e He). unfold named_by in Hall.
  rewrite List.Forall_forall in Hall. apply Hall. exact Hp.
Qed.

Lemma frame_paths_split (r : FrameResult) (p : string) :
  In p (frame_paths r) <-> In p (own_paths r) \/ In p (polled_paths r).
Proof.
  unfold frame_paths, own_paths, polled_paths.
  induction (fr_trace r) as [|e t IH]; simpl.
  - tauto.
  - rewrite !in_app_iff, IH.
    assert (He : In p (event_paths e) <-> In p (own_event_paths e) \/ In p (polled_event_paths e)).
    { destruct e; simpl; tauto. }
    tauto.
Qed.

(** ** Names across frames *)

(** C7 as stated does not hold: with the archives of two frames in the
    shared directory, the polling loop of frame 1 takes the newest one,
    which is the archive of frame 2, and frame 2 takes it too. *)
Lemma polled_archive_is_shared :
  exists r1 r2,
    fst (pool_map (sample_world []) 2 ["1.mae"; "2.mae"] ∅) = [("1.mae", r1); ("2.mae", r2)] /\
    fr_status r1 = Done /\ fr_status r2 = Done /\
    In "2_grid_input-gridgen.zip" (frame_paths r1) /\
    In "2_grid_input-gridgen.zip" (frame_paths r2).
Proof.
  eexists. eexists.
  split; [vm_compute; reflexivity |].
  repeat split; vm_compute; tauto.
Qed.

(** C7, amended.  The names a frame builds itself are its [base_index]
    followed by one of eleven fixed suffixes; for two frames whose names
    are different runs of decimal digits these names are all different.
    The other names a frame touches are those of the archive its polling
    loop found. *)
Theorem own_names_are_disjoint (w : World) (fuel : nat) (mae1 mae2 : string) (d1 d2 : Dir) :
  is_decimal (splitext_root mae1) = true ->
  is_decimal (splitext_root mae2) = true ->
  splitext_root mae1 <> splitext_root mae2 ->
  (forall p, In p (own_paths (fst (process_frame w fuel mae1 d1))) ->
             ~ In p (own_paths (fst (process_frame w fuel mae2 d2)))) /\
  (forall p, In p (own_paths (fst (process_frame w fuel mae1 d1))) ->
             exists suf, In suf suffixes /\ p = splitext_root mae1 +:+ suf) /\
  (forall p, In p (frame_paths (fst (process_frame w fuel mae1 d1))) <->
             In p (own_paths (fst (process_frame w fuel mae1 d1))) \/
             In p (polled_paths (fst (process_frame w fuel mae1 d1)))).
Proof.
  intros Hd1 Hd2 Hne. split; [| split].
  - intros p Hp1 Hp2.
    apply own_paths_named in Hp1. destruct Hp1 as [suf1 [Hs1 ->]].
    apply own_paths_named in Hp2. destruct Hp2 as [suf2 [Hs2 Heq]].
    apply Hne. apply (named_paths_disjoint _ _ suf1 suf2 Hd1 Hd2 Hs1 Hs2 Heq).
  - intros p. apply own_paths_named.
  - intros p. apply frame_paths_split.
Qed.

Lemma own_names_are_disjoint_witness :
  In "1_grid.zip" (own_paths (fst (process_frame (sample_world []) 2 "1.mae" ∅))) /\
  ~ In "1_grid.zip" (own_paths (fst (process_frame (sample_world []) 2 "2.mae" ∅))).
Proof.
  assert (Hin : In "1_grid.zip" (own_paths (fst (process_frame (sample_world []) 2 "1.mae" ∅))))
    by (vm_compute; tauto).
  split; [exact Hin |].
  apply (own_names_are_disjoint (sample_world []) 2 "1.mae" "2.mae" ∅ ∅);
    [reflexivity | reflexivity | discriminate | exact Hin].
Defined.

(** ** The hypothesis files of a run *)

Lemma written_not_phypo (b suf : string) :
  In suf written_suffixes -> is_phypo (b +:+ suf) = false.
Proof.
  intros Hin. unfold is_phypo, ends_with. rewrite chars_append, rev_app_distr.
  simpl in Hin.
  repeat (destruct Hin as [<- | Hin]; [reflexivity |]). destruct Hin.
Qed.

Lemma same_phypo_refl (d : Dir) : same_phypo d d.
Proof. intros n _. reflexivity. Qed.

Lemma same_phypo_insert (d0 d : Dir) (k v : string) :
  is_phypo k = false -> same_phypo d0 d -> same_phypo d0 (<[k := v]> d).
Proof.
  intros Hk Hd n Hn. rewrite lookup_insert_ne; [apply Hd; exact Hn |].
  intros ->. congruence.
Qed.

Lemma same_phypo_delete (d0 d : Dir) (k : string) :
  is_phypo k = false -> same_phypo d0 d -> same_phypo d0 (delete k d).
Proof.
  intros Hk Hd n Hn. rewrite lookup_delete_ne; [apply Hd; exact Hn |].
  intros ->. congruence.
Qed.

Lemma same_phypo_outputs (w : World) (b : string) (c : Cmd) (d0 d : Dir) :
  hypothesis_contract w ->
  (c = epharmacophores -> exit_status w b c <> 0) ->
  same_phypo d0 d -> same_phypo d0 (outputs w b c ∪ d).
Proof.
  intros [Honly _] Hc Hd n Hn.
  destruct (outputs w b c !! n) as [v|] eqn:Hout.
  - destruct (Honly b c n Hn) as [Hcmd [Hexit _]]; [congruence |].
    destruct (Hc Hcmd Hexit).
  - rewrite lookup_union_r by exact Hout. apply Hd. exact Hn.
Qed.

Section HypothesisFiles.
Variable w : World.
Variable b : string.
Variable d0 : Dir.
Hypothesis contract : hypothesis_contract w.

Abbreviation untouched := (untouched d0).
Abbreviation hypothesis_written := (hypothesis_written w b d0).

Lemma keep_emit (e : Event) : preserves untouched (emit e).
Proof. apply preserves_emit. intros s Hs. exact Hs. Qed.

Lemma keep_insert (suf v : string) :
In suf written_suffixes ->
preserves untouched (modify_cwd (fun d => <[b +:+ suf := v]> d)).
Proof.
intros Hsuf. apply preserves_modify_cwd. intros s Hs.
apply same_phypo_insert; [apply written_not_phypo; exact Hsuf | exact Hs].
Qed.

Lemma keep_nice_run (c : Cmd) (argv : list Arg) :
c <> epharmacophores -> preserves untouched (nice_run w b c argv).
Proof.
intros Hc. unfold nice_run.
apply preserves_bind; [apply keep_emit | intros _].
apply preserves_bind.
- apply preserves_modify_cwd. intros s Hs.
  apply same_phypo_outputs; [exact contract | intros ->; contradiction | exact Hs].
- intros _. destruct (_ =? 0); [apply preserves_pret | apply preserves_praise].
Qed.

Lemma keep_os_rename (src dst : string) :
In src written_suffixes -> In dst written_suffixes ->
preserves untouched (os_rename (b +:+ src) (b +:+ dst)).
Proof.
intros Hsrc Hdst. unfold os_rename.
apply preserves_bind; [apply keep_emit | intros _].
apply preserves_bind; [apply preserves_get_cwd | intros d].
destruct (d !! _) as [data|]; [| apply preserves_praise].
apply preserves_modify_cwd. intros s Hs.
apply same_phypo_insert; [apply written_not_phypo; exact Hdst |].
apply same_phypo_delete; [apply written_not_phypo; exact Hsrc | exact Hs].
Qed.

Lemma keep_shell_rm (sufs : list string) :
Forall (fun suf => In suf written_suffixes) sufs ->
preserves untouched (shell_rm (List.map (fun suf => b +:+ suf) sufs)).
Proof.
intros Hsufs. unfold shell_rm.
apply preserves_bind; [apply keep_emit | intros _].
apply preserves_modify_cwd. intros s Hs. simpl.
induction Hsufs as [|suf sufs Hsuf _ IH]; simpl.
- exact Hs.
- apply same_phypo_delete; [apply written_not_phypo; exact Hsuf | exact IH].
Qed.

Lemma keep_ligand_center (lig : string) : preserves untouched (ligand_center w lig).
Proof.
unfold ligand_center.
apply preserves_bind; [apply keep_emit | intros _].
apply preserves_bind; [apply preserves_get_cwd | intros d].
destruct (d !! lig) as [data|]; [| apply preserves_praise].
destruct (read_structure w data) as [atoms|]; [| apply preserves_praise].
unfold mean.
repeat (apply preserves_bind;
        [match goal with
         | |- preserves _ (match ?l with [] => _ | _ :: _ => _ end) =>
             destruct l; [apply preserves_praise | apply preserves_pret]
         end | intros ?]).
apply preserves_pret.
Qed.

Lemma keep_poll_gridzip (fuel : nat) : preserves untouched (poll_gridzip w fuel b).
Proof.
unfold poll_gridzip. destruct (wait_for_zip _ _ _) as [[n z]|].
- apply preserves_bind; [apply keep_emit | intros _]. apply preserves_pret.
- intros s s' r Hrun Hs. injection Hrun as <- <-. exact Hs.
Qed.

Lemma hypothesis_stage_writes (argv : list Arg) :
  hoare untouched
    (try_except except_CalledProcessError HypothesisGenerate
       (nice_run w b epharmacophores argv))
    hypothesis_written.
Proof.
  intros s s' r Hrun Hs.
  unfold try_except, nice_run, pbind, emit, modify_cwd in Hrun. simpl in Hrun.
  destruct (Z.eqb_spec (exit_status w b epharmacophores) 0) as [Hz | Hnz];
    simpl in Hrun; injection Hrun as <- <-; simpl.
  - split; [exact Hz |]. intros n Hn.
    rewrite !lookup_union. rewrite (Hs n Hn). reflexivity.
  - apply same_phypo_outputs; [exact contract | intros _; exact Hnz | exact Hs].
Qed.
End HypothesisFiles.

Ltac keep_then :=
  apply hoare_bind_inv; [| intros ? ? Hinv; exact Hinv | intros ?].

Lemma frame_pipeline_hypothesis (w : World) (fuel : nat) (mae : string) (d0 : Dir) :
  hypothesis_contract w ->
  hoare (untouched d0) (frame_pipeline w fuel mae)
        (hypothesis_written w (splitext_root mae) d0).
Proof.
  intros contract. unfold frame_pipeline. cbv zeta.
  set (b := splitext_root mae).
  keep_then; [apply keep_emit |].
  keep_then; [apply keep_insert; simpl; tauto |].
  keep_then.
  { apply preserves_try_except.
    apply preserves_bind; [apply keep_nice_run; [exact contract | discriminate] | intros _].
    apply preserves_bind; [apply keep_os_rename; simpl; tauto | intros _].
    apply (keep_shell_rm b d0 ["-protassign.log"; "-protassign.mae"; "-protassign-out.mae"]).
    repeat constructor; simpl; tauto. }
  keep_then.
  { apply preserves_try_except.
    apply preserves_bind; [apply keep_nice_run; [exact contract | discriminate] | intros _].
    apply keep_nice_run; [exact contract | discriminate]. }
  keep_then.
  { apply preserves_try_except. apply keep_ligand_center. }
  keep_then.
  { unfold write_csv. apply preserves_bind; [apply keep_emit | intros _].
    apply keep_insert. simpl. tauto. }
  keep_then.
  { apply preserves_try_except. apply keep_nice_run; [exact contract | discriminate]. }
  keep_then; [apply keep_poll_gridzip |].
  keep_then; [apply keep_emit |].
  keep_then; [apply keep_insert; simpl; tauto |].
  apply hypothesis_stage_writes. exact contract.
Qed.

Lemma process_frame_phypo (w : World) (fuel : nat) (mae : string) (d : Dir) (n : string) :
  hypothesis_contract w -> is_phypo n = true ->
  is_Some (snd (process_frame w fuel mae d) !! n) <->
  is_Some (d !! n) \/
  (fr_status (fst (process_frame w fuel mae d)) = Done /\ n = hypo_name mae).
Proof.
  intros contract Hn. unfold process_frame.
  destruct (frame_pipeline w fuel mae {| trace := []; cwd := d |}) as [s r] eqn:Hrun.
  pose proof (frame_pipeline_hypothesis w fuel mae d contract _ _ _ Hrun
                (same_phypo_refl d)) as Hpost.
  simpl. destruct r as [stop | []]; simpl in Hpost.
  - rewrite (Hpost n Hn). split; [intros H; left; exact H |].
    intros [H | [Hdone _]]; [exact H |].
    destruct stop; discriminate.
  - destruct Hpost as [Hexit Hcwd]. rewrite (Hcwd n Hn), lookup_union_is_Some.
    destruct contract as [Honly Hwrites]. unfold hypo_name. simpl. split.
    + intros [Hout | Hd]; [right | left; exact Hd].
      split; [reflexivity |].
      apply (Honly (splitext_root mae) epharmacophores n Hn).
      destruct Hout as [v Hv]. congruence.
    + intros [Hd | [_ ->]]; [right; exact Hd | left].
      specialize (Hwrites _ Hexit).
      destruct (outputs w _ epharmacophores !! _); [eexists; reflexivity | contradiction].
Qed.

Lemma pool_map_phypo (w : World) (fuel : nat) (batch : list string) (d : Dir) (n : string) :
  hypothesis_contract w -> is_phypo n = true ->
  is_Some (snd (pool_map w fuel batch d) !! n) <->
  is_Some (d !! n) \/ succeeded_as (fst (pool_map w fuel batch d)) n.
Proof.
  intros contract Hn. revert d. induction batch as [|mae rest IH]; intros d; simpl.
  - split; [intros H; left; exact H |].
    intros [H | [mae [r [[] _]]]]. exact H.
  - pose proof (process_frame_phypo w fuel mae d n contract Hn) as Hframe.
    destruct (process_frame w fuel mae d) as [r d1]. simpl in Hframe.
    destruct (terminal (fr_status r)).
    + specialize (IH d1). destruct (pool_map w fuel rest d1) as [rs d2]. simpl in *.
      rewrite IH, Hframe. unfold succeeded_as. split.
      * intros [[Hd | [Hdone ->]] | [m [r' [Hin Hrest]]]].
        -- left. exact Hd.
        -- right. exists mae, r.
           split; [left; reflexivity | split; [exact Hdone | reflexivity]].
        -- right. exists m, r'. split; [right; exact Hin | exact Hrest].
      * intros [Hd | [m [r' [[Heq | Hin] [Hdone ->]]]]].
        -- left. left. exact Hd.
        -- injection Heq as <- <-. left. right. split; [exact Hdone | reflexivity].
        -- right. exists m, r'. split; [exact Hin | split; [exact Hdone | reflexivity]].
    + simpl. rewrite Hframe. unfold succeeded_as. split.
      * intros [Hd | [Hdone ->]]; [left; exact Hd |].
        right. exists mae, r.
        split; [left; reflexivity | split; [exact Hdone | reflexivity]].
      * intros [Hd | [m [r' [[Heq | []] [Hdone ->]]]]]; [left; exact Hd |].
        injection Heq as <- <-. right. split; [exact Hdone | reflexivity].
Qed.

Lemma run_batches_phypo (w : World) (fuel : nat) (c : Z) (batches : list (list string))
    (d d' : Dir) (log : list RunEvent) (n : string) :
  hypothesis_contract w -> is_phypo n = true ->
  run_batches w fuel c batches d = Some (log, d') ->
  is_Some (d' !! n) <-> is_Some (d !! n) \/ succeeded_as (frame_runs log) n.
Proof.
  intros contract Hn. revert d log.
  induction batches as [|batch rest IH]; intros d log Hrun; simpl in Hrun.
  - injection Hrun as <- <-. split; [intros H; left; exact H |].
    intros [H | [mae [r [[] _]]]]. exact H.
  - pose proof (pool_map_phypo w fuel batch d n contract Hn) as Hbatch.
    destruct (pool_map w fuel batch d) as [rs d1]. simpl in Hbatch.
    destruct (all_terminal rs); [| discriminate].
    destruct (run_batches w fuel c rest d1) as [[log1 d2]|] eqn:Hrest; [| discriminate].
    injection Hrun as <- <-.
    rewrite (IH d1 log1 Hrest), Hbatch.
    change (frame_runs (PoolCreated (pool_width c (length batch))
              :: List.map (fun r => FrameRan (fst r) (snd r)) rs ++ Cleanup :: log1))
      with (frame_runs (List.map (fun r => FrameRan (fst r) (snd r)) rs ++ Cleanup :: log1)).
    rewrite frame_runs_frames. simpl. unfold succeeded_as. split.
    + intros [[Hd | [m [r [Hin Hrest']]]] | [m [r [Hin Hrest']]]].
      * left. exact Hd.
      * right. exists m, r. split; [apply in_or_app; left; exact Hin | exact Hrest'].
      * right. exists m, r. split; [apply in_or_app; right; exact Hin | exact Hrest'].
    + intros [Hd | [m [r [Hin Hrest']]]].
      * left. left. exact Hd.
      * apply in_app_or in Hin. destruct Hin as [Hin | Hin].
        -- left. right. exists m, r. split; assumption.
        -- right. exists m, r. split; assumption.
Qed.

(** ** File names and stems *)

Lemma is_prefix_app (p l : list ascii) :
  is_prefix p l = true -> exists rest, l = (p ++ rest)%list.
Proof.
  revert l. induction p as [|a p IH]; intros l H.
  - exists l. reflexivity.
  - destruct l as [|c l]; [discriminate |]. simpl in H.
    apply andb_true_iff in H. destruct H as [Hac Hp].
    apply Ascii.eqb_eq in Hac. subst c.
    destruct (IH l Hp) as [rest ->]. exists rest. reflexivity.
Qed.

Lemma last_dot_mae (l0 : list ascii) (i : nat) :
  last_dot i (l0 ++ chars ".mae") = Some (i + length l0)%nat.
Proof.
  revert i. induction l0 as [|c l0 IH]; intros i; simpl.
  - f_equal. lia.
  - rewrite IH. f_equal. lia.
Qed.

(** A name that [glob] matches against [*.mae] is its stem followed by
    [.mae], and neither is empty or hidden. *)
Lemma glob_name_stem (f : string) :
  ends_with ".mae" f = true -> starts_with "." f = false ->
  f = splitext_root f +:+ ".mae" /\ starts_with "." (splitext_root f) = false /\
  exists c l, chars (splitext_root f) = c :: l.
Proof.
  unfold ends_with, starts_with. intros Hend Hdot.
  apply is_prefix_app in Hend. destruct Hend as [rest Hrest].
  assert (Hchars : chars f = (rev rest ++ chars ".mae")%list).
  { rewrite <- (rev_involutive (chars f)), Hrest, rev_app_distr, rev_involutive.
    reflexivity. }
  destruct (rev rest) as [|c l0] eqn:Hl0.
  { rewrite Hchars in Hdot. discriminate. }
  assert (Hc : Ascii.eqb "." c = false).
  { rewrite Hchars in Hdot. simpl in Hdot. rewrite andb_true_r in Hdot. exact Hdot. }
  assert (Hroot : splitext_root f = string_of_list_ascii (c :: l0)).
  { unfold splitext_root. rewrite Hchars, last_dot_mae. rewrite Nat.add_0_l.
    assert (Htake : firstn (length (c :: l0)) ((c :: l0) ++ chars ".mae") = c :: l0).
    { rewrite firstn_app, firstn_all, Nat.sub_diag. simpl. rewrite app_nil_r. reflexivity. }
    rewrite Htake. cbn [forallb].
    assert (Hnd : (nat_of_ascii c =? 46)%nat = false).
    { destruct (Nat.eqb_spec (nat_of_ascii c) 46) as [H46 | _]; [| reflexivity].
      assert (c = "."%char) as ->.
      { rewrite <- (ascii_nat_embedding c), H46. reflexivity. }
      discriminate. }
    rewrite Hnd. reflexivity. }
  assert (Hrc : chars (splitext_root f) = c :: l0).
  { rewrite Hroot. unfold chars. apply list_ascii_of_string_of_list_ascii. }
  split; [| split].
  - apply chars_inj. rewrite chars_append, Hrc. exact Hchars.
  - rewrite Hrc. simpl. rewrite andb_true_r. exact Hc.
  - exists c, l0. exact Hrc.
Qed.

Lemma glob_ext_In (ext f : string) (names : list string) :
  In f (glob_ext ext names) <->
  In f names /\ ends_with ext f = true /\ starts_with "." f = false.
Proof.
  unfold glob_ext. rewrite filter_In, andb_true_iff, negb_true_iff. reflexivity.
Qed.

Lemma hypo_name_phypo (f : string) :
  ends_with ".mae" f = true -> starts_with "." f = false -> is_phypo (hypo_name f) = true.
Proof.
  intros Hend Hdot. destruct (glob_name_stem f Hend Hdot) as [_ [Hroot [c [l Hc]]]].
  unfold is_phypo, hypo_name, ends_with, starts_with in *.
  rewrite chars_append, rev_app_distr. apply andb_true_iff. split; [reflexivity |].
  rewrite Hc in *. simpl in *. rewrite Hroot. reflexivity.
Qed.

Lemma hypo_name_inj (f g : string) :
  ends_with ".mae" f = true -> starts_with "." f = false ->
  ends_with ".mae" g = true -> starts_with "." g = false ->
  hypo_name f = hypo_name g -> f = g.
Proof.
  intros Hf1 Hf2 Hg1 Hg2 Heq.
  destruct (glob_name_stem f Hf1 Hf2) as [Hf _].
  destruct (glob_name_stem g Hg1 Hg2) as [Hg _].
  assert (Hroot : splitext_root f = splitext_root g).
  { apply chars_inj. unfold hypo_name in Heq.
    apply (f_equal chars) in Heq. rewrite !chars_append in Heq.
    apply app_inv_tail in Heq. exact Heq. }
  rewrite Hf, Hg, Hroot. reflexivity.
Qed.

(** ** What the selection is made of *)

Lemma filter_result_sub {A} (f : A -> Result bool) (l r : list A) :
  filter_result f l = ret r ->
  (forall x, In x r -> In x l) /\ (List.NoDup l -> List.NoDup r).
Proof.
  revert r. induction l as [|a l IH]; intros r H; simpl in H.
  - injection H as <-. split; [intros x [] | intros _; constructor].
  - destruct (f a) as [e | keep]; [discriminate |]. simpl in H.
    destruct (filter_result f l) as [e | r'] eqn:Hl; [discriminate |].
    simpl in H. injection H as <-.
    destruct (IH r' eq_refl) as [Hsub Hnd]. split.
    + intros x Hx. destruct keep; [destruct Hx as [<- | Hx] |].
      * left. reflexivity.
      * right. apply Hsub. exact Hx.
      * right. apply Hsub. exact Hx.
    + intros Hnodup. inversion Hnodup as [|? ? Hnotin Hrest]; subst.
      destruct keep; [| apply Hnd; exact Hrest].
      constructor; [| apply Hnd; exact Hrest].
      intros Hin. apply Hnotin. apply Hsub. exact Hin.
Qed.

Lemma all_maes_perm (names maes : list string) :
  all_maes names = ret maes -> Permutation maes (glob_ext ".mae" names).
Proof.
  intros Hmaes.
  assert (Hint : forall f, In f (glob_ext ".mae" names) -> exists i, frame_index f = ret i).
  { intros f Hf. unfold all_maes in Hmaes.
    destruct (decorate frame_index (glob_ext ".mae" names)) as [e | dec] eqn:Hdec;
      [discriminate |].
    destruct (map_result_inv _ _ _ Hdec f Hf) as [[i g] Hfi].
    destruct (frame_index f) as [e | j]; [discriminate |]. exists j. reflexivity. }
  rewrite (all_maes_total names Hint) in Hmaes. injection Hmaes as <-.
  apply sorted_maes_perm.
Qed.

(** The selected files are files of the input directory that [glob]
    matched, each once. *)
Lemma select_frames_sound (cfg : Config) (h : Host) (selected : list string) :
  select_frames cfg h = ret selected ->
  List.NoDup (input_names h) ->
  List.NoDup selected /\
  forall f, In f selected -> ends_with ".mae" f = true /\ starts_with "." f = false.
Proof.
  unfold select_frames. intros Hsel Hnd.
  destruct (all_maes (input_names h)) as [e | maes] eqn:Hmaes; [discriminate |].
  simpl in Hsel. pose proof (all_maes_perm _ _ Hmaes) as Hperm.
  destruct (filter_result_sub _ _ _ Hsel) as [Hsub Hnodup]. split.
  - apply Hnodup. apply (Permutation_NoDup (Permutation_sym Hperm)).
    apply List.NoDup_filter. exact Hnd.
  - intros f Hf. apply Hsub in Hf. apply (Permutation_in _ Hperm) in Hf.
    apply glob_ext_In in Hf. tauto.
Qed.

Lemma batches_of_cases {A} (b : Z) (l : list A) (batches : list (list A)) :
  batches_of b l = ret batches ->
  (0 < b /\ List.concat batches = l) \/ (b < 0 /\ batches = []).
Proof.
  intros H. destruct (Z.lt_trichotomy b 0) as [Hneg | [-> | Hpos]].
  - right. split; [exact Hneg |].
    unfold batches_of, py_range, range_length in H.
    destruct (Z.eqb_spec b 0) as [Hz | _]; [lia |].
    destruct (Z.ltb_spec 0 b) as [Hp | _]; [lia |].
    destruct (Z.ltb_spec (Z.of_nat (length l)) 0) as [Hl | _]; [lia |].
    rewrite andb_false_r in H. simpl in H. injection H as <-. reflexivity.
  - discriminate.
  - left. split; [exact Hpos |].
    destruct (batches_of_partition l (Z.to_nat b) ltac:(lia)) as [bs [Hbs [_ [Hconcat _]]]].
    rewrite Z2Nat.id in Hbs by lia. rewrite Hbs in H. injection H as <-. exact Hconcat.
Qed.

Lemma frame_runs_collected {A} (g : A -> string) (log : list RunEvent) (files : list A) :
  frame_runs (log ++ List.map (fun f => Collected (g f)) files) = frame_runs log.
Proof.
  induction log as [|e log IH]; simpl.
  - induction files as [|n files IH]; simpl; [reflexivity | exact IH].
  - destruct e; simpl; rewrite IH; reflexivity.
Qed.

(** What a run that reached the end has done. *)
Lemma main_completed (cfg : Config) (h : Host) (w : World) (fuel : nat)
    (log : list RunEvent) (proc hyp : Dir) :
  main cfg h w fuel = Completed log proc hyp ->
  exists selected batches log0,
    select_frames cfg h = ret selected /\
    batches_of (BATCH_SIZE cfg) selected = ret batches /\
    run_batches w fuel (USER_NCORES cfg) batches (PROCESSED_DIR h) = Some (log0, proc) /\
    log = (log0 ++ List.map (fun f => Collected (fst f)) (phypo_files proc))%list /\
    hyp = collect proc (HYPOTHESIS_DIR h).
Proof.
  unfold main. intros H.
  destruct (schrodinger_isdir h); [| discriminate]. simpl in H.
  destruct (select_frames cfg h) as [e | [|f selected]]; try discriminate.
  destruct (total_batches _ _) as [e | []]; [discriminate |]. simpl in H.
  destruct (batches_of (BATCH_SIZE cfg) (f :: selected)) as [e | batches] eqn:Hb;
    [discriminate |].
  destruct (run_batches _ _ _ _ _) as [[log0 proc0]|] eqn:Hrun; [| discriminate].
  injection H as <- <- <-.
  exists (f :: selected), batches, log0. repeat split; try reflexivity; assumption.
Qed.

(** C8 as stated does not hold: the collection receives every [*.phypo]
    file of the working directory, also one that an earlier run left
    there.  Here the only frame fails in the first stage, and the
    collection ends with one file. *)
Lemma stale_hypothesis_is_collected :
  exists log proc hyp,
    main {| START_IDX := 1; END_IDX := 1; STEP := 1; USER_NCORES := 2; BATCH_SIZE := 1 |}
         {| schrodinger_isdir := true; input_names := ["1.mae"];
            PROCESSED_DIR := {[ "9_hypo.phypo" := "hypothesis of an earlier run" ]};
            HYPOTHESIS_DIR := ∅ |}
         (sample_world [("1", prepwizard)]) 1
    = Completed log proc hyp /\
    List.map (fun r => fr_status (snd r)) (frame_runs log) = [Failed Prepare] /\
    hyp !! "9_hypo.phypo" = Some "hypothesis of an earlier run" /\
    size hyp = 1%nat.
Proof.
  eexists. eexists. eexists.
  split; [vm_compute; reflexivity |].
  repeat split; vm_compute; reflexivity.
Qed.

Lemma collect_into_empty (proc : Dir) (n : string) :
  collect proc ∅ !! n = if is_phypo n then proc !! n else None.
Proof.
  rewrite collect_lookup, lookup_empty.
  destruct (is_phypo n); [destruct (proc !! n) |]; reflexivity.
Qed.

(** C8, amended.  Let the run reach its end.  The collection then holds
    what it held before, with every [*.phypo] file of the working
    directory copied over it: a name that [glob] matches against
    [*.phypo] and that is in the working directory has the content it has
    there, whatever produced it, and every other name is as it was in the
    collection.  When the toolsuite keeps to [hypothesis_contract], the
    [*.phypo] files of the working directory are those that were there
    when the script started and those of the frames that ran through all
    stages.  When, moreover, the working directory holds no [*.phypo]
    file and the collection is empty when the script starts (and the
    input directory lists no name twice), the collection holds exactly
    the hypothesis files of the frames that ran through all stages, one
    for each such frame, each a copy of the file in the working directory;
    every frame was run once. *)
Theorem collection_holds_the_succeeded (cfg : Config) (h : Host) (w : World) (fuel : nat)
    (log : list RunEvent) (proc hyp : Dir) :
  main cfg h w fuel = Completed log proc hyp ->
  (forall n,
     hyp !! n = match (if is_phypo n then proc !! n else None) with
                | Some v => Some v
                | None => HYPOTHESIS_DIR h !! n
                end) /\
  (hypothesis_contract w ->
   (forall n, is_phypo n = true ->
      (is_Some (proc !! n) <->
       is_Some (PROCESSED_DIR h !! n) \/ succeeded_as (frame_runs log) n)) /\
   ((forall n, is_phypo n = true -> PROCESSED_DIR h !! n = None) ->
    HYPOTHESIS_DIR h = ∅ ->
    List.NoDup (input_names h) ->
    (forall n, is_Some (hyp !! n) <-> succeeded_as (frame_runs log) n) /\
    size hyp = length (List.filter (fun r => is_done (fr_status (snd r))) (frame_runs log)) /\
    List.NoDup (List.map fst (frame_runs log)) /\
    (forall n v, hyp !! n = Some v -> proc !! n = Some v))).
Proof.
  intros Hmain.
  destruct (main_completed _ _ _ _ _ _ _ Hmain)
    as [selected [batches [log0 [Hsel [Hbatches [Hrun [-> ->]]]]]]].
  split; [intros n; apply collect_lookup |].
  intros contract. rewrite frame_runs_collected.
  split; [intros n Hn; apply (run_batches_phypo _ _ _ _ _ _ _ n contract Hn Hrun) |].
  intros Hclean Hempty Hnd. rewrite Hempty.
  destruct (select_frames_sound _ _ _ Hsel Hnd) as [Hnodup Hglob].
  destruct (run_batches_log _ _ _ _ _ _ _ Hrun) as [_ [_ [_ [Hnames _]]]].
  assert (Hran : forall mae r, In (mae, r) (frame_runs log0) -> In mae selected).
  { intros mae r Hin.
    assert (Hmae : In mae (List.map fst (frame_runs log0))).
    { apply in_map_iff. exists (mae, r). split; [reflexivity | exact Hin]. }
    rewrite Hnames in Hmae.
    destruct (batches_of_cases _ _ _ Hbatches) as [[_ <-] | [_ ->]];
      [exact Hmae | destruct Hmae]. }
  assert (Honce : List.NoDup (List.map fst (frame_runs log0))).
  { rewrite Hnames.
    destruct (batches_of_cases _ _ _ Hbatches) as [[_ ->] | [_ ->]];
      [exact Hnodup | constructor]. }
  assert (Hdom : forall n, is_Some (collect proc ∅ !! n) <-> succeeded_as (frame_runs log0) n).
  { intros n. rewrite collect_into_empty. destruct (is_phypo n) eqn:Hn.
    - rewrite (run_batches_phypo _ _ _ _ _ _ _ n contract Hn Hrun).
      rewrite (Hclean n Hn). split; [| intros H; right; exact H].
      intros [[v Hv] | H]; [discriminate | exact H].
    - split; [intros [v Hv]; discriminate |].
      intros [mae [r [Hin [_ ->]]]].
      destruct (Hglob mae (Hran _ _ Hin)) as [Hend Hdot].
      rewrite (hypo_name_phypo mae Hend Hdot) in Hn. discriminate. }
  split; [exact Hdom |]. split; [| split; [exact Honce |]].
  - set (done := List.filter (fun r => is_done (fr_status (snd r))) (frame_runs log0)).
    set (names := List.map (fun r => hypo_name (fst r)) done).
    assert (Hnames_nd : List.NoDup names).
    { unfold names. rewrite <- (List.map_map fst hypo_name).
      apply Finite.Injective_map_NoDup_in.
      - intros x y Hx Hy Hxy.
        assert (Hsel' : forall z, In z (List.map fst done) -> In z selected).
        { intros z Hz. apply in_map_iff in Hz. destruct Hz as [[m r] [<- Hin]].
          apply filter_In in Hin. apply (Hran m r). tauto. }
        destruct (Hglob x (Hsel' x Hx)) as [Hx1 Hx2].
        destruct (Hglob y (Hsel' y Hy)) as [Hy1 Hy2].
        apply (hypo_name_inj x y Hx1 Hx2 Hy1 Hy2 Hxy).
      - apply NoDup_map_filter. exact Honce. }
    assert (Hset : dom (collect proc ∅) = list_to_set names).
    { apply set_eq. intros n.
      rewrite elem_of_dom, Hdom, elem_of_list_to_set, list_elem_of_In.
      unfold names, succeeded_as. rewrite in_map_iff. split.
      - intros [mae [r [Hin [Hdone ->]]]]. exists (mae, r).
        split; [reflexivity |]. apply filter_In. split; [exact Hin |].
        simpl. rewrite Hdone. reflexivity.
      - intros [[mae r] [<- Hin]]. apply filter_In in Hin. destruct Hin as [Hin Hdone].
        exists mae, r. split; [exact Hin |]. split; [| reflexivity].
        simpl in Hdone. destruct (fr_status r); try discriminate. reflexivity. }
    rewrite <- (size_dom (D := gset string)), Hset.
    rewrite size_list_to_set by (apply NoDup_ListNoDup; exact Hnames_nd).
    unfold names. rewrite length_map. reflexivity.
  - intros n v Hv. rewrite collect_into_empty in Hv.
    destruct (is_phypo n); [exact Hv | discriminate].
Qed.

(** ** The sample worlds at work *)

Lemma sample_name_not_phypo (b suf : string) :
  In suf ["_pH7.4_prepared.mae"; "_prepared-out_lig.mae"; "_prepared-out_recep.mae"] ->
  is_phypo (b +:+ suf) = false.
Proof.
  intros Hin. unfold is_phypo, ends_with. rewrite chars_append, rev_app_distr.
  simpl in Hin.
  repeat (destruct Hin as [<- | Hin]; [reflexivity |]). destruct Hin.
Qed.

Lemma sample_world_contract (failing : list (string * Cmd)) :
  hypothesis_contract (sample_world failing).
Proof.
  split.
  - intros b c n Hn Hout. simpl in *.
    destruct (fails failing b c) eqn:Hfails; [rewrite lookup_empty in Hout; contradiction |].
    destruct c; simpl in Hout;
      try (rewrite lookup_empty in Hout; contradiction);
      match type of Hout with
      | {[ ?k := _ ]} !! _ <> None =>
          destruct (decide (k = n)) as [<- | Hne];
          [| rewrite lookup_singleton_ne in Hout by exact Hne; contradiction]
      end;
      try (rewrite sample_name_not_phypo in Hn by (simpl; tauto); discriminate).
    repeat split; reflexivity.
  - intros b Hexit. simpl in *.
    destruct (fails failing b epharmacophores); [discriminate |].
    simpl. rewrite lookup_singleton_eq. discriminate.
Qed.

(** Five frames by batches of two: batches of 2, 2 and 1 frames and three
    cleanups; the ligand of frame 4 has no atoms, which stops frame 4
    only. *)
Lemma batch_schedule_witness :
  exists batches log d,
    batches_of 2 ["1.mae"; "2.mae"; "3.mae"; "4.mae"; "5.mae"] = ret batches /\
    List.map (fun batch => length batch) batches = [2; 2; 1]%nat /\
    run_batches (sample_world []) 2 4 batches ∅ = Some (log, d) /\
    List.map (fun r => fr_status (snd r)) (frame_runs log)
    = [Done; Done; Done; Failed GeometryDerive; Done] /\
    cleanups log = 3%nat.
Proof.
  destruct (batch_schedule 2 ["1.mae"; "2.mae"; "3.mae"; "4.mae"; "5.mae"])
    as [batches [Hbatches [_ [_ [_ [_ [Hlog _]]]]]]]; [lia | discriminate |].
  assert (Hconcrete : batches = [["1.mae"; "2.mae"]; ["3.mae"; "4.mae"]; ["5.mae"]]).
  { vm_compute in Hbatches. injection Hbatches as <-. reflexivity. }
  assert (Hstatus :
            match run_batches (sample_world []) 2 4 batches ∅ with
            | Some (log, _) => List.map (fun r => fr_status (snd r)) (frame_runs log)
            | None => []
            end = [Done; Done; Done; Failed GeometryDerive; Done]).
  { subst batches. vm_compute. reflexivity. }
  revert Hstatus.
  destruct (run_batches (sample_world []) 2 4 batches ∅) as [[log d]|] eqn:Hrun;
    intros Hstatus; [| discriminate Hstatus].
  exists batches, log, d. destruct (Hlog _ _ _ _ _ _ Hrun) as [_ [_ Hclean]].
  split; [exact Hbatches |]. split; [subst batches; reflexivity |].
  split; [exact Hrun |]. split; [exact Hstatus |].
  rewrite Hclean. subst batches. reflexivity.
Defined.

Lemma pool_width_exact_witness :
  pool_width 4 3 = 2 /\ pool_width 1 3 = 1 /\ pool_width 16 3 = 3.
Proof.
  split; [| split].
  - rewrite (proj1 (pool_width_exact 4 3 ltac:(lia) ltac:(lia))). reflexivity.
  - rewrite (proj1 (pool_width_exact 1 3 ltac:(lia) ltac:(lia))). reflexivity.
  - rewrite (proj1 (pool_width_exact 16 3 ltac:(lia) ltac:(lia))). reflexivity.
Defined.

Lemma empty_selection_exits_witness :
  main {| START_IDX := 7; END_IDX := 9; STEP := 1; USER_NCORES := 4; BATCH_SIZE := 2 |}
       {| schrodinger_isdir := true; input_names := ["1.mae"; "2.mae"];
          PROCESSED_DIR := ∅; HYPOTHESIS_DIR := ∅ |}
       (sample_world []) 2
  = Exit1 NoFramesInRange.
Proof.
  apply (empty_selection_exits
           {| START_IDX := 7; END_IDX := 9; STEP := 1; USER_NCORES := 4; BATCH_SIZE := 2 |}
           {| schrodinger_isdir := true; input_names := ["1.mae"; "2.mae"];
              PROCESSED_DIR := ∅; HYPOTHESIS_DIR := ∅ |}
           (sample_world []) 2); reflexivity.
Defined.

Lemma waiter_returns_newest_or_polls_on_witness :
  exists z,
    wait_for_zip sample_zips 0 5 = Some (2%nat, z) /\
    zname z = "2_grid_input-gridgen.zip" /\
    wait_for_zip (fun _ => []) 0 5 = None.
Proof.
  destruct (waiter_returns_newest_or_polls_on sample_zips) as [_ [Hfound _]].
  destruct (Hfound 1%nat) as [z [Hscan Hwait]].
  - eexists. split; [right; left; reflexivity | reflexivity].
  - intros j e Hj He. assert (j = 0%nat) as -> by lia. destruct He.
  - exists z. destruct (Hwait 5%nat ltac:(lia)) as [Hz _].
    split; [exact Hz |]. split.
    + vm_compute in Hscan. injection Hscan as <-. reflexivity.
    + apply (waiter_returns_newest_or_polls_on (fun _ => [])). intros k e [].
Defined.

(** Two frames, the second of which fails at grid generation: one
    hypothesis is collected. *)
Lemma collection_holds_the_succeeded_witness :
  exists log proc hyp,
    main two_frames_config two_frames_host (sample_world [("2", glide_gridgen)]) 2
    = Completed log proc hyp /\
    List.map (fun r => fr_status (snd r)) (frame_runs log) = [Done; Failed GridGenerate] /\
    size hyp = 1%nat.
Proof.
  assert (Hstatus :
            List.map (fun r => fr_status (snd r))
              (frame_runs (run_log
                 (main two_frames_config two_frames_host
                       (sample_world [("2", glide_gridgen)]) 2)))
            = [Done; Failed GridGenerate]).
  { vm_compute. reflexivity. }
  revert Hstatus.
  destruct (main two_frames_config two_frames_host (sample_world [("2", glide_gridgen)]) 2)
    as [why | e | | log proc hyp] eqn:Hmain;
    intros Hstatus; simpl in Hstatus; try discriminate Hstatus.
  destruct (collection_holds_the_succeeded
              two_frames_config two_frames_host (sample_world [("2", glide_gridgen)]) 2
              log proc hyp Hmain) as [_ Hcontract].
  destruct (Hcontract (sample_world_contract [("2", glide_gridgen)])) as [_ Hclean].
  destruct (Hclean (fun n _ => lookup_empty n) eq_refl
              ltac:(repeat constructor; simpl; intuition discriminate))
    as [_ [Hsize _]].
  exists log, proc, hyp. split; [reflexivity |]. split; [exact Hstatus |].
  rewrite Hsize.
  transitivity (length (List.filter is_done
                          (List.map (fun r => fr_status (snd r)) (frame_runs log)))).
  - clear. induction (frame_runs log) as [|r rs IH]; simpl; [reflexivity |].
    destruct (is_done (fr_status (snd r))); simpl; rewrite IH; reflexivity.
  - rewrite Hstatus. reflexivity.
Defined.

(** * Edge cases and invariants *)

(** ** Equal keys keep their order *)

Section Stability.
Context {A : Type} (before : Z -> Z -> bool).
Hypothesis before_irrefl : forall a, before a a = false.

Lemma insert_by_same_key (k : Z) (x : Z * A) (l : list (Z * A)) :
  List.filter (fun y => fst y =? k) (insert_by before x l) =
  if fst x =? k then x :: List.filter (fun y => fst y =? k) l
  else List.filter (fun y => fst y =? k) l.
Proof.
  induction l as [|y l IH]; simpl.
  - destruct (fst x =? k); reflexivity.
  - destruct (before (fst y) (fst x)) eqn:Hb; simpl.
    + rewrite IH.
      destruct (Z.eqb_spec (fst y) k) as [Hy | Hy]; [| reflexivity].
      destruct (Z.eqb_spec (fst x) k) as [Hx | Hx]; [| reflexivity].
      rewrite Hy, Hx, before_irrefl in Hb. discriminate.
    + destruct (fst x =? k); reflexivity.
Qed.

Lemma sort_by_same_key (k : Z) (l : list (Z * A)) :
  List.filter (fun y => fst y =? k) (sort_by before l) = List.filter (fun y => fst y =? k) l.
Proof.
  induction l as [|x l IH]; simpl; [reflexivity |].
  fold (sort_by before l). rewrite insert_by_same_key, IH.
  destruct (fst x =? k); reflexivity.
Qed.

End Stability.

Lemma filter_map_snd {A} (key : A -> Z) (k : Z) (l : list (Z * A)) :
  (forall x, In x l -> fst x = key (snd x)) ->
  List.filter (fun a => key a =? k) (List.map snd l) =
  List.map snd (List.filter (fun y => fst y =? k) l).
Proof.
  induction l as [|x l IH]; intros H; simpl; [reflexivity |].
  rewrite <- (H x) by (left; reflexivity).
  rewrite IH by (intros y Hy; apply H; right; exact Hy).
  destruct (fst x =? k); reflexivity.
Qed.

Lemma all_maes_inv (names maes : list string) :
  all_maes names = ret maes ->
  (forall f, In f (glob_ext ".mae" names) -> exists i, frame_index f = ret i) /\
  maes = List.map snd (sort_by Z.ltb (List.map (fun f => (index_of f, f)) (glob_ext ".mae" names))).
Proof.
  intros Hmaes.
  assert (Hint : forall f, In f (glob_ext ".mae" names) -> exists i, frame_index f = ret i).
  { intros f Hf. unfold all_maes in Hmaes.
    destruct (decorate frame_index (glob_ext ".mae" names)) as [e | dec] eqn:Hdec;
      [discriminate |].
    destruct (map_result_inv _ _ _ Hdec f Hf) as [[i g] Hfi].
    destruct (frame_index f) as [e | j]; [discriminate |]. exists j. reflexivity. }
  split; [exact Hint |].
  rewrite (all_maes_total names Hint) in Hmaes. injection Hmaes as <-. reflexivity.
Qed.

(** X1.  The enumeration keeps the files that stand for the same integer
    ([1.mae] and [01.mae]) in the order in which the directory lists them:
    the sort of line 73 is stable. *)
Theorem enumeration_is_stable (names maes : list string) (i : Z) :
  all_maes names = ret maes ->
  of_index i maes = of_index i (glob_ext ".mae" names).
Proof.
  intros Hmaes. destruct (all_maes_inv _ _ Hmaes) as [_ ->].
  unfold of_index.
  rewrite (filter_map_snd index_of).
  - rewrite (sort_by_same_key Z.ltb Z.ltb_irrefl). clear Hmaes.
    induction (glob_ext ".mae" names) as [|f l IH]; simpl; [reflexivity |].
    destruct (index_of f =? i); simpl; rewrite IH; reflexivity.
  - intros x Hx. apply sort_by_In, in_map_iff in Hx. destruct Hx as [f [<- _]]. reflexivity.
Qed.

Lemma enumeration_is_stable_witness :
  of_index 1 ["1.mae"; "01.mae"; "2.mae"] = of_index 1 (glob_ext ".mae" ["2.mae"; "1.mae"; "01.mae"]).
Proof.
  apply (enumeration_is_stable ["2.mae"; "1.mae"; "01.mae"] ["1.mae"; "01.mae"; "2.mae"] 1).
  vm_compute. reflexivity.
Defined.

(** ** Strides *)

Lemma in_selection_opp (START END STEP : Z) (f : string) :
  in_selection START END (- STEP) f = in_selection START END STEP f.
Proof.
  unfold in_selection. destruct (frame_index f) as [e | i]; simpl; [reflexivity |].
  destruct ((START <=? i) && (i <=? END)); [| reflexivity].
  destruct (Z.eqb_spec STEP 0) as [-> | Hnz]; [reflexivity |].
  destruct (Z.eqb_spec (- STEP) 0) as [Hz | _]; [lia |].
  f_equal.
  destruct (Z.eqb_spec ((i - START) mod STEP) 0) as [Hm | Hm].
  - apply Z.eqb_eq. apply Z.mod_opp_r_z; [exact Hnz | exact Hm].
  - apply Z.eqb_neq. intros Hm'. apply Hm.
    rewrite <- (Z.opp_involutive STEP). apply Z.mod_opp_r_z; [lia | exact Hm'].
Qed.

Lemma filter_result_ext {A} (f g : A -> Result bool) (l : list A) :
  (forall a, f a = g a) -> filter_result f l = filter_result g l.
Proof.
  intros H. induction l as [|a l IH]; simpl; [reflexivity |]. rewrite H, IH. reflexivity.
Qed.

(** X2.  A negative stride selects what its absolute value selects: the
    remainder of line 74 is zero for [- STEP] exactly when it is for
    [STEP], and the whole script does the same with either. *)
Theorem negative_step_selects_alike (START END STEP : Z) :
  (forall maes, selected_maes START END (- STEP) maes = selected_maes START END STEP maes) /\
  (forall c b h w fuel,
     main {| START_IDX := START; END_IDX := END; STEP := - STEP;
             USER_NCORES := c; BATCH_SIZE := b |} h w fuel =
     main {| START_IDX := START; END_IDX := END; STEP := STEP;
             USER_NCORES := c; BATCH_SIZE := b |} h w fuel).
Proof.
  assert (Hsel : forall maes,
             selected_maes START END (- STEP) maes = selected_maes START END STEP maes).
  { intros maes. unfold selected_maes. apply filter_result_ext. apply in_selection_opp. }
  split; [exact Hsel |].
  intros c b h w fuel. unfold main, select_frames. simpl.
  destruct (all_maes (input_names h)) as [e | maes]; simpl; [reflexivity |].
  rewrite Hsel. reflexivity.
Qed.

Lemma filter_result_fails {A} (f : A -> Result bool) (e : Exn) (l : list A) :
  (forall a, In a l -> f a = raise e \/ exists b, f a = ret b) ->
  (exists a, In a l /\ f a = raise e) ->
  filter_result f l = raise e.
Proof.
  induction l as [|a l IH]; intros Hall [x [Hx Hfx]].
  - destruct Hx.
  - simpl. destruct (Hall a (or_introl eq_refl)) as [Ha | [b Hb]].
    + rewrite Ha. reflexivity.
    + rewrite Hb. simpl.
      destruct Hx as [-> | Hx]; [rewrite Hfx in Hb; discriminate |].
      rewrite IH; [reflexivity | | exists x; split; assumption].
      intros y Hy. apply Hall. right. exact Hy.
Qed.

Lemma in_selection_zero (START END : Z) (f : string) (i : Z) :
  frame_index f = ret i ->
  in_selection START END 0 f =
  if in_window START END i then raise ZeroDivisionError else ret false.
Proof.
  intros Hi. unfold in_selection, in_window. rewrite Hi. simpl.
  destruct ((START <=? i) && (i <=? END)); reflexivity.
Qed.

(** X3.  With a stride of zero and a file whose index lies in the window,
    the selection raises [ZeroDivisionError]; nothing catches it and the
    script ends in it, before a frame is processed. *)
Theorem zero_step_raises (cfg : Config) (h : Host) :
  STEP cfg = 0 ->
  (forall f, In f (glob_ext ".mae" (input_names h)) -> exists i, frame_index f = ret i) ->
  (exists f, In f (glob_ext ".mae" (input_names h)) /\
             START_IDX cfg <= index_of f <= END_IDX cfg) ->
  select_frames cfg h = raise ZeroDivisionError /\
  forall w fuel, schrodinger_isdir h = true -> main cfg h w fuel = Uncaught ZeroDivisionError.
Proof.
  intros Hstep Hint [f [Hf Hwin]].
  assert (Hsel : select_frames cfg h = raise ZeroDivisionError).
  { unfold select_frames. rewrite (all_maes_total _ Hint). simpl.
    unfold selected_maes. rewrite Hstep.
    apply filter_result_fails.
    - intros g Hg. apply (Permutation_in _ (sorted_maes_perm _)) in Hg.
      destruct (Hint g Hg) as [i Hi]. rewrite (in_selection_zero _ _ _ _ Hi).
      destruct (in_window _ _ i); [left; reflexivity | right; eexists; reflexivity].
    - exists f. split.
      + apply (Permutation_in _ (Permutation_sym (sorted_maes_perm _))). exact Hf.
      + destruct (Hint f Hf) as [i Hi]. rewrite (in_selection_zero _ _ _ _ Hi).
        rewrite (frame_index_index_of _ _ Hi) in Hwin. unfold in_window.
        destruct (Z.leb_spec (START_IDX cfg) i); [| lia].
        destruct (Z.leb_spec i (END_IDX cfg)); [| lia]. reflexivity. }
  split; [exact Hsel |].
  intros w fuel Hdir. unfold main. rewrite Hdir, Hsel. reflexivity.
Qed.

Lemma zero_step_raises_witness :
  select_frames {| START_IDX := 1; END_IDX := 5; STEP := 0; USER_NCORES := 4; BATCH_SIZE := 2 |}
                two_frames_host = raise ZeroDivisionError.
Proof.
  apply (zero_step_raises
           {| START_IDX := 1; END_IDX := 5; STEP := 0; USER_NCORES := 4; BATCH_SIZE := 2 |}
           two_frames_host).
  - reflexivity.
  - intros f Hf. vm_compute in Hf.
    repeat (destruct Hf as [<- | Hf]; [eexists; vm_compute; reflexivity |]). destruct Hf.
  - exists "1.mae". split; [vm_compute; tauto | vm_compute; split; discriminate].
Defined.

(** X4.  When no available index lies in the window (as when [START] is
    greater than [END]) the selection is empty and the script exits with
    status 1, whatever the stride: the [and] of line 74 does not evaluate
    the remainder, so not even a stride of zero raises. *)
Theorem empty_window_selects_nothing (cfg : Config) (h : Host) :
  (forall f, In f (glob_ext ".mae" (input_names h)) ->
     exists i, frame_index f = ret i /\ in_window (START_IDX cfg) (END_IDX cfg) i = false) ->
  select_frames cfg h = ret [] /\
  forall w fuel, schrodinger_isdir h = true -> main cfg h w fuel = Exit1 NoFramesInRange.
Proof.
  intros Hout.
  assert (Hint : forall f, In f (glob_ext ".mae" (input_names h)) ->
                           exists i, frame_index f = ret i).
  { intros f Hf. destruct (Hout f Hf) as [i [Hi _]]. exists i. exact Hi. }
  assert (Hsel : select_frames cfg h = ret []).
  { unfold select_frames. rewrite (all_maes_total _ Hint). simpl.
    unfold selected_maes. rewrite (filter_result_total _ (fun _ => false)).
    - induction (List.map snd _) as [|a l IH]; simpl; [reflexivity | exact IH].
    - intros g Hg. apply (Permutation_in _ (sorted_maes_perm _)) in Hg.
      destruct (Hout g Hg) as [i [Hi Hw]]. unfold in_selection, in_window in *.
      rewrite Hi. simpl. rewrite Hw. reflexivity. }
  split; [exact Hsel |].
  intros w fuel Hdir. unfold main. rewrite Hdir, Hsel. reflexivity.
Qed.

Lemma empty_window_selects_nothing_witness :
  select_frames {| START_IDX := 9; END_IDX := 7; STEP := 0; USER_NCORES := 4; BATCH_SIZE := 2 |}
                two_frames_host = ret [].
Proof.
  apply (empty_window_selects_nothing
           {| START_IDX := 9; END_IDX := 7; STEP := 0; USER_NCORES := 4; BATCH_SIZE := 2 |}
           two_frames_host).
  intros f Hf. vm_compute in Hf.
  repeat (destruct Hf as [<- | Hf]; [eexists; vm_compute; split; reflexivity |]). destruct Hf.
Defined.

(** ** Stems of digits *)

Lemma digit_not_space (c : ascii) : is_digit c = true -> is_space c = false.
Proof.
  unfold is_digit, is_space. intros H. apply andb_true_iff in H. destruct H as [H1 H2].
  apply Nat.leb_le in H1, H2.
  destruct (Nat.eqb_spec (nat_of_ascii c) 32); [lia |].
  destruct (Nat.leb_spec 9 (nat_of_ascii c)); [| reflexivity].
  destruct (Nat.leb_spec (nat_of_ascii c) 13); [lia | reflexivity].
Qed.

Lemma digit_codes (c : ascii) :
  is_digit c = true ->
  is_underscore c = false /\ (nat_of_ascii c =? 45)%nat = false /\
  (nat_of_ascii c =? 43)%nat = false /\ 0 <= digit_value c <= 9.
Proof.
  unfold is_digit, is_underscore, digit_value. intros H.
  apply andb_true_iff in H. destruct H as [H1 H2]. apply Nat.leb_le in H1, H2.
  repeat split; try (apply Nat.eqb_neq; lia); lia.
Qed.

Lemma drop_spaces_digits (l : list ascii) :
  forallb is_digit l = true -> drop_spaces l = l.
Proof.
  destruct l as [|c l]; simpl; [reflexivity |]. intros H.
  apply andb_true_iff in H. destruct H as [Hc _].
  rewrite (digit_not_space c Hc). reflexivity.
Qed.

Lemma strip_digits (l : list ascii) : forallb is_digit l = true -> strip l = l.
Proof.
  intros H. unfold strip. rewrite (drop_spaces_digits l H).
  rewrite drop_spaces_digits.
  - apply rev_involutive.
  - apply forallb_forall. intros c Hc. apply in_rev in Hc.
    rewrite forallb_forall in H. apply H. exact Hc.
Qed.

Lemma digits_value_digits (l : list ascii) (acc : Z) (prev : bool) :
  forallb is_digit l = true -> (prev = true \/ l <> []) -> 0 <= acc ->
  exists n, digits_value acc prev l = Some n /\ acc <= n.
Proof.
  revert acc prev. induction l as [|c l IH]; intros acc prev Hd Hne Hacc; simpl.
  - destruct Hne as [-> | Hne]; [| contradiction]. exists acc. split; [reflexivity | lia].
  - simpl in Hd. apply andb_true_iff in Hd. destruct Hd as [Hc Hl].
    destruct (digit_codes c Hc) as [Hu [_ [_ Hv]]]. rewrite Hu, Hc.
    assert (Hacc' : 0 <= 10 * acc + digit_value c) by lia.
    destruct (IH (10 * acc + digit_value c) true Hl (or_introl eq_refl) Hacc')
      as [n [Hn Hle]].
    exists n. split; [exact Hn | lia].
Qed.

Lemma py_int_digits (s : string) :
  is_decimal s = true -> s <> "" -> exists n, py_int s = Some n /\ 0 <= n.
Proof.
  unfold is_decimal, py_int. intros Hd Hne. rewrite (strip_digits _ Hd).
  destruct (chars s) as [|c l] eqn:Hs.
  { destruct s; [contradiction | discriminate]. }
  pose proof Hd as Hd'. simpl in Hd'. apply andb_true_iff in Hd'. destruct Hd' as [Hc _].
  destruct (digit_codes c Hc) as [_ [H45 [H43 _]]]. rewrite H45, H43.
  assert (Hne' : false = true \/ c :: l <> []) by (right; discriminate).
  destruct (digits_value_digits (c :: l) 0 false Hd Hne' (Z.le_refl 0)) as [n [Hn Hle]].
  exists n. split; [exact Hn | exact Hle].
Qed.

(** X5.  A directory whose [*.mae] files all have a stem of decimal digits
    is always enumerated: no [ValueError], every such file is listed, and
    its index is not negative. *)
Theorem digit_stems_enumerate (names : list string) :
  (forall f, In f (glob_ext ".mae" names) -> is_decimal (splitext_root f) = true) ->
  exists maes,
    all_maes names = ret maes /\
    Permutation maes (glob_ext ".mae" names) /\
    Forall (fun f => frame_index f = ret (index_of f) /\ 0 <= index_of f) maes.
Proof.
  intros Hdec.
  assert (Hint : forall f, In f (glob_ext ".mae" names) ->
                           frame_index f = ret (index_of f) /\ 0 <= index_of f).
  { intros f Hf. pose proof (Hdec f Hf) as Hd.
    apply glob_ext_In in Hf. destruct Hf as [_ [Hend Hdot]].
    destruct (glob_name_stem f Hend Hdot) as [_ [_ [c [l Hc]]]].
    destruct (py_int_digits (splitext_root f) Hd) as [n [Hn Hpos]].
    { intros Hempty. rewrite Hempty in Hc. discriminate. }
    unfold index_of, frame_index. rewrite Hn. split; [reflexivity | exact Hpos]. }
  eexists. split; [| split].
  - apply all_maes_total. intros f Hf. exists (index_of f). apply Hint. exact Hf.
  - apply sorted_maes_perm.
  - apply List.Forall_forall. intros f Hf. apply Hint.
    apply (Permutation_in _ (sorted_maes_perm _)). exact Hf.
Qed.

Lemma digit_stems_enumerate_witness :
  exists maes, all_maes ["10.mae"; "9.mae"; "notes.txt"] = ret maes /\
               Permutation maes (glob_ext ".mae" ["10.mae"; "9.mae"; "notes.txt"]) /\
               Forall (fun f => frame_index f = ret (index_of f) /\ 0 <= index_of f) maes.
Proof.
  apply (digit_stems_enumerate ["10.mae"; "9.mae"; "notes.txt"]).
  intros f Hf. vm_compute in Hf.
  repeat (destruct Hf as [<- | Hf]; [reflexivity |]). destruct Hf.
Defined.

(** X6.  For a file that [glob] matched: its stem followed by [.mae] is its
    name again, so the working copy of line 88 carries the name of the
    input file; the stem is not empty; and no other matched file has the
    same stem, so the names [process_frame] builds from [base_index] belong
    to one input file. *)
Theorem stems_identify_frames (names : list string) (f : string) :
  In f (glob_ext ".mae" names) ->
  splitext_root f +:+ ".mae" = f /\
  splitext_root f <> "" /\
  forall g, In g (glob_ext ".mae" names) -> splitext_root g = splitext_root f -> g = f.
Proof.
  intros Hf. apply glob_ext_In in Hf. destruct Hf as [_ [Hend Hdot]].
  destruct (glob_name_stem f Hend Hdot) as [Hname [_ [c [l Hc]]]].
  split; [symmetry; exact Hname | split].
  - intros Hempty. rewrite Hempty in Hc. discriminate.
  - intros g Hg Hroot. apply glob_ext_In in Hg. destruct Hg as [_ [Hgend Hgdot]].
    destruct (glob_name_stem g Hgend Hgdot) as [Hgname _].
    rewrite Hgname, Hname, Hroot. reflexivity.
Qed.

Lemma stems_identify_frames_witness :
  splitext_root "12.mae" +:+ ".mae" = "12.mae" /\
  splitext_root "12.mae" <> "" /\
  forall g, In g (glob_ext ".mae" ["12.mae"; "3.mae"; ".hidden.mae"]) ->
            splitext_root g = splitext_root "12.mae" -> g = "12.mae".
Proof.
  apply (stems_identify_frames ["12.mae"; "3.mae"; ".hidden.mae"] "12.mae").
  vm_compute. tauto.
Defined.

(** ** Batch sizes and pools *)

Lemma pools_collected {A} (g : A -> string) (log : list RunEvent) (files : list A) :
  pools (log ++ List.map (fun f => Collected (g f)) files) = pools log.
Proof.
  induction log as [|e log IH]; simpl.
  - induction files as [|n files IH]; simpl; [reflexivity | exact IH].
  - destruct e; simpl; rewrite IH; reflexivity.
Qed.

Lemma cleanups_collected {A} (g : A -> string) (log : list RunEvent) (files : list A) :
  cleanups (log ++ List.map (fun f => Collected (g f)) files) = cleanups log.
Proof.
  unfold cleanups. induction log as [|e log IH]; simpl.
  - induction files as [|n files IH]; simpl; [reflexivity | exact IH].
  - destruct e; simpl; rewrite IH; reflexivity.
Qed.

(** X7.  A batch size below one processes nothing.  With a non-empty
    selection, a batch size of zero ends the script in the
    [ZeroDivisionError] of line 178; a negative one makes the range of line
    180 empty, so the script completes without a pool, a frame or a
    cleanup, and still collects the hypothesis files that were in the
    working directory. *)
Theorem batch_size_below_one (cfg : Config) (h : Host) (w : World) (fuel : nat) :
  BATCH_SIZE cfg < 1 -> schrodinger_isdir h = true ->
  (exists f rest, select_frames cfg h = ret (f :: rest)) ->
  (BATCH_SIZE cfg = 0 -> main cfg h w fuel = Uncaught ZeroDivisionError) /\
  (BATCH_SIZE cfg < 0 ->
   main cfg h w fuel =
   Completed (List.map (fun f => Collected (fst f)) (phypo_files (PROCESSED_DIR h)))
             (PROCESSED_DIR h) (collect (PROCESSED_DIR h) (HYPOTHESIS_DIR h))) /\
  frame_runs (run_log (main cfg h w fuel)) = [] /\
  pools (run_log (main cfg h w fuel)) = [] /\
  cleanups (run_log (main cfg h w fuel)) = 0%nat.
Proof.
  intros Hb Hdir [f [rest Hsel]].
  assert (Hzero : BATCH_SIZE cfg = 0 -> main cfg h w fuel = Uncaught ZeroDivisionError).
  { intros Hz. unfold main. rewrite Hdir, Hsel. simpl. unfold total_batches.
    rewrite Hz. reflexivity. }
  assert (Hneg : BATCH_SIZE cfg < 0 ->
                 main cfg h w fuel =
                 Completed (List.map (fun f => Collected (fst f)) (phypo_files (PROCESSED_DIR h)))
                           (PROCESSED_DIR h) (collect (PROCESSED_DIR h) (HYPOTHESIS_DIR h))).
  { intros Hn. unfold main. rewrite Hdir, Hsel. simpl. unfold total_batches.
    destruct (Z.eqb_spec (BATCH_SIZE cfg) 0) as [Hz | _]; [lia |]. simpl.
    destruct (batches_of (BATCH_SIZE cfg) (f :: rest)) as [e | batches] eqn:Hbatches.
    - unfold batches_of, py_range in Hbatches.
      destruct (Z.eqb_spec (BATCH_SIZE cfg) 0) as [Hz | _]; [lia | discriminate].
    - destruct (batches_of_cases _ _ _ Hbatches) as [[Hpos _] | [_ ->]]; [lia |].
      reflexivity. }
  split; [exact Hzero | split; [exact Hneg |]].
  destruct (Z.eq_dec (BATCH_SIZE cfg) 0) as [Hz | Hnz].
  - rewrite (Hzero Hz). repeat split; reflexivity.
  - rewrite Hneg by lia. simpl. repeat split.
    + apply (frame_runs_collected fst []).
    + apply (pools_collected fst []).
    + apply (cleanups_collected fst []).
Qed.

Lemma batch_size_below_one_witness :
  main {| START_IDX := 1; END_IDX := 2; STEP := 1; USER_NCORES := 4; BATCH_SIZE := -2 |}
       two_frames_host (sample_world []) 3 = Completed [] ∅ ∅.
Proof.
  apply (batch_size_below_one
           {| START_IDX := 1; END_IDX := 2; STEP := 1; USER_NCORES := 4; BATCH_SIZE := -2 |}
           two_frames_host (sample_world []) 3).
  - reflexivity.
  - reflexivity.
  - exists "1.mae", ["2.mae"]. vm_compute. reflexivity.
  - reflexivity.
Defined.

(** X8.  In a run that completes, every pool was created with at least
    one process and with no more processes than the batch size: the
    argument of [Pool] is never zero. *)
Theorem pool_is_never_empty (cfg : Config) (h : Host) (w : World) (fuel : nat)
    (log : list RunEvent) (proc hyp : Dir) :
  main cfg h w fuel = Completed log proc hyp ->
  Forall (fun p => 1 <= p <= BATCH_SIZE cfg) (pools log).
Proof.
  intros Hmain.
  destruct (main_completed _ _ _ _ _ _ _ Hmain)
    as [selected [batches [log0 [_ [Hbatches [Hrun [-> _]]]]]]].
  rewrite pools_collected.
  destruct (run_batches_log _ _ _ _ _ _ _ Hrun) as [_ [_ [-> _]]].
  destruct (batches_of_cases _ _ _ Hbatches) as [[Hpos _] | [_ ->]]; [| constructor].
  destruct (batches_of_partition selected (Z.to_nat (BATCH_SIZE cfg)) ltac:(lia))
    as [bs [Hbs [_ [_ Hsizes]]]].
  rewrite Z2Nat.id in Hbs by lia. rewrite Hbs in Hbatches. injection Hbatches as <-.
  apply List.Forall_forall. intros p Hp. apply in_map_iff in Hp.
  destruct Hp as [batch [<- Hin]].
  apply In_nth_error in Hin. destruct Hin as [i Hi].
  destruct (Hsizes i batch Hi) as [Hlen _]. unfold pool_width. lia.
Qed.

Lemma pool_is_never_empty_witness :
  exists log proc hyp,
    main two_frames_config two_frames_host (sample_world []) 2 = Completed log proc hyp /\
    pools log = [2] /\
    Forall (fun p => 1 <= p <= 2) (pools log).
Proof.
  assert (Hpools :
            pools (run_log (main two_frames_config two_frames_host (sample_world []) 2)) = [2]).
  { vm_compute. reflexivity. }
  revert Hpools.
  destruct (main two_frames_config two_frames_host (sample_world []) 2)
    as [why | e | | log proc hyp] eqn:Hmain;
    intros Hpools; simpl in Hpools; try discriminate Hpools.
  exists log, proc, hyp. split; [reflexivity |]. split; [exact Hpools |].
  apply (pool_is_never_empty two_frames_config two_frames_host (sample_world []) 2
           log proc hyp Hmain).
Defined.

(** ** Exceptions at the top level *)

Lemma decorate_raises {A} (key : A -> Result Z) (l : list A) (e : Exn) :
  decorate key l = raise e -> exists a, In a l /\ key a = raise e.
Proof.
  unfold decorate. induction l as [|a l IH]; simpl; [discriminate |].
  destruct (key a) as [e' | k] eqn:Hk; simpl.
  - intros H. injection H as ->. exists a. split; [left; reflexivity | exact Hk].
  - destruct (map_result _ l) as [e' | bs]; simpl; [| discriminate].
    intros H. injection H as ->. destruct (IH eq_refl) as [x [Hx Hkx]].
    exists x. split; [right; exact Hx | exact Hkx].
Qed.

Lemma filter_result_raises {A} (f : A -> Result bool) (l : list A) (e : Exn) :
  filter_result f l = raise e -> exists a, In a l /\ f a = raise e.
Proof.
  induction l as [|a l IH]; simpl; [discriminate |].
  destruct (f a) as [e' | k] eqn:Hk; simpl.
  - intros H. injection H as ->. exists a. split; [left; reflexivity | exact Hk].
  - destruct (filter_result f l) as [e' | bs]; simpl; [| discriminate].
    intros H. injection H as ->. destruct (IH eq_refl) as [x [Hx Hkx]].
    exists x. split; [right; exact Hx | exact Hkx].
Qed.

Lemma select_frames_raises (cfg : Config) (h : Host) (e : Exn) :
  select_frames cfg h = raise e ->
  (e = ValueError /\
   exists f, In f (glob_ext ".mae" (input_names h)) /\ py_int (splitext_root f) = None) \/
  (e = ZeroDivisionError /\ STEP cfg = 0 /\
   exists f, In f (glob_ext ".mae" (input_names h)) /\
             START_IDX cfg <= index_of f <= END_IDX cfg).
Proof.
  unfold select_frames. intros H.
  destruct (all_maes (input_names h)) as [e' | maes] eqn:Hmaes; simpl in H.
  - injection H as ->. left. unfold all_maes in Hmaes.
    destruct (decorate frame_index _) as [e' | dec] eqn:Hdec; [| discriminate].
    simpl in Hmaes. injection Hmaes as ->.
    destruct (decorate_raises _ _ _ Hdec) as [f [Hf Hkey]].
    unfold frame_index in Hkey.
    destruct (py_int (splitext_root f)) as [i|] eqn:Hi; [discriminate |].
    injection Hkey as <-. split; [reflexivity |]. exists f. split; assumption.
  - right. destruct (filter_result_raises _ _ _ H) as [f [Hf Hraise]].
    apply (Permutation_in _ (all_maes_perm _ _ Hmaes)) in Hf.
    unfold in_selection in Hraise.
    destruct (frame_index f) as [e' | i] eqn:Hi; simpl in Hraise.
    + exfalso. unfold all_maes in Hmaes.
      destruct (decorate frame_index _) as [e'' | dec] eqn:Hdec; [discriminate |].
      destruct (map_result_inv _ _ _ Hdec f Hf) as [[j g] Hfj].
      rewrite Hi in Hfj. discriminate.
    + destruct ((START_IDX cfg <=? i) && (i <=? END_IDX cfg)) eqn:Hwin; [| discriminate].
      destruct (Z.eqb_spec (STEP cfg) 0) as [Hz | _]; [| discriminate].
      injection Hraise as <-. split; [reflexivity | split; [exact Hz |]].
      exists f. split; [exact Hf |]. rewrite (frame_index_index_of _ _ Hi).
      apply andb_true_iff in Hwin. lia.
Qed.

(** X9.  The exceptions that end the script before its first batch: a
    [ValueError], and then the stem of some [*.mae] file is no integer
    literal, or a [ZeroDivisionError], and then the stride or the batch
    size is zero.  The [ValueError] of [range] with a zero step is never
    reached. *)
Theorem uncaught_exceptions (cfg : Config) (h : Host) (w : World) (fuel : nat) (e : Exn) :
  main cfg h w fuel = Uncaught e ->
  (e = ValueError /\
   exists f, In f (glob_ext ".mae" (input_names h)) /\ py_int (splitext_root f) = None) \/
  (e = ZeroDivisionError /\ (STEP cfg = 0 \/ BATCH_SIZE cfg = 0)).
Proof.
  unfold main. intros H.
  destruct (schrodinger_isdir h); [| discriminate]. simpl in H.
  destruct (select_frames cfg h) as [e' | [|f selected]] eqn:Hsel; try discriminate.
  - injection H as ->.
    destruct (select_frames_raises _ _ _ Hsel) as [Hv | [He [Hstep _]]].
    + left. exact Hv.
    + right. split; [exact He | left; exact Hstep].
  - unfold total_batches in H.
    destruct (Z.eqb_spec (BATCH_SIZE cfg) 0) as [Hz | Hnz]; simpl in H.
    + injection H as <-. right. split; [reflexivity | right; exact Hz].
    + exfalso. unfold batches_of, py_range in H.
      destruct (Z.eqb_spec (BATCH_SIZE cfg) 0) as [Hz | _]; [contradiction |].
      simpl in H. destruct (run_batches _ _ _ _ _) as [[log proc]|]; discriminate.
Qed.

Lemma uncaught_exceptions_witness :
  (ZeroDivisionError = ValueError /\
   exists f, In f (glob_ext ".mae" (input_names two_frames_host)) /\
             py_int (splitext_root f) = None) \/
  (ZeroDivisionError = ZeroDivisionError /\ (1 = 0 \/ 0 = 0)).
Proof.
  apply (uncaught_exceptions
           {| START_IDX := 1; END_IDX := 2; STEP := 1; USER_NCORES := 4; BATCH_SIZE := 0 |}
           two_frames_host (sample_world []) 3 ZeroDivisionError).
  vm_compute. reflexivity.
Defined.

(** ** Defaults *)

Lemma int_of_three_quarters (n : Z) : int_of_float (inject_Z n * (3 # 4)) = Z.quot (3 * n) 4.
Proof. unfold int_of_float. simpl. f_equal. lia. Qed.

(** X10.  The default of [--ncores] and [--batch] is at least one; it is
    three when the number of cores is unknown (or zero); for two cores or
    more it is three quarters of them, rounded down, hence less than all of
    them.  With [--step] and [--batch] left out, the stride is one and the
    batch size at least one. *)
Theorem default_cores_bounds (cpu_count : option Z) :
  1 <= get_default_cores cpu_count /\
  (cpu_count = None \/ cpu_count = Some 0 -> get_default_cores cpu_count = 3) /\
  (forall n, cpu_count = Some n -> 2 <= n ->
     4 * get_default_cores cpu_count <= 3 * n < 4 * (get_default_cores cpu_count + 1) /\
     get_default_cores cpu_count < n) /\
  (forall a,
     args_step a = None -> args_batch a = None ->
     STEP (config_of_args cpu_count a) = 1 /\ 1 <= BATCH_SIZE (config_of_args cpu_count a)).
Proof.
  assert (Hone : 1 <= get_default_cores cpu_count).
  { unfold get_default_cores. lia. }
  split; [exact Hone | split; [| split]].
  - intros [-> | ->]; reflexivity.
  - intros n -> Hn. unfold get_default_cores.
    destruct (Z.eqb_spec n 0) as [Hz | _]; [lia |].
    rewrite int_of_three_quarters.
    pose proof (Z.quot_rem' (3 * n) 4) as Hqr.
    pose proof (Z.rem_bound_pos (3 * n) 4 ltac:(lia) ltac:(lia)) as Hr.
    lia.
  - intros a Hstep Hbatch. unfold config_of_args. simpl. rewrite Hstep, Hbatch. simpl.
    split; [reflexivity | exact Hone].
Qed.

(** ** The frame, case by case *)

Lemma append_ne (b s t : string) : s <> t -> b +:+ s <> b +:+ t.
Proof.
  intros Hne Heq. apply Hne. apply chars_inj.
  apply (f_equal chars) in Heq. rewrite !chars_append in Heq.
  apply app_inv_head in Heq. exact Heq.
Qed.

Ltac run_pipe :=
  cbv beta iota zeta delta
    [process_frame frame_pipeline pbind try_except nice_run emit modify_cwd pret praise
     os_rename get_cwd shell_rm ligand_center mean write_csv poll_gridzip
     except_CalledProcessError except_Exception trace cwd fst snd status_of
     fr_status fr_trace cmds_run programs_by all_programs List.map List.fold_right app].

Ltac names_differ := apply append_ne; discriminate.

Lemma prepared_lookup (w : World) (b v : string) (d : Dir) :
  (outputs w b prepwizard ∪ <[b +:+ ".mae" := v]> d) !! (b +:+ "_pH7.4_prepared.mae") =
  prepared_structure w b d.
Proof.
  unfold prepared_structure. rewrite !lookup_union.
  rewrite lookup_insert_ne by names_differ. reflexivity.
Qed.

Lemma ligand_lookup (w : World) (b v data : string) (d : Dir) :
  (outputs w b pv_convert_split_receptor ∪
   (outputs w b pv_convert_split_ligand ∪
    delete (b +:+ "-protassign.log")
      (delete (b +:+ "-protassign.mae")
         (delete (b +:+ "-protassign-out.mae")
            (<[b +:+ "_prepared.mae" := data]>
               (delete (b +:+ "_pH7.4_prepared.mae")
                  (outputs w b prepwizard ∪ <[b +:+ ".mae" := v]> d)))))))
    !! (b +:+ "_prepared-out_lig.mae") =
  ligand_structure w b d.
Proof.
  unfold ligand_structure. rewrite !lookup_union.
  rewrite !lookup_delete_ne by names_differ.
  rewrite lookup_insert_ne by names_differ.
  rewrite lookup_delete_ne by names_differ.
  rewrite lookup_union.
  rewrite lookup_insert_ne by names_differ. reflexivity.
Qed.

Lemma process_frame_status (w : World) (fuel : nat) (mae : string) (d : Dir) :
  fr_status (fst (process_frame w fuel mae d)) = status_table w fuel (splitext_root mae) d.
Proof.
  unfold status_table, readable_ligand. run_pipe. set (b := splitext_root mae).
  destruct (exit_status w b prepwizard =? 0); run_pipe; [| reflexivity].
  rewrite prepared_lookup.
  destruct (prepared_structure w b d) as [prepared|]; run_pipe; [| reflexivity].
  rewrite bool_decide_true by eauto. cbn [negb].
  destruct (exit_status w b pv_convert_split_ligand =? 0); run_pipe; [| reflexivity].
  destruct (exit_status w b pv_convert_split_receptor =? 0); run_pipe; [| reflexivity].
  rewrite ligand_lookup.
  destruct (ligand_structure w b d) as [data|]; run_pipe; [| reflexivity].
  destruct (read_structure w data) as [[|a atoms]|]; run_pipe; try reflexivity.
  destruct (exit_status w b glide_gridgen =? 0); run_pipe; [| reflexivity].
  destruct (wait_for_zip (zips_seen w b) 0 fuel) as [[n z]|]; run_pipe; [| reflexivity].
  rewrite bool_decide_true by eauto. cbn [negb].
  destruct (exit_status w b epharmacophores =? 0); reflexivity.
Qed.

(** X11.  The programs a frame has run, by the way it ended: each program
    at most once, in the order of the source, none skipped, up to the last
    one the frame started. *)
Theorem programs_run_by_status (w : World) (fuel : nat) (mae : string) (d : Dir) :
  programs_by (fr_status (fst (process_frame w fuel mae d)))
              (cmds_run (fr_trace (fst (process_frame w fuel mae d)))).
Proof.
  run_pipe. set (b := splitext_root mae).
  destruct (exit_status w b prepwizard =? 0); run_pipe; [| reflexivity].
  destruct (_ !! (b +:+ "_pH7.4_prepared.mae")) as [prepared|]; run_pipe; [| reflexivity].
  destruct (exit_status w b pv_convert_split_ligand =? 0); run_pipe; [| left; reflexivity].
  destruct (exit_status w b pv_convert_split_receptor =? 0); run_pipe; [| right; reflexivity].
  destruct (_ !! (b +:+ "_prepared-out_lig.mae")) as [data|]; run_pipe; [| reflexivity].
  destruct (read_structure w data) as [[|a atoms]|]; run_pipe; try reflexivity.
  destruct (exit_status w b glide_gridgen =? 0); run_pipe; [| reflexivity].
  destruct (wait_for_zip (zips_seen w b) 0 fuel) as [[n z]|]; run_pipe; [| reflexivity].
  destruct (exit_status w b epharmacophores =? 0); reflexivity.
Qed.

Ltac table_cases w b d fuel :=
  unfold status_table;
  destruct (Z.eqb_spec (exit_status w b prepwizard) 0);
  destruct (bool_decide_reflect (is_Some (prepared_structure w b d)));
  destruct (Z.eqb_spec (exit_status w b pv_convert_split_ligand) 0);
  destruct (Z.eqb_spec (exit_status w b pv_convert_split_receptor) 0);
  destruct (readable_ligand w b d);
  destruct (Z.eqb_spec (exit_status w b glide_gridgen) 0);
  destruct (bool_decide_reflect (is_Some (wait_for_zip (zips_seen w b) 0 fuel)));
  destruct (Z.eqb_spec (exit_status w b epharmacophores) 0);
  cbn [negb].

(** X12.  When prepwizard exits with status zero and the prepared
    structure is not in the working directory afterwards, [os.rename]
    (line 98) raises [FileNotFoundError], which the except clause of the
    first stage does not catch: the exception leaves [process_frame] right
    after the rename was attempted, prepwizard being the one program that
    was run, and a run whose batch starts with this frame does not get
    past that batch. *)
Theorem rename_failure_escapes (w : World) (fuel : nat) (mae : string) (d : Dir) :
  exit_status w (splitext_root mae) prepwizard = 0 ->
  prepared_structure w (splitext_root mae) d = None ->
  fr_status (fst (process_frame w fuel mae d)) = Crashed FileNotFoundError /\
  fr_trace (fst (process_frame w fuel mae d)) =
    [ECopyIn mae (splitext_root mae +:+ ".mae");
     ERun prepwizard
       [File (splitext_root mae +:+ ".mae"); File (splitext_root mae +:+ "_pH7.4_prepared.mae");
        Lit "-NOJOBID"; Lit "-noimpref"; Lit "-noepik"; Lit "-propka_pH"; Lit "7.4";
        Lit "-keepfarwat"];
     ERename (splitext_root mae +:+ "_pH7.4_prepared.mae")
             (splitext_root mae +:+ "_prepared.mae")] /\
  (forall c rest more, run_batches w fuel c ((mae :: rest) :: more) d = None).
Proof.
  intros Hexit Hprep.
  assert (Hframe :
            fr_status (fst (process_frame w fuel mae d)) = Crashed FileNotFoundError /\
            fr_trace (fst (process_frame w fuel mae d)) =
              [ECopyIn mae (splitext_root mae +:+ ".mae");
               ERun prepwizard
                 [File (splitext_root mae +:+ ".mae");
                  File (splitext_root mae +:+ "_pH7.4_prepared.mae");
                  Lit "-NOJOBID"; Lit "-noimpref"; Lit "-noepik"; Lit "-propka_pH"; Lit "7.4";
                  Lit "-keepfarwat"];
               ERename (splitext_root mae +:+ "_pH7.4_prepared.mae")
                       (splitext_root mae +:+ "_prepared.mae")]).
  { run_pipe. set (b := splitext_root mae) in *.
    rewrite Hexit, Z.eqb_refl. run_pipe. rewrite prepared_lookup, Hprep.
    split; reflexivity. }
  destruct Hframe as [Hstatus Htrace].
  split; [exact Hstatus | split; [exact Htrace |]].
  intros c rest more. simpl.
  destruct (process_frame w fuel mae d) as [r d1]. simpl in Hstatus.
  rewrite Hstatus. simpl. unfold all_terminal. simpl. rewrite Hstatus. reflexivity.
Qed.

(** X13.  A frame runs to the end of [process_frame] exactly when every
    program exits with status zero, the prepared structure is there to be
    renamed, the ligand file is there and its first structure has an atom,
    and a scan within the fuel finds a grid archive. *)
Theorem frame_done_iff (w : World) (fuel : nat) (mae : string) (d : Dir) :
  fr_status (fst (process_frame w fuel mae d)) = Done <->
  Forall (fun c => exit_status w (splitext_root mae) c = 0) all_programs /\
  is_Some (prepared_structure w (splitext_root mae) d) /\
  readable_ligand w (splitext_root mae) d = true /\
  is_Some (wait_for_zip (zips_seen w (splitext_root mae)) 0 fuel).
Proof.
  rewrite (process_frame_status w fuel mae d). unfold all_programs.
  set (b := splitext_root mae).
  rewrite !Forall_cons, Forall_nil.
  table_cases w b d fuel;
    (split; [intros H; try discriminate H; tauto |]);
    intros [[H1 [H2 [H3 [H4 [H5 _]]]]] [Hp [Hl Hw]]];
    try contradiction; try discriminate Hl; reflexivity.
Qed.

(** X14.  When a frame ends in which except clause, and when it is left
    waiting: each stage fails exactly when the stages before it went
    through and its own program exits with a non-zero status, the geometry
    stage when the ligand file is missing or unreadable or has no atom;
    the frame waits when grid generation went through and no scan within
    the fuel finds an archive. *)
Theorem failed_stage_iff (w : World) (fuel : nat) (mae : string) (d : Dir) :
  let b := splitext_root mae in
  let st := fr_status (fst (process_frame w fuel mae d)) in
  let ok := fun c => exit_status w b c = 0 in
  let prepared := ok prepwizard /\ is_Some (prepared_structure w b d) in
  let split := prepared /\ ok pv_convert_split_ligand /\ ok pv_convert_split_receptor in
  let centred := split /\ readable_ligand w b d = true in
  let gridded := centred /\ ok glide_gridgen in
  (st = Failed Prepare <-> ~ ok prepwizard) /\
  (st = Failed Split <->
     prepared /\ (~ ok pv_convert_split_ligand \/ ~ ok pv_convert_split_receptor)) /\
  (st = Failed GeometryDerive <-> split /\ readable_ligand w b d = false) /\
  (st = Failed GridGenerate <-> centred /\ ~ ok glide_gridgen) /\
  (st = Hung <-> gridded /\ wait_for_zip (zips_seen w b) 0 fuel = None) /\
  (st = Failed HypothesisGenerate <->
     gridded /\ is_Some (wait_for_zip (zips_seen w b) 0 fuel) /\ ~ ok epharmacophores).
Proof.
  cbv zeta. rewrite (process_frame_status w fuel mae d).
  set (b := splitext_root mae).
  rewrite (eq_None_not_Some (wait_for_zip (zips_seen w b) 0 fuel)).
  table_cases w b d fuel;
    repeat split; intros; try discriminate; try tauto;
    repeat match goal with H : _ /\ _ |- _ => destruct H end;
    try contradiction; try discriminate; tauto.
Qed.

(** ** Files that stay *)

Section Kept.
Variable w : World.
Variable b : string.
Variable n : string.
Hypothesis not_removed : ~ In n (removed_names b).

Abbreviation holds := (holds_name n).

Lemma kept_emit (e : Event) : preserves holds (emit e).
Proof. apply preserves_emit. intros s Hs. exact Hs. Qed.

Lemma kept_insert (k v : string) : preserves holds (modify_cwd (fun d => <[k := v]> d)).
Proof.
apply preserves_modify_cwd. intros s Hs. unfold holds_name in *. simpl.
apply lookup_insert_is_Some'. right. exact Hs.
Qed.

Lemma kept_nice_run (c : Cmd) (argv : list Arg) : preserves holds (nice_run w b c argv).
Proof.
unfold nice_run.
apply preserves_bind; [apply kept_emit | intros _].
apply preserves_bind.
- apply preserves_modify_cwd. intros s Hs. unfold holds_name in *. simpl.
  apply lookup_union_is_Some. right. exact Hs.
- intros _. destruct (_ =? 0); [apply preserves_pret | apply preserves_praise].
Qed.

Lemma kept_delete (k : string) (d : Dir) : n <> k -> is_Some (d !! n) -> is_Some (delete k d !! n).
Proof. intros Hne Hd. rewrite lookup_delete_ne by congruence. exact Hd. Qed.

Lemma kept_os_rename (dst : string) :
preserves holds (os_rename (b +:+ "_pH7.4_prepared.mae") dst).
Proof.
unfold os_rename.
apply preserves_bind; [apply kept_emit | intros _].
apply preserves_bind; [apply preserves_get_cwd | intros d].
destruct (d !! _) as [data|]; [| apply preserves_praise].
apply preserves_modify_cwd. intros s Hs. unfold holds_name in *. simpl.
apply lookup_insert_is_Some'. right. apply kept_delete; [| exact Hs].
intros ->. apply not_removed. simpl. tauto.
Qed.

Lemma kept_shell_rm :
preserves holds
  (shell_rm [b +:+ "-protassign.log"; b +:+ "-protassign.mae"; b +:+ "-protassign-out.mae"]).
Proof.
unfold shell_rm.
apply preserves_bind; [apply kept_emit | intros _].
apply preserves_modify_cwd. intros s Hs. unfold holds_name in *. simpl.
repeat (apply kept_delete; [intros ->; apply not_removed; simpl; tauto |]).
exact Hs.
Qed.

Lemma kept_ligand_center (lig : string) : preserves holds (ligand_center w lig).
Proof.
unfold ligand_center.
apply preserves_bind; [apply kept_emit | intros _].
apply preserves_bind; [apply preserves_get_cwd | intros d].
destruct (d !! lig) as [data|]; [| apply preserves_praise].
destruct (read_structure w data) as [atoms|]; [| apply preserves_praise].
unfold mean.
repeat (apply preserves_bind;
        [match goal with
         | |- preserves _ (match ?l with [] => _ | _ :: _ => _ end) =>
             destruct l; [apply preserves_praise | apply preserves_pret]
         end | intros ?]).
apply preserves_pret.
Qed.

Lemma kept_poll_gridzip (fuel : nat) : preserves holds (poll_gridzip w fuel b).
Proof.
unfold poll_gridzip. destruct (wait_for_zip _ _ _) as [[k z]|].
- apply preserves_bind; [apply kept_emit | intros _]. apply preserves_pret.
- intros s s' r Hrun Hs. injection Hrun as <- <-. exact Hs.
Qed.

End Kept.

Lemma frame_pipeline_keeps (w : World) (fuel : nat) (mae n : string) :
  ~ In n (removed_names (splitext_root mae)) ->
  preserves (holds_name n) (frame_pipeline w fuel mae).
Proof.
  intros Hn. unfold frame_pipeline. cbv zeta. set (b := splitext_root mae).
  apply preserves_bind; [apply kept_emit | intros _].
  apply preserves_bind; [apply kept_insert | intros _].
  apply preserves_bind; [| intros _].
  { apply preserves_try_except.
    apply preserves_bind; [apply kept_nice_run | intros _].
    apply preserves_bind; [apply kept_os_rename; exact Hn | intros _].
    apply kept_shell_rm. exact Hn. }
  apply preserves_bind; [| intros _].
  { apply preserves_try_except.
    apply preserves_bind; [apply kept_nice_run | intros _]. apply kept_nice_run. }
  apply preserves_bind; [apply preserves_try_except; apply kept_ligand_center | intros center].
  apply preserves_bind; [| intros _].
  { unfold write_csv. apply preserves_bind; [apply kept_emit | intros _]. apply kept_insert. }
  apply preserves_bind; [apply preserves_try_except; apply kept_nice_run | intros _].
  apply preserves_bind; [apply kept_poll_gridzip | intros z].
  apply preserves_bind; [apply kept_emit | intros _].
  apply preserves_bind; [apply kept_insert | intros _].
  apply preserves_try_except. apply kept_nice_run.
Qed.

Lemma pool_map_keeps (w : World) (fuel : nat) (batch : list string) (d : Dir) (n : string) :
  (forall mae, In mae batch -> ~ In n (removed_names (splitext_root mae))) ->
  is_Some (d !! n) -> is_Some (snd (pool_map w fuel batch d) !! n).
Proof.
  revert d. induction batch as [|mae rest IH]; intros d Hn Hd; simpl; [exact Hd |].
  assert (Hd1 : is_Some (snd (process_frame w fuel mae d) !! n)).
  { unfold process_frame.
    destruct (frame_pipeline w fuel mae {| trace := []; cwd := d |}) as [s r] eqn:Hrun.
    apply (frame_pipeline_keeps w fuel mae n (Hn mae (or_introl eq_refl)) _ _ _ Hrun). exact Hd. }
  destruct (process_frame w fuel mae d) as [r d1]. simpl in Hd1.
  destruct (terminal (fr_status r)); [| exact Hd1].
  specialize (IH d1 (fun m Hm => Hn m (or_intror Hm)) Hd1).
  destruct (pool_map w fuel rest d1) as [rs d2]. exact IH.
Qed.

Lemma run_batches_keeps (w : World) (fuel : nat) (c : Z) (batches : list (list string))
    (d d' : Dir) (log : list RunEvent) (n : string) :
  (forall mae, In mae (List.concat batches) -> ~ In n (removed_names (splitext_root mae))) ->
  run_batches w fuel c batches d = Some (log, d') ->
  is_Some (d !! n) -> is_Some (d' !! n).
Proof.
  revert d log. induction batches as [|batch rest IH]; intros d log Hn Hrun Hd; simpl in Hrun.
  - injection Hrun as <- <-. exact Hd.
  - pose proof (pool_map_keeps w fuel batch d n) as Hbatch.
    destruct (pool_map w fuel batch d) as [rs d1]. simpl in Hbatch.
    destruct (all_terminal rs); [| discriminate].
    destruct (run_batches w fuel c rest d1) as [[log1 d2]|] eqn:Hrest; [| discriminate].
    injection Hrun as <- <-.
    apply (IH d1 log1); [| exact Hrest |].
    + intros mae Hmae. apply Hn. simpl. apply in_or_app. right. exact Hmae.
    + apply Hbatch; [| exact Hd].
      intros mae Hmae. apply Hn. simpl. apply in_or_app. left. exact Hmae.
Qed.

Ltac removes_own :=
  repeat (constructor;
          [let x := fresh "x" in
           let Hx := fresh "Hx" in
           intros x Hx; unfold removals, removed_names in *; simpl in *; tauto |]);
  constructor.

Lemma process_frame_removals (w : World) (fuel : nat) (mae : string) (d : Dir) :
  Forall (fun e => incl (removals e) (removed_names (splitext_root mae)))
         (fr_trace (fst (process_frame w fuel mae d))).
Proof.
  run_pipe. set (b := splitext_root mae).
  destruct (exit_status w b prepwizard =? 0); run_pipe; [| removes_own].
  destruct (_ !! (b +:+ "_pH7.4_prepared.mae")) as [prepared|]; run_pipe; [| removes_own].
  destruct (exit_status w b pv_convert_split_ligand =? 0); run_pipe; [| removes_own].
  destruct (exit_status w b pv_convert_split_receptor =? 0); run_pipe; [| removes_own].
  destruct (_ !! (b +:+ "_prepared-out_lig.mae")) as [data|]; run_pipe; [| removes_own].
  destruct (read_structure w data) as [[|a atoms]|]; run_pipe; try removes_own.
  destruct (exit_status w b glide_gridgen =? 0); run_pipe; [| removes_own].
  destruct (wait_for_zip (zips_seen w b) 0 fuel) as [[k z]|]; run_pipe; [| removes_own].
  destruct (exit_status w b epharmacophores =? 0); removes_own.
Qed.

(** X15.  What [process_frame] itself takes away from the working
    directory, for a frame whose stem is a run of digits: the source of its
    rename and the three operands of its [rm -f], and nothing else.  The
    external programs being taken to leave files and to remove none, a file
    under any other name is still there after the frame, and after a whole
    run when no frame of the run removes that name. *)
Theorem working_files_are_kept (w : World) (fuel : nat) :
  (forall mae d,
     is_decimal (splitext_root mae) = true ->
     Forall (fun e => incl (removals e) (removed_names (splitext_root mae)))
            (fr_trace (fst (process_frame w fuel mae d)))) /\
  (forall n mae d,
     is_decimal (splitext_root mae) = true ->
     ~ In n (removed_names (splitext_root mae)) ->
     is_Some (d !! n) -> is_Some (snd (process_frame w fuel mae d) !! n)) /\
  (forall n c batches d log d',
     Forall (fun mae => is_decimal (splitext_root mae) = true) (List.concat batches) ->
     (forall mae, In mae (List.concat batches) -> ~ In n (removed_names (splitext_root mae))) ->
     run_batches w fuel c batches d = Some (log, d') ->
     is_Some (d !! n) -> is_Some (d' !! n)).
Proof.
  split; [| split].
  - intros mae d _. apply process_frame_removals.
  - intros n mae d _ Hn Hd. unfold process_frame.
    destruct (frame_pipeline w fuel mae {| trace := []; cwd := d |}) as [s r] eqn:Hrun.
    apply (frame_pipeline_keeps w fuel mae n Hn _ _ _ Hrun). exact Hd.
  - intros n c batches d log d' _. apply run_batches_keeps.
Qed.

Lemma working_files_are_kept_witness :
  is_Some (snd (process_frame (sample_world []) 2 "1.mae" {[ "notes.txt" := "kept" ]})
             !! "notes.txt").
Proof.
  apply (proj1 (proj2 (working_files_are_kept (sample_world []) 2))
           "notes.txt" "1.mae" {[ "notes.txt" := "kept" ]}).
  - reflexivity.
  - vm_compute. intuition discriminate.
  - rewrite lookup_singleton_eq. eexists. reflexivity.
Defined.

(** ** Files a frame leaves *)

Ltac run_pipe_dir :=
  cbv beta iota zeta delta
    [process_frame frame_pipeline pbind try_except nice_run emit modify_cwd pret praise
     os_rename get_cwd shell_rm ligand_center mean write_csv poll_gridzip
     except_CalledProcessError except_Exception trace cwd fst snd status_of
     fr_status fr_trace left_behind List.map List.fold_right app].

Ltac is_left :=
  repeat first
    [ rewrite lookup_insert_eq; eexists; reflexivity
    | rewrite lookup_union_is_Some; right
    | rewrite lookup_insert_ne by (apply append_ne; discriminate)
    | rewrite lookup_delete_ne by (apply append_ne; discriminate) ].

(** X16.  Whatever way a frame ends, the files the script itself wrote up
    to then are in the working directory: the working copy always, the
    prepared structure once the rename is done, the grid input file once
    the centre is known, the copy of the archive once the wait is over. *)
Theorem frame_leaves_its_files (w : World) (fuel : nat) (mae : string) (d : Dir) :
  Forall (fun suf => is_Some (snd (process_frame w fuel mae d) !! (splitext_root mae +:+ suf)))
         (left_behind (fr_status (fst (process_frame w fuel mae d)))).
Proof.
  run_pipe_dir. set (b := splitext_root mae).
  destruct (exit_status w b prepwizard =? 0); run_pipe_dir;
    [| repeat constructor; is_left].
  destruct (_ !! (b +:+ "_pH7.4_prepared.mae")) as [prepared|]; run_pipe_dir;
    [| repeat constructor; is_left].
  destruct (exit_status w b pv_convert_split_ligand =? 0); run_pipe_dir;
    [| repeat constructor; is_left].
  destruct (exit_status w b pv_convert_split_receptor =? 0); run_pipe_dir;
    [| repeat constructor; is_left].
  destruct (_ !! (b +:+ "_prepared-out_lig.mae")) as [data|]; run_pipe_dir;
    [| repeat constructor; is_left].
  destruct (read_structure w data) as [[|a atoms]|]; run_pipe_dir;
    try (repeat constructor; is_left).
  destruct (exit_status w b glide_gridgen =? 0); run_pipe_dir;
    [| repeat constructor; is_left].
  destruct (wait_for_zip (zips_seen w b) 0 fuel) as [[n z]|]; run_pipe_dir;
    [| repeat constructor; is_left].
  destruct (exit_status w b epharmacophores =? 0); repeat constructor; is_left.
Qed.

(** ** Frames side by side *)

Ltac run_frame :=
  cbv beta iota zeta delta
    [process_frame frame_pipeline pbind try_except nice_run emit modify_cwd pret praise
     os_rename get_cwd shell_rm ligand_center mean write_csv poll_gridzip
     except_CalledProcessError except_Exception trace cwd fst snd status_of
     List.map List.fold_right app].

Ltac other_name Hn Hout :=
  repeat first
    [ rewrite lookup_union_r by apply Hout
    | rewrite lookup_insert_ne
        by (let Heq := fresh in intros Heq; refine (Hn _ _ (eq_sym Heq)); reflexivity)
    | rewrite lookup_delete_ne
        by (let Heq := fresh in intros Heq; refine (Hn _ _ (eq_sym Heq)); reflexivity) ];
  reflexivity.

Lemma process_frame_other_names (w : World) (fuel : nat) (mae : string) (d : Dir) (n : string) :
  (forall suf, no_leading_digit (chars suf) = true -> n <> splitext_root mae +:+ suf) ->
  (forall c, outputs w (splitext_root mae) c !! n = None) ->
  snd (process_frame w fuel mae d) !! n = d !! n.
Proof.
  intros Hn Hout. run_frame. set (b := splitext_root mae) in *.
  destruct (exit_status w b prepwizard =? 0); run_frame; [| other_name Hn Hout].
  destruct (_ !! (b +:+ "_pH7.4_prepared.mae")) as [prepared|]; run_frame;
    [| other_name Hn Hout].
  destruct (exit_status w b pv_convert_split_ligand =? 0); run_frame; [| other_name Hn Hout].
  destruct (exit_status w b pv_convert_split_receptor =? 0); run_frame;
    [| other_name Hn Hout].
  destruct (_ !! (b +:+ "_prepared-out_lig.mae")) as [data|]; run_frame;
    [| other_name Hn Hout].
  destruct (read_structure w data) as [[|a atoms]|]; run_frame; try other_name Hn Hout.
  destruct (exit_status w b glide_gridgen =? 0); run_frame; [| other_name Hn Hout].
  destruct (wait_for_zip (zips_seen w b) 0 fuel) as [[k z]|]; run_frame;
    [| other_name Hn Hout].
  destruct (exit_status w b epharmacophores =? 0); other_name Hn Hout.
Qed.

Lemma other_frame_name (w : World) (b1 b2 suf2 : string) :
  writes_own_names w ->
  is_decimal b1 = true -> is_decimal b2 = true -> b1 <> b2 ->
  no_leading_digit (chars suf2) = true ->
  (forall suf, no_leading_digit (chars suf) = true -> b2 +:+ suf2 <> b1 +:+ suf) /\
  (forall c, outputs w b1 c !! (b2 +:+ suf2) = None).
Proof.
  intros Hw H1 H2 Hne Hsuf2.
  assert (Hdiff : forall suf, no_leading_digit (chars suf) = true -> b2 +:+ suf2 <> b1 +:+ suf).
  { intros suf Hsuf Heq. apply Hne. symmetry. apply chars_inj.
    apply (digits_prefix_unique _ _ (chars suf2) (chars suf) H2 H1 Hsuf2 Hsuf).
    rewrite <- !chars_append, Heq. reflexivity. }
  split; [exact Hdiff |].
  intros c. destruct (outputs w b1 c !! (b2 +:+ suf2)) as [v|] eqn:Hout; [| reflexivity].
  exfalso. destruct (Hw b1 c (b2 +:+ suf2)) as [suf [Heq Hsuf]]; [congruence |].
  apply (Hdiff suf Hsuf Heq).
Qed.

Lemma pool_map_other_names (w : World) (fuel : nat) (batch : list string) (d : Dir)
    (n : string) :
  (forall mae, In mae batch ->
     (forall suf, no_leading_digit (chars suf) = true -> n <> splitext_root mae +:+ suf) /\
     (forall c, outputs w (splitext_root mae) c !! n = None)) ->
  snd (pool_map w fuel batch d) !! n = d !! n.
Proof.
  revert d. induction batch as [|mae rest IH]; intros d Hn; simpl; [reflexivity |].
  destruct (Hn mae (or_introl eq_refl)) as [Hname Hout].
  pose proof (process_frame_other_names w fuel mae d n Hname Hout) as Hmae.
  destruct (process_frame w fuel mae d) as [r d1]. simpl in Hmae.
  destruct (terminal (fr_status r)); [| exact Hmae].
  specialize (IH d1 (fun m Hm => Hn m (or_intror Hm))).
  destruct (pool_map w fuel rest d1) as [rs d2]. simpl in *.
  rewrite IH. exact Hmae.
Qed.

Lemma run_batches_other_names (w : World) (fuel : nat) (c : Z) (batches : list (list string))
    (d d' : Dir) (log : list RunEvent) (n : string) :
  (forall mae, In mae (List.concat batches) ->
     (forall suf, no_leading_digit (chars suf) = true -> n <> splitext_root mae +:+ suf) /\
     (forall c, outputs w (splitext_root mae) c !! n = None)) ->
  run_batches w fuel c batches d = Some (log, d') ->
  d' !! n = d !! n.
Proof.
  revert d log. induction batches as [|batch rest IH]; intros d log Hn Hrun; simpl in Hrun.
  - injection Hrun as <- <-. reflexivity.
  - pose proof (pool_map_other_names w fuel batch d n) as Hbatch.
    destruct (pool_map w fuel batch d) as [rs d1]. simpl in Hbatch.
    destruct (all_terminal rs); [| discriminate].
    destruct (run_batches w fuel c rest d1) as [[log1 d2]|] eqn:Hrest; [| discriminate].
    injection Hrun as <- <-.
    rewrite (IH d1 log1); [| | exact Hrest].
    + apply Hbatch. intros mae Hmae. apply Hn. simpl. apply in_or_app. left. exact Hmae.
    + intros mae Hmae. apply Hn. simpl. apply in_or_app. right. exact Hmae.
Qed.

(** X17.  Frames leave the files of other frames alone.  Let the programs
    write, for a frame, files of that frame only, and let the stems be runs
    of digits.  Then a frame changes nothing under a name made of another
    run of digits and a suffix that does not start with a digit: the file
    is there afterwards exactly if it was there before, with the content
    it had; and so for a batch and for a run that has no frame of that
    stem. *)
Theorem frames_leave_other_files (w : World) (fuel : nat) (b suf : string) :
  writes_own_names w ->
  is_decimal b = true ->
  no_leading_digit (chars suf) = true ->
  (forall mae d,
     is_decimal (splitext_root mae) = true -> splitext_root mae <> b ->
     snd (process_frame w fuel mae d) !! (b +:+ suf) = d !! (b +:+ suf)) /\
  (forall batch d,
     Forall (fun mae => is_decimal (splitext_root mae) = true) batch ->
     ~ In b (List.map splitext_root batch) ->
     snd (pool_map w fuel batch d) !! (b +:+ suf) = d !! (b +:+ suf)) /\
  (forall c batches d log d',
     Forall (fun mae => is_decimal (splitext_root mae) = true) (List.concat batches) ->
     ~ In b (List.map splitext_root (List.concat batches)) ->
     run_batches w fuel c batches d = Some (log, d') ->
     d' !! (b +:+ suf) = d !! (b +:+ suf)).
Proof.
  intros Hw Hb Hsuf.
  assert (Hother : forall l mae,
             Forall (fun mae => is_decimal (splitext_root mae) = true) l ->
             ~ In b (List.map splitext_root l) -> In mae l ->
             (forall suf', no_leading_digit (chars suf') = true ->
                           b +:+ suf <> splitext_root mae +:+ suf') /\
             (forall c, outputs w (splitext_root mae) c !! (b +:+ suf) = None)).
  { intros l mae Hdec Hnew Hin. rewrite List.Forall_forall in Hdec.
    apply (other_frame_name w (splitext_root mae) b suf Hw (Hdec mae Hin) Hb); [| exact Hsuf].
    intros Heq. apply Hnew. apply in_map_iff. exists mae. split; assumption. }
  split; [| split].
  - intros mae d Hmae Hne.
    destruct (Hother [mae] mae) as [Hname Hout].
    + constructor; [exact Hmae | constructor].
    + simpl. intros [Heq | []]. exact (Hne Heq).
    + left. reflexivity.
    + apply process_frame_other_names; assumption.
  - intros batch d Hdec Hnew. apply pool_map_other_names.
    intros mae Hin. apply (Hother batch mae Hdec Hnew Hin).
  - intros c batches d log d' Hdec Hnew Hrun.
    apply (run_batches_other_names w fuel c batches d d' log _); [| exact Hrun].
    intros mae Hin. apply (Hother _ mae Hdec Hnew Hin).
Qed.

Lemma sample_world_writes_own_names (failing : list (string * Cmd)) :
  writes_own_names (sample_world failing).
Proof.
  intros b c n Hout. simpl in Hout.
  destruct (fails failing b c); [rewrite lookup_empty in Hout; contradiction |].
  destruct c; simpl in Hout;
    try (rewrite lookup_empty in Hout; contradiction);
    match type of Hout with
    | {[ ?k := _ ]} !! _ <> None =>
        destruct (decide (k = n)) as [<- | Hne];
        [| rewrite lookup_singleton_ne in Hout by exact Hne; contradiction]
    end;
    eexists; split; reflexivity.
Qed.

Lemma frames_leave_other_files_witness :
  snd (process_frame (sample_world []) 2 "1.mae" {[ "2_prepared.mae" := "kept" ]})
    !! "2_prepared.mae" = Some "kept".
Proof.
  rewrite (proj1 (frames_leave_other_files (sample_world []) 2 "2" "_prepared.mae"
                    (sample_world_writes_own_names []) eq_refl eq_refl)
             "1.mae" {[ "2_prepared.mae" := "kept" ]}).
  - apply lookup_singleton_eq.
  - reflexivity.
  - discriminate.
Defined.

(** ** Runs that stop *)

Lemma terminal_unfinished (r : string * FrameResult) :
  terminal (fr_status (snd r)) = false <-> unfinished r.
Proof.
  unfold unfinished. destruct (fr_status (snd r)) as [| k | e |]; simpl; split;
    try discriminate; try reflexivity.
  - intros [H | [e H]]; discriminate.
  - intros [H | [e H]]; discriminate.
  - intros _. right. exists e. reflexivity.
  - intros _. left. reflexivity.
Qed.

Lemma run_batches_frames (w : World) (fuel : nat) (c : Z) (batches : list (list string))
    (d d' : Dir) (log : list RunEvent) :
  run_batches w fuel c batches d = Some (log, d') ->
  frame_runs log = run_results w fuel batches d.
Proof.
  revert d log. induction batches as [|batch rest IH]; intros d log Hrun; simpl in *.
  - injection Hrun as <- <-. reflexivity.
  - destruct (pool_map w fuel batch d) as [rs d1].
    destruct (all_terminal rs); [| discriminate].
    destruct (run_batches w fuel c rest d1) as [[log1 d2]|] eqn:Hrest; [| discriminate].
    injection Hrun as <- <-. simpl. rewrite frame_runs_frames. simpl.
    rewrite (IH d1 log1 Hrest). reflexivity.
Qed.

Lemma forallb_fails {A} (p : A -> bool) (l : list A) :
  forallb p l = false -> exists x, In x l /\ p x = false.
Proof.
  induction l as [|a l IH]; simpl; [discriminate |].
  destruct (p a) eqn:Hp; simpl.
  - intros H. destruct (IH H) as [x [Hx Hpx]]. exists x. split; [right; exact Hx | exact Hpx].
  - intros _. exists a. split; [left; reflexivity | exact Hp].
Qed.

(** X18.  The loop over the batches stops short exactly when some frame,
    run in its turn, is left waiting or raises. *)
Theorem run_stops_iff_a_frame_does (w : World) (fuel : nat) (c : Z)
    (batches : list (list string)) (d : Dir) :
  run_batches w fuel c batches d = None <->
  exists r, In r (run_results w fuel batches d) /\ unfinished r.
Proof.
  split.
  - intros Hnone.
    destruct (forallb (fun r => terminal (fr_status (snd r))) (run_results w fuel batches d))
      eqn:Hall.
    + exfalso. rewrite forallb_forall in Hall.
      destruct (run_batches_total w fuel c batches d) as [log [d' [Hrun _]]].
      { apply List.Forall_forall. exact Hall. }
      rewrite Hrun in Hnone. discriminate.
    + apply forallb_fails in Hall. destruct Hall as [r [Hin Hr]].
      exists r. split; [exact Hin | apply terminal_unfinished; exact Hr].
  - intros [r [Hin Hr]].
    destruct (run_batches w fuel c batches d) as [[log d']|] eqn:Hrun; [| reflexivity].
    exfalso. apply terminal_unfinished in Hr.
    destruct (run_batches_log _ _ _ _ _ _ _ Hrun) as [_ [_ [_ [_ Hterm]]]].
    rewrite (run_batches_frames _ _ _ _ _ _ _ Hrun) in Hterm.
    rewrite List.Forall_forall in Hterm. rewrite (Hterm r Hin) in Hr. discriminate.
Qed.

(** ** Runs that complete *)

Lemma select_frames_total (cfg : Config) (h : Host) :
  (forall f, In f (glob_ext ".mae" (input_names h)) -> exists i, frame_index f = ret i) ->
  STEP cfg <> 0 ->
  exists selected,
    select_frames cfg h = ret selected /\
    forall f, In f selected <->
              In f (glob_ext ".mae" (input_names h)) /\
              selects (START_IDX cfg) (END_IDX cfg) (STEP cfg) (index_of f) = true.
Proof.
  intros Hint Hstep. unfold select_frames. rewrite (all_maes_total _ Hint). simpl.
  unfold selected_maes.
  rewrite (filter_result_total _
             (fun f => selects (START_IDX cfg) (END_IDX cfg) (STEP cfg) (index_of f))).
  - eexists. split; [reflexivity |]. intros f. rewrite filter_In.
    split; intros [Hin Hsel]; (split; [| exact Hsel]).
    + apply (Permutation_in _ (sorted_maes_perm _)). exact Hin.
    + apply (Permutation_in _ (Permutation_sym (sorted_maes_perm _))). exact Hin.
  - intros f Hf. apply (Permutation_in _ (sorted_maes_perm _)) in Hf.
    destruct (Hint f Hf) as [i Hi]. apply (in_selection_total _ _ _ _ i Hstep Hi).
Qed.

(** X19.  The script completes when the toolsuite directory exists, every
    [*.mae] stem is an integer literal, the stride is not zero, the batch
    size is at least one, some file is selected and the world is
    cooperative: every selected frame is run once, in the order of the
    selection, each to a terminal state, and the hypotheses are
    collected. *)
Theorem run_completes (cfg : Config) (h : Host) (w : World) (fuel : nat) :
  schrodinger_isdir h = true ->
  (forall f, In f (glob_ext ".mae" (input_names h)) -> exists i, frame_index f = ret i) ->
  STEP cfg <> 0 -> 1 <= BATCH_SIZE cfg ->
  (exists f, In f (glob_ext ".mae" (input_names h)) /\
             selects (START_IDX cfg) (END_IDX cfg) (STEP cfg) (index_of f) = true) ->
  cooperative w fuel ->
  exists selected log proc hyp,
    select_frames cfg h = ret selected /\
    main cfg h w fuel = Completed log proc hyp /\
    List.map fst (frame_runs log) = selected /\
    Forall (fun r => terminal (fr_status (snd r)) = true) (frame_runs log) /\
    hyp = collect proc (HYPOTHESIS_DIR h).
Proof.
  intros Hdir Hint Hstep Hbatch [f0 [Hf0 Hsel0]] Hco.
  destruct (select_frames_total cfg h Hint Hstep) as [selected [Hsel Hin]].
  assert (Hne : selected <> []).
  { intros ->. apply (Hin f0). split; assumption. }
  destruct (batches_of_partition selected (Z.to_nat (BATCH_SIZE cfg)) ltac:(lia))
    as [batches [Hbatches [_ [Hconcat _]]]].
  rewrite Z2Nat.id in Hbatches by lia.
  destruct (run_batches_completes w fuel (USER_NCORES cfg) batches (PROCESSED_DIR h) Hco)
    as [log [proc Hrun]].
  destruct (run_batches_log _ _ _ _ _ _ _ Hrun) as [_ [_ [_ [Hnames Hterm]]]].
  exists selected, (log ++ List.map (fun f => Collected (fst f)) (phypo_files proc))%list,
         proc, (collect proc (HYPOTHESIS_DIR h)).
  split; [exact Hsel |]. split; [| split; [| split; [| reflexivity]]].
  - unfold main. rewrite Hdir, Hsel. cbn [negb].
    destruct selected as [|f rest]; [contradiction |].
    unfold total_batches. destruct (Z.eqb_spec (BATCH_SIZE cfg) 0) as [Hz | _]; [lia |].
    cbv beta iota delta [rbind ret]. rewrite Hbatches.
    cbv beta iota delta [ret]. rewrite Hrun. reflexivity.
  - rewrite frame_runs_collected, Hnames. exact Hconcat.
  - rewrite frame_runs_collected. exact Hterm.
Qed.

Lemma run_completes_witness :
  exists selected log proc hyp,
    select_frames two_frames_config two_frames_host = ret selected /\
    main two_frames_config two_frames_host (sample_world [("2", pv_convert_split_ligand)]) 2
    = Completed log proc hyp /\
    List.map fst (frame_runs log) = selected /\
    Forall (fun r => terminal (fr_status (snd r)) = true) (frame_runs log) /\
    hyp = collect proc (HYPOTHESIS_DIR two_frames_host).
Proof.
  apply (run_completes two_frames_config two_frames_host
           (sample_world [("2", pv_convert_split_ligand)]) 2).
  - reflexivity.
  - intros f Hf. vm_compute in Hf.
    repeat (destruct Hf as [<- | Hf]; [eexists; vm_compute; reflexivity |]). destruct Hf.
  - discriminate.
  - vm_compute. discriminate.
  - exists "1.mae". split; [vm_compute; tauto | vm_compute; reflexivity].
  - apply sample_world_cooperative.
Defined.

(** ** The grid input file *)

Lemma csv_escape_plain (s : string) : csv_plain s = true -> csv_escape s = s.
Proof.
  unfold csv_plain, chars. induction s as [|c s IH]; simpl; [reflexivity |].
  rewrite negb_true_iff, orb_false_iff. intros [Hc Hs].
  unfold csv_special in Hc. rewrite !orb_false_iff in Hc.
  destruct Hc as [[[_ Hq] _] _]. rewrite Hq. f_equal.
  apply IH. rewrite negb_true_iff. exact Hs.
Qed.

Lemma csv_plain_append (s t : string) :
  csv_plain (s +:+ t) = csv_plain s && csv_plain t.
Proof.
  unfold csv_plain. rewrite chars_append, existsb_app, negb_orb. reflexivity.
Qed.

Lemma csv_field_plain (s : string) : csv_plain s = true -> csv_field s = s.
Proof.
  unfold csv_plain, csv_field. rewrite negb_true_iff. intros ->. reflexivity.
Qed.

Lemma csv_field_comma (s t : string) :
  csv_field (s +:+ "," +:+ t) = dquote +:+ csv_escape (s +:+ "," +:+ t) +:+ dquote.
Proof.
  unfold csv_field. rewrite !chars_append, !existsb_app.
  replace (existsb csv_special (chars ",")) with true by reflexivity.
  rewrite orb_true_r. reflexivity.
Qed.

Lemma ligand_center_inv (w : World) (lig : string) (s s' : PState) (center : string) :
  ligand_center w lig s = (s', inr center) ->
  exists x y z, center = fmt2 w x +:+ "," +:+ fmt2 w y +:+ "," +:+ fmt2 w z.
Proof.
  destruct s as [t d].
  cbv beta iota zeta delta [ligand_center pbind emit get_cwd praise pret mean trace cwd List.map].
  destruct (d !! lig) as [data|]; [| discriminate].
  destruct (read_structure w data) as [[|a atoms]|]; try discriminate.
  cbv beta iota zeta delta [pbind pret List.map].
  intros H. injection H as _ <-. eexists _, _, _. reflexivity.
Qed.

(** X20.  The centre is written to the grid input file in double quotes,
    since it holds the delimiter; the receptor file name of a frame whose
    stem has no special character is written as it is.  The file is the
    header line and this one row, each ended by CR LF. *)
Theorem grid_csv_quotes_the_center (w : World) (lig b : string) (s s' : PState)
    (center : string) :
  (forall q, csv_plain (fmt2 w q) = true) ->
  csv_plain b = true ->
  ligand_center w lig s = (s', inr center) ->
  csv_field center = dquote +:+ center +:+ dquote /\
  grid_input_csv (b +:+ "_prepared-out_recep.mae") center =
  "rec_file,cent_coor,hbond_cons,lig_asl,res_asl" +:+ crlf +:+
  (b +:+ "_prepared-out_recep.mae") +:+ "," +:+ (dquote +:+ center +:+ dquote) +:+ ",,," +:+ crlf.
Proof.
  intros Hfmt Hb Hcenter.
  destruct (ligand_center_inv _ _ _ _ _ Hcenter) as [x [y [z ->]]].
  assert (Hfield : csv_field (fmt2 w x +:+ "," +:+ fmt2 w y +:+ "," +:+ fmt2 w z) =
                   dquote +:+ (fmt2 w x +:+ "," +:+ fmt2 w y +:+ "," +:+ fmt2 w z) +:+ dquote).
  { rewrite csv_field_comma. f_equal.
    assert (Hesc : forall u v, csv_escape (u +:+ v) = csv_escape u +:+ csv_escape v).
    { intros u v. induction u as [|c u IH]; simpl; [reflexivity |].
      destruct (nat_of_ascii c =? 34)%nat; simpl; rewrite IH; reflexivity. }
    rewrite !Hesc, !(csv_escape_plain _ (Hfmt _)). reflexivity. }
  split; [exact Hfield |].
  unfold grid_input_csv. rewrite Hfield. rewrite csv_field_plain; [reflexivity |].
  rewrite csv_plain_append, Hb. reflexivity.
Qed.

Lemma grid_csv_quotes_the_center_witness :
  grid_input_csv "7_prepared-out_recep.mae" "0.00,0.00,0.00" =
  "rec_file,cent_coor,hbond_cons,lig_asl,res_asl" +:+ crlf +:+
  ("7" +:+ "_prepared-out_recep.mae") +:+ "," +:+
  (dquote +:+ "0.00,0.00,0.00" +:+ dquote) +:+ ",,," +:+ crlf.
Proof.
  apply (grid_csv_quotes_the_center (sample_world []) "7_prepared-out_lig.mae" "7"
           {| trace := []; cwd := {[ "7_prepared-out_lig.mae" := "ligand 7" ]} |}
           {| trace := [EReadStructure "7_prepared-out_lig.mae"];
              cwd := {[ "7_prepared-out_lig.mae" := "ligand 7" ]} |}
           "0.00,0.00,0.00").
  - intros q. reflexivity.
  - reflexivity.
  - vm_compute. reflexivity.
Defined.

(** ** The archives the wait takes *)

Lemma find_heads_filter {A} (p q : A -> bool) (l : list A) (z : A) :
  List.find p l = Some z -> q z = true ->
  exists rest, List.filter (fun e => p e && q e) l = z :: rest.
Proof.
  induction l as [|x l IH]; simpl; [discriminate |].
  destruct (p x) eqn:Hp; simpl.
  - intros H Hq. injection H as ->. rewrite Hq. eexists. reflexivity.
  - intros H Hq. apply (IH H Hq).
Qed.

Lemma filter_twice {A} (p q : A -> bool) (l : list A) :
  List.filter p (List.filter q l) = List.filter (fun e => q e && p e) l.
Proof.
  induction l as [|x l IH]; simpl; [reflexivity |].
  destruct (q x); simpl; [destruct (p x) |]; rewrite IH; reflexivity.
Qed.

Lemma newest_first_same_age (m : Z) (zips : list ZipEntry) :
  List.filter (fun e => zmtime e =? m) (newest_first zips) =
  List.filter (fun e => zmtime e =? m) zips.
Proof.
  unfold newest_first.
  rewrite (filter_map_snd zmtime).
  - rewrite (sort_by_same_key Z.gtb).
    + induction zips as [|e l IH]; simpl; [reflexivity |].
      destruct (zmtime e =? m); simpl; rewrite IH; reflexivity.
    + intros a. rewrite Z.gtb_ltb. apply Z.ltb_irrefl.
  - intros x Hx. apply sort_by_In, in_map_iff in Hx. destruct Hx as [e [<- _]]. reflexivity.
Qed.

(** X21.  Among the candidates that are as new as the one a scan returns,
    the scan returns the first in the order of the listing: the reversed
    sort of line 144 keeps the order of equal modification times. *)
Theorem scan_breaks_ties_by_listing (dir : list ZipEntry) (z : ZipEntry) :
  scan_zips dir = Some z ->
  exists rest, candidates_of_age z dir = z :: rest.
Proof.
  unfold scan_zips, candidates_of_age. intros Hfind.
  destruct (find_heads_filter _ (fun e => zmtime e =? zmtime z) _ _ Hfind (Z.eqb_refl _))
    as [rest Hrest].
  exists rest. rewrite <- Hrest.
  transitivity (List.filter (fun e => contains "gridgen" (zname e))
                  (List.filter (fun e => zmtime e =? zmtime z) (glob_zip dir))).
  - unfold glob_zip. rewrite !filter_twice. apply List.filter_ext. intros e.
    unfold candidate.
    destruct (ends_with ".zip" (zname e) && negb (starts_with "." (zname e)));
      destruct (zmtime e =? zmtime z); destruct (contains "gridgen" (zname e)); reflexivity.
  - rewrite <- newest_first_same_age, filter_twice.
    apply List.filter_ext. intros e. apply andb_comm.
Qed.

Lemma scan_breaks_ties_by_listing_witness :
  exists rest,
    candidates_of_age {| zname := "a-gridgen.zip"; zmtime := 5; zdata := "a" |}
      [ {| zname := "old-gridgen.zip"; zmtime := 1; zdata := "o" |};
        {| zname := "a-gridgen.zip"; zmtime := 5; zdata := "a" |};
        {| zname := "b-gridgen.zip"; zmtime := 5; zdata := "b" |} ]
    = {| zname := "a-gridgen.zip"; zmtime := 5; zdata := "a" |} :: rest.
Proof.
  apply (scan_breaks_ties_by_listing
           [ {| zname := "old-gridgen.zip"; zmtime := 1; zdata := "o" |};
             {| zname := "a-gridgen.zip"; zmtime := 5; zdata := "a" |};
             {| zname := "b-gridgen.zip"; zmtime := 5; zdata := "b" |} ]).
  vm_compute. reflexivity.
Defined.

Lemma wait_for_zip_inv (listing : nat -> list ZipEntry) (fuel k0 n : nat) (z : ZipEntry) :
  wait_for_zip listing k0 fuel = Some (n, z) ->
  exists k, n = S k /\ (k0 <= k < k0 + fuel)%nat /\
            scan_zips (listing k) = Some z /\
            forall j, (k0 <= j < k)%nat -> scan_zips (listing j) = None.
Proof.
  revert k0. induction fuel as [|fuel IH]; intros k0; simpl; [discriminate |].
  destruct (scan_zips (listing k0)) as [z0|] eqn:Hscan.
  - intros H. injection H as <- <-. exists k0.
    split; [reflexivity | split; [lia | split; [exact Hscan |]]]. intros j Hj. lia.
  - intros H. destruct (IH _ H) as [k [-> [Hk [Hz Hnone]]]]. exists k.
    split; [reflexivity | split; [lia | split; [exact Hz |]]].
    intros j Hj. destruct (Nat.eq_dec j k0) as [-> | Hne]; [exact Hscan | apply Hnone; lia].
Qed.

(** X22.  What the wait returns: a candidate of the directory as the last
    scan saw it, none newer among the candidates of that scan, no candidate
    in any earlier scan; the loop has slept at least once, two seconds or
    more, also when the archive was there at the first scan. *)
Theorem wait_result_was_scanned (listing : nat -> list ZipEntry) (fuel n : nat) (z : ZipEntry) :
  wait_for_zip listing 0 fuel = Some (n, z) ->
  (1 <= n <= fuel)%nat /\ 2 <= seconds_slept n /\
  In z (listing (n - 1)%nat) /\ candidate z = true /\
  (forall e, In e (listing (n - 1)%nat) -> candidate e = true -> zmtime e <= zmtime z) /\
  (forall j e, (j < n - 1)%nat -> In e (listing j) -> candidate e = false).
Proof.
  intros Hwait. destruct (wait_for_zip_inv _ _ _ _ _ Hwait) as [k [-> [Hk [Hscan Hnone]]]].
  replace (S k - 1)%nat with k by lia.
  destruct (scan_zips_found _ _ Hscan) as [Hin [Hc Hmax]].
  split; [lia |]. split; [unfold seconds_slept, POLL_DELAY; lia |].
  split; [exact Hin | split; [exact Hc | split; [exact Hmax |]]].
  intros j e Hj He. apply (proj1 (scan_zips_none (listing j))); [| exact He].
  apply Hnone. lia.
Qed.

Lemma wait_result_was_scanned_witness :
  (1 <= 2 <= 5)%nat /\ 2 <= seconds_slept 2 /\
  In {| zname := "2_grid_input-gridgen.zip"; zmtime := 20; zdata := "grid 2" |}
     (sample_zips (2 - 1)%nat) /\
  candidate {| zname := "2_grid_input-gridgen.zip"; zmtime := 20; zdata := "grid 2" |} = true /\
  (forall e, In e (sample_zips (2 - 1)%nat) -> candidate e = true -> zmtime e <= 20) /\
  (forall j e, (j < 2 - 1)%nat -> In e (sample_zips j) -> candidate e = false).
Proof.
  apply (wait_result_was_scanned sample_zips 5 2
           {| zname := "2_grid_input-gridgen.zip"; zmtime := 20; zdata := "grid 2" |}).
  vm_compute. reflexivity.
Defined.

(** ** The copy of the archive *)

Lemma is_prefix_gridgen_straddle (t : list ascii) :
  is_prefix (chars "gridgen") (t ++ chars "_grid.zip") = is_prefix (chars "gridgen") t.
Proof.
  change (chars "gridgen") with ["g"; "r"; "i"; "d"; "g"; "e"; "n"]%char.
  change (chars "_grid.zip") with ["_"; "g"; "r"; "i"; "d"; "."; "z"; "i"; "p"]%char.
  destruct t as [|c1 [|c2 [|c3 [|c4 [|c5 [|c6 [|c7 t]]]]]]];
    cbn [is_prefix app];
    repeat match goal with
           | |- context [Ascii.eqb ?a ?b] =>
               lazymatch b with
               | Ascii _ _ _ _ _ _ _ _ =>
                   change (Ascii.eqb a b) with false
               | _ => destruct (Ascii.eqb a b)
               end; cbn [andb]
           end; reflexivity.
Qed.

Lemma contains_grid_copy (l : list ascii) :
  contains_chars (chars "gridgen") l = false ->
  contains_chars (chars "gridgen") (l ++ chars "_grid.zip") = false.
Proof.
  induction l as [|c l IH]; intros H.
  - reflexivity.
  - change ((c :: l) ++ chars "_grid.zip")%list with (c :: (l ++ chars "_grid.zip"))%list.
    cbn [contains_chars] in *. apply orb_false_iff in H. destruct H as [Hp Hl].
    rewrite (IH Hl), orb_false_r.
    change (c :: (l ++ chars "_grid.zip"))%list with ((c :: l) ++ chars "_grid.zip")%list.
    rewrite is_prefix_gridgen_straddle. exact Hp.
Qed.

(** X23.  The copy [<base_index>_grid.zip] that a frame makes of its archive
    is no candidate of a later scan, its own or another frame's, as long
    as the stem does not contain [gridgen]. *)
Theorem own_grid_copy_is_no_candidate (b : string) :
  contains "gridgen" b = false ->
  (forall mtime data,
     candidate {| zname := b +:+ "_grid.zip"; zmtime := mtime; zdata := data |} = false) /\
  (forall dir z, scan_zips dir = Some z -> zname z <> b +:+ "_grid.zip").
Proof.
  intros Hb.
  assert (Hcopy : contains "gridgen" (b +:+ "_grid.zip") = false).
  { unfold contains in *. rewrite chars_append. apply contains_grid_copy. exact Hb. }
  split.
  - intros mtime data. unfold candidate. simpl. rewrite Hcopy. apply andb_false_r.
  - intros dir z Hscan Hname. destruct (scan_zips_found _ _ Hscan) as [_ [Hc _]].
    unfold candidate in Hc. rewrite Hname, Hcopy, andb_false_r in Hc. discriminate.
Qed.

Lemma own_grid_copy_is_no_candidate_witness :
  candidate {| zname := "12" +:+ "_grid.zip"; zmtime := 30; zdata := "grid" |} = false.
Proof.
  apply (own_grid_copy_is_no_candidate "12"). reflexivity.
Defined.

(** ** Paths *)

Lemma string_of_chars (s : string) : string_of_list_ascii (chars s) = s.
Proof. apply string_of_list_ascii_of_string. Qed.

Lemma slash_char (c : ascii) : Ascii.eqb "/" c = is_slash c.
Proof.
  unfold is_slash. destruct (Ascii.eqb_spec "/" c) as [<- | Hne]; [reflexivity |].
  symmetry. apply Nat.eqb_neq. intros H. apply Hne.
  rewrite <- (ascii_nat_embedding c), H. reflexivity.
Qed.

Lemma contains_slash (l : list ascii) :
  contains_chars (chars "/") l = existsb is_slash l.
Proof.
  change (chars "/") with ["/"%char].
  induction l as [|c l IH]; [reflexivity |].
  cbn [contains_chars is_prefix existsb]. rewrite IH, slash_char.
  destruct l; rewrite andb_true_r; reflexivity.
Qed.

Lemma after_last_slash_plain (l : list ascii) :
  existsb is_slash l = false -> after_last_slash l = l.
Proof.
  destruct l as [|c l]; [reflexivity |]. cbn [existsb after_last_slash].
  intros H. apply orb_false_iff in H. destruct H as [Hc Hl]. rewrite Hl, Hc. reflexivity.
Qed.

Lemma after_last_slash_app (l n : list ascii) :
  existsb is_slash n = false -> after_last_slash (l ++ "/"%char :: n) = n.
Proof.
  intros Hn. induction l as [|c l IH].
  - cbn [app after_last_slash]. rewrite Hn. reflexivity.
  - change ((c :: l) ++ "/"%char :: n)%list with (c :: (l ++ "/"%char :: n))%list.
    cbn [after_last_slash]. rewrite existsb_app. cbn [existsb].
    replace (is_slash "/") with true by reflexivity.
    rewrite orb_true_l, orb_true_r. exact IH.
Qed.

Lemma ends_with_slash (s : string) :
  ends_with "/" s = true -> exists l, chars s = (l ++ ["/"%char])%list.
Proof.
  unfold ends_with. intros H. apply is_prefix_app in H. destruct H as [rest Hrest].
  exists (rev rest).
  rewrite <- (rev_involutive (chars s)), Hrest. reflexivity.
Qed.

Lemma join_step_relative (path b : string) :
  starts_with "/" b = false ->
  exists sep, (sep = "" \/ sep = "/") /\ join_step path b = path +:+ sep +:+ b.
Proof.
  intros Hb. unfold join_step. rewrite Hb.
  destruct (String.eqb path "" || ends_with "/" path).
  - exists "". split; [left; reflexivity | reflexivity].
  - exists "/". split; [right; reflexivity | reflexivity].
Qed.

(** X24.  [os.path.basename] undoes [os.path.join] with a directory: the
    base name of [glob]'s result for an entry is the entry (lines 73, 84),
    and a hypothesis is collected under the name it has in the working
    directory (line 202). *)
Theorem basename_of_join (dir name : string) :
  contains "/" name = false ->
  os_path_basename (os_path_join dir [name]) = name.
Proof.
  unfold contains. rewrite contains_slash. intros Hname.
  assert (Hrel : starts_with "/" name = false).
  { unfold starts_with. change (chars "/") with ["/"%char].
    destruct (chars name) as [|c l]; [reflexivity |].
    cbn [is_prefix]. rewrite slash_char, andb_true_r.
    cbn [existsb] in Hname. apply orb_false_iff in Hname. tauto. }
  unfold os_path_basename, os_path_join. cbn [List.fold_left].
  unfold join_step. rewrite Hrel.
  destruct (String.eqb_spec dir "") as [-> | Hne]; cbn [orb].
  - change ("" +:+ name) with name.
    rewrite after_last_slash_plain by exact Hname. apply string_of_chars.
  - destruct (ends_with "/" dir) eqn:Hend.
    + destruct (ends_with_slash dir Hend) as [l Hl].
      rewrite chars_append, Hl, <- app_assoc. cbn [app].
      rewrite after_last_slash_app by exact Hname. apply string_of_chars.
    + rewrite !chars_append. change (chars "/") with ["/"%char]. cbn [app].
      rewrite after_last_slash_app by exact Hname. apply string_of_chars.
Qed.

Lemma basename_of_join_witness :
  os_path_basename (os_path_join "/data/run/input_mae_files" ["12.mae"]) = "12.mae".
Proof.
  apply (basename_of_join "/data/run/input_mae_files" "12.mae"). reflexivity.
Defined.

Lemma append_inj_l (a s t : string) : a +:+ s = a +:+ t -> s = t.
Proof.
  intros H. apply chars_inj. apply (f_equal chars) in H.
  rewrite !chars_append in H. apply app_inv_head in H. exact H.
Qed.

Lemma join_literal (path b : string) :
  starts_with "/" b = false ->
  join_step path b = path +:+ (if String.eqb path "" || ends_with "/" path then "" else "/") +:+ b.
Proof.
  intros Hb. unfold join_step. rewrite Hb.
  destruct (String.eqb path "" || ends_with "/" path); reflexivity.
Qed.

Lemma is_prefix_self (p r : list ascii) : is_prefix p (p ++ r) = true.
Proof.
  induction p as [|c p IH]; [reflexivity |]. cbn [app is_prefix].
  rewrite Ascii.eqb_refl, IH. reflexivity.
Qed.

Lemma is_prefix_common (a p l : list ascii) : is_prefix (a ++ p) (a ++ l) = is_prefix p l.
Proof.
  induction a as [|c a IH]; [reflexivity |]. cbn [app is_prefix].
  rewrite Ascii.eqb_refl, IH. reflexivity.
Qed.

Lemma starts_with_append (a t : string) : starts_with a (a +:+ t) = true.
Proof. unfold starts_with. rewrite chars_append. apply is_prefix_self. Qed.

Lemma append_assoc' (a b c : string) : (a +:+ b) +:+ c = a +:+ b +:+ c.
Proof. apply chars_inj. rewrite !chars_append. symmetry. apply app_assoc. Qed.

Lemma analysis_dir_shape (BASE_DIR : string) :
  exists sep,
    ANALYSIS_DIR BASE_DIR = BASE_DIR +:+ sep +:+ "DYNOPHORE_ANALYSIS" /\
    INPUT_DIR BASE_DIR = BASE_DIR +:+ sep +:+ "input_mae_files" /\
    PROCESSED_DIR_path BASE_DIR = ANALYSIS_DIR BASE_DIR +:+ "/PROCESSED_FILES" /\
    HYPOTHESIS_DIR_path BASE_DIR = ANALYSIS_DIR BASE_DIR +:+ "/saved_HYPOTHESIS".
Proof.
  exists (if String.eqb BASE_DIR "" || ends_with "/" BASE_DIR then "" else "/").
  assert (Ha : ANALYSIS_DIR BASE_DIR =
               BASE_DIR +:+ (if String.eqb BASE_DIR "" || ends_with "/" BASE_DIR then "" else "/")
                 +:+ "DYNOPHORE_ANALYSIS").
  { unfold ANALYSIS_DIR, os_path_join. cbn [List.fold_left]. apply join_literal. reflexivity. }
  assert (Hsub : forall name,
             starts_with "/" name = false ->
             os_path_join (ANALYSIS_DIR BASE_DIR) [name] = ANALYSIS_DIR BASE_DIR +:+ "/" +:+ name).
  { intros name Hname. unfold os_path_join. cbn [List.fold_left].
    rewrite (join_literal _ _ Hname).
    replace (String.eqb (ANALYSIS_DIR BASE_DIR) "" || ends_with "/" (ANALYSIS_DIR BASE_DIR))
      with false; [reflexivity |].
    symmetry. apply orb_false_iff. rewrite Ha. split.
    - apply String.eqb_neq. intros H. apply (f_equal chars) in H.
      rewrite !chars_append in H. apply (f_equal (@length ascii)) in H.
      rewrite !length_app in H. simpl in H. lia.
    - unfold ends_with. rewrite !chars_append, !rev_app_distr. reflexivity. }
  split; [exact Ha |]. split; [| split].
  - unfold INPUT_DIR, os_path_join. cbn [List.fold_left]. apply join_literal. reflexivity.
  - unfold PROCESSED_DIR_path. apply Hsub. reflexivity.
  - unfold HYPOTHESIS_DIR_path. apply Hsub. reflexivity.
Qed.

(** X25.  Whatever the current directory, the input directory, the working
    directory and the collection directory are three different paths; the
    last two lie under the analysis directory and the input directory does
    not. *)
Theorem directories_are_distinct (BASE_DIR : string) :
  INPUT_DIR BASE_DIR <> PROCESSED_DIR_path BASE_DIR /\
  INPUT_DIR BASE_DIR <> HYPOTHESIS_DIR_path BASE_DIR /\
  PROCESSED_DIR_path BASE_DIR <> HYPOTHESIS_DIR_path BASE_DIR /\
  starts_with (ANALYSIS_DIR BASE_DIR) (PROCESSED_DIR_path BASE_DIR) = true /\
  starts_with (ANALYSIS_DIR BASE_DIR) (HYPOTHESIS_DIR_path BASE_DIR) = true /\
  starts_with (ANALYSIS_DIR BASE_DIR) (INPUT_DIR BASE_DIR) = false.
Proof.
  destruct (analysis_dir_shape BASE_DIR) as [sep [Ha [Hi [Hp Hh]]]].
  rewrite Hp, Hh. split; [| split; [| split; [| split; [| split]]]].
  - rewrite Hi, Ha, !append_assoc'. intros H.
    apply append_inj_l, append_inj_l in H. discriminate.
  - rewrite Hi, Ha, !append_assoc'. intros H.
    apply append_inj_l, append_inj_l in H. discriminate.
  - intros H. apply append_inj_l in H. discriminate.
  - apply starts_with_append.
  - apply starts_with_append.
  - rewrite Hi, Ha. unfold starts_with. rewrite !chars_append, !is_prefix_common. reflexivity.
Qed.

Lemma get_or_nonempty (environ : gmap string string) (k rest : string) :
  rest <> "" -> get_or environ k rest <> "".
Proof.
  intros Hrest. unfold get_or. destruct (environ !! k) as [[|c v]|]; try exact Hrest.
  discriminate.
Qed.

Lemma os_path_join_relative (a : string) (p : list string) :
  Forall (fun b => starts_with "/" b = false) p -> starts_with a (os_path_join a p) = true.
Proof.
  unfold os_path_join. revert a. induction p as [|b p IH]; intros a Hp; cbn [List.fold_left].
  - unfold starts_with. rewrite <- (app_nil_r (chars a)) at 2. apply is_prefix_self.
  - inversion Hp as [|? ? Hb Hrest]; subst.
    destruct (join_step_relative a b Hb) as [sep [_ Hjoin]].
    specialize (IH (join_step a b) Hrest). rewrite Hjoin in *.
    unfold starts_with in *. apply is_prefix_app in IH. destruct IH as [rest Hrest'].
    rewrite Hrest', chars_append, <- app_assoc. apply is_prefix_self.
Qed.

(** X26.  The toolsuite root is never empty: it is [SCHRODINGER18] when
    that is set and not empty, else [SCHRODINGER18_4] when that is set and
    not empty, else the default.  The file of every program the script
    starts, the job control included, lies under the root. *)
Theorem toolsuite_paths (environ : gmap string string) :
  SCHRODINGER environ <> "" /\
  (forall v, environ !! "SCHRODINGER18" = Some v -> v <> "" -> SCHRODINGER environ = v) /\
  (forall v, environ !! "SCHRODINGER18" = None \/ environ !! "SCHRODINGER18" = Some "" ->
             environ !! "SCHRODINGER18_4" = Some v -> v <> "" -> SCHRODINGER environ = v) /\
  (environ !! "SCHRODINGER18" = None \/ environ !! "SCHRODINGER18" = Some "" ->
   environ !! "SCHRODINGER18_4" = None \/ environ !! "SCHRODINGER18_4" = Some "" ->
   SCHRODINGER environ = "/opt/schrodinger2018-4") /\
  (forall c, starts_with (SCHRODINGER environ) (program_path (SCHRODINGER environ) c) = true) /\
  starts_with (SCHRODINGER environ) (jobcontrol_path (SCHRODINGER environ)) = true.
Proof.
  split; [| split; [| split; [| split; [| split]]]].
  - unfold SCHRODINGER. apply get_or_nonempty, get_or_nonempty. discriminate.
  - intros v Hv Hne. unfold SCHRODINGER, get_or. rewrite Hv.
    destruct v; [contradiction | reflexivity].
  - intros v H18 Hv Hne. unfold SCHRODINGER.
    assert (H : forall rest, get_or environ "SCHRODINGER18" rest = rest).
    { intros rest. unfold get_or. destruct H18 as [-> | ->]; reflexivity. }
    rewrite H. unfold get_or. rewrite Hv. destruct v; [contradiction | reflexivity].
  - intros H18 H184. unfold SCHRODINGER, get_or.
    destruct H18 as [-> | ->]; destruct H184 as [-> | ->]; reflexivity.
  - intros c. destruct c; apply os_path_join_relative; repeat constructor.
  - apply os_path_join_relative. repeat constructor.
Qed.

(** ** Failures the except clauses catch *)

Lemma pool_map_reaches (w : World) (fuel : nat) (l1 : list string) (mae : string)
    (l2 : list string) (d : Dir) :
  all_terminal (fst (pool_map w fuel l1 d)) = true ->
  In (mae, fst (process_frame w fuel mae (snd (pool_map w fuel l1 d))))
     (fst (pool_map w fuel (l1 ++ mae :: l2) d)).
Proof.
  revert d. induction l1 as [|m l1 IH]; intros d; simpl.
  - intros _. destruct (process_frame w fuel mae d) as [r d1]. simpl.
    destruct (terminal (fr_status r)); [| left; reflexivity].
    destruct (pool_map w fuel l2 d1) as [rs d2]. left. reflexivity.
  - destruct (process_frame w fuel m d) as [r d1].
    destruct (terminal (fr_status r)) eqn:Hr.
    + specialize (IH d1).
      destruct (pool_map w fuel l1 d1) as [rs d2].
      destruct (pool_map w fuel (l1 ++ mae :: l2) d1) as [rs' d3].
      unfold all_terminal in *. simpl in *. rewrite Hr. simpl.
      intros Hrs. right. apply IH. exact Hrs.
    + unfold all_terminal. simpl. rewrite Hr. discriminate.
Qed.

(** X27.  A failure that an except clause catches stays in its frame.
    Inside the frame: a program that exits with a non-zero status ends the
    frame in the except clause of its own stage, and a frame that ended in
    the except clause of stage [k] has done nothing of a later stage.
    Across frames: a frame whose predecessors in the batch all ended in
    [Done] or [Failed], however many failed, is given to [process_frame], in
    the working directory they left; and a run in which every frame ends
    in [Done] or [Failed] goes through all its batches and runs every
    frame. *)
Theorem caught_failure_is_contained (w : World) (fuel : nat) :
  (forall mae d c argv,
     In (ERun c argv) (fr_trace (fst (process_frame w fuel mae d))) ->
     exit_status w (splitext_root mae) c <> 0 ->
     fr_status (fst (process_frame w fuel mae d)) = Failed (stage_of_cmd c) /\
     Forall (fun e => (stage_rank (stage_of_event e) <= stage_rank (stage_of_cmd c))%nat)
            (fr_trace (fst (process_frame w fuel mae d)))) /\
  (forall mae d k,
     fr_status (fst (process_frame w fuel mae d)) = Failed k ->
     Forall (fun e => (stage_rank (stage_of_event e) <= stage_rank k)%nat)
            (fr_trace (fst (process_frame w fuel mae d)))) /\
  (forall l1 mae l2 d,
     Forall (fun r => fr_status (snd r) = Done \/ exists k, fr_status (snd r) = Failed k)
            (fst (pool_map w fuel l1 d)) ->
     In (mae, fst (process_frame w fuel mae (snd (pool_map w fuel l1 d))))
        (fst (pool_map w fuel (l1 ++ mae :: l2) d))) /\
  (forall c batches d,
     Forall (fun r => fr_status (snd r) = Done \/ exists k, fr_status (snd r) = Failed k)
            (run_results w fuel batches d) ->
     exists log d',
       run_batches w fuel c batches d = Some (log, d') /\
       frame_runs log = run_results w fuel batches d /\
       List.map fst (frame_runs log) = List.concat batches).
Proof.
  split; [| split; [| split]].
  - intros mae d c argv Hin Hexit.
    destruct (process_frame_stages w fuel mae d) as [_ [Hfailed Hsome]].
    destruct Hsome as [k Hk].
    { exists (ERun c argv). split; [exact Hin | exact Hexit]. }
    destruct (Hfailed k Hk) as [Hle Hstage].
    rewrite List.Forall_forall in Hstage.
    pose proof (Hstage _ Hin Hexit) as Hc. simpl in Hc. subst k.
    split; [exact Hk | exact Hle].
  - intros mae d k Hk.
    destruct (process_frame_stages w fuel mae d) as [_ [Hfailed _]].
    apply (Hfailed k Hk).
  - intros l1 mae l2 d Hterm. apply pool_map_reaches.
    unfold all_terminal. apply forallb_forall.
    rewrite List.Forall_forall in Hterm.
    intros r Hr. destruct (Hterm r Hr) as [-> | [k ->]]; reflexivity.
  - intros c batches d Hterm.
    destruct (run_batches_total w fuel c batches d) as [log [d' [Hrun Hlog]]].
    { eapply List.Forall_impl; [| exact Hterm]. simpl.
      intros r [-> | [k ->]]; reflexivity. }
    exists log, d'. split; [exact Hrun | split; [exact Hlog |]].
    apply (run_batches_log _ _ _ _ _ _ _ Hrun).
Qed.

(** ** The cases at work *)

(** Grid generation fails for frame 2: the frame ends there, and frame 3,
    behind it in the batch, is run to its end. *)
Lemma caught_failure_is_contained_witness :
  fr_status (fst (process_frame (sample_world [("2", glide_gridgen)]) 2 "2.mae" ∅))
  = Failed GridGenerate /\
  List.map (fun r => (fst r, fr_status (snd r)))
    (fst (pool_map (sample_world [("2", glide_gridgen)]) 2 ["1.mae"; "2.mae"; "3.mae"] ∅))
  = [("1.mae", Done); ("2.mae", Failed GridGenerate); ("3.mae", Done)].
Proof.
  split; [| vm_compute; reflexivity].
  apply (proj1 (caught_failure_is_contained (sample_world [("2", glide_gridgen)]) 2)
           "2.mae" ∅ glide_gridgen [File "2_grid_input.csv"]).
  - vm_compute. tauto.
  - vm_compute. discriminate.
Defined.

Lemma default_cores_bounds_witness :
  get_default_cores (Some 8) = 6 /\ get_default_cores None = 3 /\
  STEP (config_of_args (Some 8)
          {| args_start := 1; args_end := 9; args_step := None;
             args_ncores := None; args_batch := None |}) = 1.
Proof.
  destruct (default_cores_bounds (Some 8)) as [_ [_ [Hn Hargs]]].
  destruct (default_cores_bounds None) as [_ [Hnone _]].
  split; [| split].
  - destruct (Hn 8 eq_refl ltac:(lia)) as [Hb _]. lia.
  - apply Hnone. left. reflexivity.
  - apply Hargs; reflexivity.
Defined.

Lemma rename_failure_escapes_witness :
  fr_status (fst (process_frame idle_world 2 "1.mae" ∅)) = Crashed FileNotFoundError /\
  run_batches idle_world 2 4 [["1.mae"; "2.mae"]; ["3.mae"]] ∅ = None.
Proof.
  destruct (rename_failure_escapes idle_world 2 "1.mae" ∅) as [Hstatus [_ Hrun]].
  - reflexivity.
  - reflexivity.
  - split; [exact Hstatus | apply Hrun].
Defined.

Lemma frame_done_iff_witness :
  fr_status (fst (process_frame (sample_world []) 2 "1.mae" ∅)) = Done.
Proof.
  apply (proj2 (frame_done_iff (sample_world []) 2 "1.mae" ∅)).
  split; [repeat constructor |]. split; [| split].
  - vm_compute. eexists. reflexivity.
  - vm_compute. reflexivity.
  - vm_compute. eexists. reflexivity.
Defined.

Lemma failed_stage_iff_witness :
  fr_status (fst (process_frame (sample_world []) 2 "4.mae" ∅)) = Failed GeometryDerive /\
  fr_status (fst (process_frame (sample_world []) 0 "1.mae" ∅)) = Hung.
Proof.
  split.
  - apply (proj1 (proj2 (proj2 (failed_stage_iff (sample_world []) 2 "4.mae" ∅)))).
    split; [| vm_compute; reflexivity].
    split; [| split; reflexivity].
    split; [reflexivity | vm_compute; eexists; reflexivity].
  - apply (proj1 (proj2 (proj2 (proj2 (proj2 (failed_stage_iff (sample_world []) 0 "1.mae" ∅)))))).
    split; [| reflexivity].
    split; [| reflexivity].
    split; [| vm_compute; reflexivity].
    split; [| split; reflexivity].
    split; [reflexivity | vm_compute; eexists; reflexivity].
Defined.

Lemma run_stops_iff_a_frame_does_witness :
  run_batches idle_world 2 4 [["1.mae"; "2.mae"]] ∅ = None.
Proof.
  apply (proj2 (run_stops_iff_a_frame_does idle_world 2 4 [["1.mae"; "2.mae"]] ∅)).
  exists ("1.mae", fst (process_frame idle_world 2 "1.mae" ∅)). split.
  - left. reflexivity.
  - right. exists FileNotFoundError. vm_compute. reflexivity.
Defined.

Lemma toolsuite_paths_witness :
  SCHRODINGER {[ "SCHRODINGER18" := ""; "SCHRODINGER18_4" := "/opt/suite" ]} = "/opt/suite" /\
  SCHRODINGER ∅ <> "".
Proof.
  split.
  - apply (proj1 (proj2 (proj2 (toolsuite_paths
             {[ "SCHRODINGER18" := ""; "SCHRODINGER18_4" := "/opt/suite" ]})))).
    + right. vm_compute. reflexivity.
    + vm_compute. reflexivity.
    + discriminate.
  - apply (toolsuite_paths ∅).
Defined.
